(** * CSG reconstruction core: a shallow embedding of the evolutionary
      operators (csgnode_evo.cpp, primitive_extraction.cpp) and of the
      pipeline driver (optimizer_pipeline_runner.cpp).

    Conventions of the embedding.
    - [int] values are integers of [Z]; sizes and indices of containers are
      [nat] and are converted where the source converts them.  Signed
      overflow is undefined in C++ and does not arise for trees and sets that
      fit in memory, so no wrap-around is written.
    - [double] values are idealised as rationals of [Q].  Comparisons are the
      boolean tests of the source.  Where the source divides, the IEEE result
      of a zero divisor is written out at the places a test depends on it.
    - The random engine is an interface ([RandomEngine]); the distributions
      of <random> are written over it.  Every theorem that does not name an
      engine holds for all of them, hence for every sequence of draws.
    - Console output and calls to collaborators outside of the sources are
      recorded in the world as events. *)

From Stdlib Require Import ZArith QArith Qabs List String Bool Lia Lqa.
From Stdlib Require Import DecimalString.
Import ListNotations.

Set Implicit Arguments.
Set Warnings "-register-all".

(* ================================================================== *)
(** * Random engines and the state of a run *)
(* ================================================================== *)

Module Random.

(** The engine concept of <random>: a state that yields raw values, and a
    seeding function. *)
Class RandomEngine := {
  EngineState : Type;
  engine_next : EngineState -> N * EngineState;
  engine_seed : N -> EngineState
}.

(** [std::minstd_rand0], the [std::default_random_engine] of libstdc++:
    x' = 16807 * x mod (2^31 - 1); a seed congruent to 0 is replaced by 1. *)
Definition minstd_modulus : N := 2147483647.

Definition minstd_seed (s : N) : N :=
  if N.eqb (s mod minstd_modulus) 0 then 1%N else (s mod minstd_modulus)%N.

Definition minstd_next (x : N) : N * N :=
  let x' := ((16807 * x) mod minstd_modulus)%N in (x', x').

Definition minstd_rand0 : RandomEngine :=
  {| EngineState := N; engine_next := minstd_next; engine_seed := minstd_seed |}.

(** A scripted engine: it replays a prepared list of raw values (and yields 0
    once the list is used up).  Seeding prepares the one-element script. *)
Definition scripted_next (s : list N) : N * list N :=
  match s with
  | [] => (0%N, [])
  | x :: s' => (x, s')
  end.

Definition scripted : RandomEngine :=
  {| EngineState := list N; engine_next := scripted_next;
     engine_seed := fun s => [s] |}.

Inductive Event :=
| Print (s : string)     (* a line written to std::cout *)
| Call (what : string).  (* a call to a collaborator outside of the sources *)

Section Monad.
Context {E : RandomEngine}.

(** The mutable part of a run: the engine of the creator and the events so
    far (most recent last). *)
Record World := mkWorld { rndEngine : EngineState; events : list Event }.

(** Outcome of a computation: a value and the next world; undefined
    behaviour of the C++ program (an index out of range, a null pointer
    dereferenced, a distribution with an empty range); the step budget of a
    loop used up. *)
Inductive Res (A : Type) :=
| Ok (a : A) (w : World)
| Undefined
| OutOfFuel.
Arguments Undefined {A}.
Arguments OutOfFuel {A}.

Definition M (A : Type) := World -> Res A.

Definition ret {A} (a : A) : M A := fun w => Ok a w.

Definition bind {A B} (m : M A) (k : A -> M B) : M B :=
  fun w => match m w with
           | Ok a w' => k a w'
           | Undefined => Undefined
           | OutOfFuel => OutOfFuel
           end.

Definition undefined {A} : M A := fun _ => Undefined.
Definition outOfFuel {A} : M A := fun _ => OutOfFuel.

Definition emit (e : Event) : M unit :=
  fun w => Ok tt (mkWorld (rndEngine w) (events w ++ [e])).

Definition say (s : string) : M unit := emit (Print s).

Definition raw : M N :=
  fun w => let (x, e') := engine_next (rndEngine w) in
           Ok x (mkWorld e' (events w)).

(** [std::generate_canonical]: a value of [0, 1), here the low 32 bits of
    one raw value over 2^32.  The number of raw values a library combines,
    and their scaling, depend on the range of the engine; what is proved of
    an engine-generic theorem rests on the range [0, 1) alone. *)
Definition canonical (x : N) : Q := Z.of_N (x mod 4294967296) # 4294967296.

(** [std::uniform_int_distribution<>] called with the parameters {a, b}.
    The standard requires a <= b. *)
Definition uniform_int (a b : Z) : M Z :=
  if (b <? a)%Z then undefined
  else bind raw (fun x => ret (a + (Z.of_N x) mod (b - a + 1))%Z).

(** [std::bernoulli_distribution] called with the parameter {p}. *)
Definition bernoulli (p : Q) : M bool :=
  bind raw (fun x => ret (negb (Qle_bool p (canonical x)))).

(** [std::discrete_distribution<int>] over the given weights: the first
    index whose cumulated weight exceeds the canonical draw scaled by the
    total weight (the last index when rounding leaves none); 0 for an empty
    weight list. *)
Fixpoint discrete_pick (ws : list Q) (u : Q) (i : Z) : Z :=
  match ws with
  | [] => Z.max 0 (i - 1)
  | w :: ws' => if negb (Qle_bool w u) then i
                else discrete_pick ws' (u - w) (i + 1)%Z
  end.

Definition discrete (ws : list Q) : M Z :=
  bind raw (fun x =>
    ret (discrete_pick ws (canonical x * fold_right Qplus 0 ws) 0%Z)).

(** [v[i]] on a std::vector: undefined out of range. *)
Definition index {A} (v : list A) (i : Z) : M A :=
  if (i <? 0)%Z then undefined
  else match nth_error v (Z.to_nat i) with
       | Some a => ret a
       | None => undefined
       end.

End Monad.

Arguments Undefined {E A}.
Arguments OutOfFuel {E A}.

Module Notations.
Notation "x <- m ;; k" := (bind m (fun x => k))
  (at level 61, m at next level, right associativity).
Notation "m ;;; k" := (bind m (fun _ => k))
  (at level 61, right associativity).
End Notations.

(** [ostream << int] *)
Definition show (z : Z) : string := NilZero.string_of_int (Z.to_int z).

End Random.

(* ================================================================== *)
(** * CSG trees and their evolutionary operators (csgnode_evo.cpp) *)
(* ================================================================== *)

Module CSG.
Import Random Random.Notations.

(** A fitted shape as the CSG search sees it (a shared_ptr<ImplicitFunction>):
    its name and the number of rows of its point matrix. *)
Record ImplicitFunction := mkFunction { name : string; points_rows : Z }.

Inductive CSGNodeOperationType :=
| Unknown | Intersection | Union | Difference | Complement | Noop | Invalid.

(** A node is a geometry leaf or an operation with a name and its children,
    owned by value. *)
Inductive CSGNode :=
| Geometry (f : ImplicitFunction)
| Operation (op : CSGNodeOperationType) (nm : string) (childs : list CSGNode).

(** Modelled from the spec: csgnode.h and csgnode.cpp are not among the
    sources.  The operator codes 1..3 drawn by [create] are the three binary
    operators (section 4.6); [createOperation] builds an operation without
    children; allowed child counts are those of section 3: Union and
    Intersection at least 2, Difference exactly 2, Complement exactly 1,
    anything else none.  [numNodes] counts the nodes, [depth] is the number of
    edges on the longest path to a leaf (so that a leaf has depth 0, as
    [create 0] requires), and [nodePtrAt] addresses the nodes in pre-order
    and yields no node out of range. *)
Definition operationOfCode (code : Z) : CSGNodeOperationType :=
  match code with
  | 1%Z => Intersection
  | 2%Z => Union
  | 3%Z => Difference
  | _ => Unknown
  end.

Definition createOperation (op : CSGNodeOperationType) : CSGNode :=
  Operation op EmptyString [].

Definition INT_MAX : Z := 2147483647.

Definition numAllowedChilds (n : CSGNode) : Z * Z :=
  match n with
  | Geometry _ => (0, 0)
  | Operation Union _ _ | Operation Intersection _ _ => (2, INT_MAX)
  | Operation Difference _ _ => (2, 2)
  | Operation Complement _ _ => (1, 1)
  | Operation _ _ _ => (0, 0)
  end%Z.

Definition clamp (x lo hi : Z) : Z :=
  if (x <? lo)%Z then lo else if (hi <? x)%Z then hi else x.

Definition addChild (n child : CSGNode) : CSGNode :=
  match n with
  | Geometry f => Geometry f
  | Operation op nm cs => Operation op nm (cs ++ [child])
  end.

Definition operationType (n : CSGNode) : CSGNodeOperationType :=
  match n with
  | Geometry _ => Invalid
  | Operation op _ _ => op
  end.

Fixpoint numNodes (n : CSGNode) : nat :=
  match n with
  | Geometry _ => 1
  | Operation _ _ cs => S (list_sum (map numNodes cs))
  end.

Fixpoint depth (n : CSGNode) : nat :=
  match n with
  | Geometry _ => 0
  | Operation _ _ cs => fold_right (fun c acc => Nat.max (S (depth c)) acc) 0%nat cs
  end.

(** The node at pre-order index [idx] ([*nodePtrAt(n, idx)]). *)
Fixpoint nodeAt (n : CSGNode) (idx : nat) {struct n} : option CSGNode :=
  match idx with
  | O => Some n
  | S i =>
    match n with
    | Geometry _ => None
    | Operation _ _ cs =>
      (fix go (cs : list CSGNode) (i : nat) {struct cs} : option CSGNode :=
         match cs with
         | [] => None
         | c :: rest =>
           if (i <? numNodes c)%nat then nodeAt c i
           else go rest (i - numNodes c)%nat
         end) cs i
    end
  end.

(** The tree after the assignment [*nodePtrAt(n, idx) = new]. *)
Fixpoint assignAt (n : CSGNode) (idx : nat) (new : CSGNode) {struct n}
  : option CSGNode :=
  match idx with
  | O => Some new
  | S i =>
    match n with
    | Geometry _ => None
    | Operation op nm cs =>
      option_map (Operation op nm)
        ((fix go (cs : list CSGNode) (i : nat) {struct cs}
            : option (list CSGNode) :=
            match cs with
            | [] => None
            | c :: rest =>
              if (i <? numNodes c)%nat
              then option_map (fun c' => c' :: rest) (assignAt c i new)
              else option_map (cons c) (go rest (i - numNodes c)%nat)
            end) cs i)
    end
  end.

(** The lookups of the source dereference the pointer at once. *)
Definition deref {E : RandomEngine} {A} (p : option A) : M A :=
  match p with
  | Some a => ret a
  | None => undefined
  end.

Record CSGNodeCreator := mkCSGNodeCreator {
  _functions : list ImplicitFunction;
  _createNewRandomProb : Q;
  _subtreeProb : Q;
  _maxTreeDepth : Z
}.

(** The constructor seeds the engine with a value drawn from the creator's
    own std::random_device; [rndDevice] is the value the device yields. *)
Definition CSGNodeCreator_engine {E : RandomEngine} (rndDevice : N)
  : EngineState := engine_seed rndDevice.

Section Creator.
Context {E : RandomEngine}.
Variable c : CSGNodeCreator.

(** One geometry leaf over a uniformly drawn function. *)
Definition randomLeaf : M CSGNode :=
  funcIdx <- uniform_int 0 (Z.of_nat (List.length (_functions c)) - 1) ;;
  f <- index (_functions c) funcIdx ;;
  ret (Geometry f).

(** [create(node, maxDepth, curDepth)]: fills the children of [node].  The
    recursion descends only while [curDepth < maxDepth]; [fuel] bounds it. *)
Fixpoint createChilds (fuel : nat) (node : CSGNode) (maxDepth curDepth : Z)
  {struct fuel} : M CSGNode :=
  match fuel with
  | O => outOfFuel
  | S fuel' =>
    let allowed := numAllowedChilds node in
    let numChilds := clamp (snd allowed) (fst allowed) 2 in
    (fix loop (k : nat) (node : CSGNode) {struct k} : M CSGNode :=
       match k with
       | O => ret node
       | S k' =>
         b <- bernoulli (_subtreeProb c) ;;
         child <- (if b && (curDepth <? maxDepth)%Z then
                     op <- uniform_int 1 3 ;;
                     createChilds fuel' (createOperation (operationOfCode op))
                                  maxDepth (curDepth + 1)
                   else randomLeaf) ;;
         loop k' (addChild node child)
       end) (Z.to_nat numChilds) node
  end.

(** [create(maxDepth)] *)
Definition create_depth (maxDepth : Z) : M CSGNode :=
  if (maxDepth =? 0)%Z then randomLeaf
  else
    op <- uniform_int 1 3 ;;
    createChilds (S (Z.to_nat maxDepth))
                 (createOperation (operationOfCode op)) maxDepth 1.

(** [create()] *)
Definition create : M CSGNode := create_depth (_maxTreeDepth c).

Definition mutate (node : CSGNode) : M CSGNode :=
  b <- bernoulli (_createNewRandomProb c) ;;
  if b then create_depth (_maxTreeDepth c)
  else
    nodeIdx <- uniform_int 0 (Z.of_nat (numNodes node) - 1) ;;
    say ("Mutation at " ++ show nodeIdx) ;;;
    let newNode := node in
    let maxSubtreeDepth := (_maxTreeDepth c - Z.of_nat (depth newNode))%Z in
    sub <- create_depth maxSubtreeDepth ;;
    deref (assignAt newNode (Z.to_nat nodeIdx) sub).

Definition crossover (node1 node2 : CSGNode) : M (list CSGNode) :=
  let numNodes1 := Z.of_nat (numNodes node1) in
  let numNodes2 := Z.of_nat (numNodes node2) in
  nodeIdx1 <- uniform_int 0 (numNodes1 - 1) ;;
  nodeIdx2 <- uniform_int 0 (numNodes2 - 1) ;;
  say ("Crossover at " ++ show nodeIdx1 ++ " and " ++ show nodeIdx2) ;;;
  subNode1 <- deref (nodeAt node1 (Z.to_nat nodeIdx1)) ;;
  subNode2 <- deref (nodeAt node2 (Z.to_nat nodeIdx2)) ;;
  (* std::swap of the two addressed subtrees *)
  newNode1 <- deref (assignAt node1 (Z.to_nat nodeIdx1) subNode2) ;;
  newNode2 <- deref (assignAt node2 (Z.to_nat nodeIdx2) subNode1) ;;
  ret [ if (Z.of_nat (depth newNode1) <=? _maxTreeDepth c)%Z
        then newNode1 else node1 ;
        if (Z.of_nat (depth newNode2) <=? _maxTreeDepth c)%Z
        then newNode2 else node1 ].

End Creator.

(** ** Ranking and the per-clique orchestration *)

(** The largest finite double. *)
Definition DBL_MAX : Q := inject_Z (2 ^ 1024 - 2 ^ 971).

(** The double nearest to pi (the macro M_PI). *)
Definition M_PI : Q := 884279719003555 # 281474976710656.

(** The connection graph (a boost adjacency list): vertices and edges. *)
Record Graph := mkGraph {
  m_vertices : list ImplicitFunction;
  m_edges : list (ImplicitFunction * ImplicitFunction)
}.

Definition emptyGraph : Graph := mkGraph [] [].

Record Clique := mkClique { functions : list ImplicitFunction }.

Record CSGNodeRanker := mkCSGNodeRanker {
  _lambda : Q;
  _rfunctions : list ImplicitFunction;
  _earlyOutTest : bool;
  _connectionGraph : Graph
}.

Definition CSGNodeRanker_new (lambda : Q) (fs : list ImplicitFunction)
  (g : Graph) : CSGNodeRanker :=
  mkCSGNodeRanker lambda fs (negb (Nat.eqb (List.length (m_vertices g)) 0)) g.

(** Parameters of the genetic algorithm as [createCSGNodeWithGA] sets them. *)
Record GAParameters := mkGAParameters {
  populationSize : Z; numBestParents : Z; mutationRate : Q; crossoverRate : Q;
  tournamentK : Z; stopWindow : Z; stopDelta : Q; stopMinIterations : Z
}.

(** Collaborators that are not among the sources: the geometry scorer
    [computeGeometryScore] (csgnode_helper), [std::log], and the generic
    engine of evolution.h, taken here as the creatures of the final
    population that a run returns. *)
Class Collaborators := {
  computeGeometryScore : CSGNode -> Q -> Q -> list ImplicitFunction -> Q;
  log : Z -> Q;
  GeneticAlgorithm_run :
    GAParameters -> CSGNodeCreator -> CSGNodeRanker -> list CSGNode
}.

Definition nodeName (n : CSGNode) : string :=
  match n with
  | Geometry f => name f
  | Operation _ nm _ => nm
  end.

Section Orchestrator.
Context {E : RandomEngine} {X : Collaborators}.

(** [CSGNodeRanker::rank]; the numbers that follow the two labels on the
    console are not rendered. *)
Definition rank (r : CSGNodeRanker) (node : CSGNode) : M Q :=
  let alpha := M_PI / 18 in
  let epsilon := 1 # 100 in
  let geometryScore := computeGeometryScore node epsilon alpha (_rfunctions r) in
  let score := geometryScore - _lambda r * inject_Z (Z.of_nat (numNodes node)) in
  say "lambda: " ;;;
  say "geometry score: " ;;;
  ret score.

Definition lambdaBasedOnPoints (shapes : list ImplicitFunction) : Q :=
  log (fold_left (fun numPoints shape => (numPoints + points_rows shape)%Z)
                 shapes 0%Z).

Definition createCSGNodeWithGA (shapes : list ImplicitFunction) (g : Graph)
  : M CSGNode :=
  let p := mkGAParameters 150 2 (3 # 10) (3 # 10) 2 500 (1 # 100) 500 in
  let c := mkCSGNodeCreator shapes (5 # 10) (7 # 10) 10 in
  let lambda := lambdaBasedOnPoints shapes in
  say "lambda: " ;;;
  let r := CSGNodeRanker_new lambda shapes g in
  emit (Call "GeneticAlgorithm::runAsync") ;;;
  let population := GeneticAlgorithm_run p c r in
  emit (Call "Statistics::save") ;;;
  index population 0.

(** The four candidates of a clique of two, in the order they are pushed. *)
Definition candidatesOf (f0 f1 : ImplicitFunction) : list CSGNode :=
  [ Operation Union "un" [Geometry f0; Geometry f1];
    Operation Intersection "inter" [Geometry f0; Geometry f1];
    Operation Difference "lr" [Geometry f0; Geometry f1];
    Operation Difference "rl" [Geometry f1; Geometry f0] ].

(** The scan for the best candidate; [bestCandidate] starts as the null
    pointer ([None]) and [maxScore] as -DBL_MAX. *)
Fixpoint scanCandidates (ranker : CSGNodeRanker) (f0 f1 : ImplicitFunction)
  (candidates : list CSGNode) (maxScore : Q) (bestCandidate : option CSGNode)
  : M (option CSGNode) :=
  match candidates with
  | [] => ret bestCandidate
  | candidate :: rest =>
    curScore <- rank ranker candidate ;;
    say (nodeName candidate ++ " for " ++ name f0 ++ " " ++ name f1
         ++ " rank: ") ;;;
    if negb (Qle_bool curScore maxScore)
    then scanCandidates ranker f0 f1 rest curScore (Some candidate)
    else scanCandidates ranker f0 f1 rest maxScore bestCandidate
  end.

Fixpoint computeNodesForCliques_from (res : list (Clique * CSGNode))
  (geometryCliques : list Clique) (connectionGraph : Graph)
  : M (list (Clique * CSGNode)) :=
  match geometryCliques with
  | [] => ret res
  | clique :: rest =>
    match functions clique with
    | [] => computeNodesForCliques_from res rest connectionGraph
    | [f0] =>
      computeNodesForCliques_from (res ++ [(clique, Geometry f0)])
                                  rest connectionGraph
    | [f0; f1] =>
      let ranker :=
        CSGNodeRanker_new (lambdaBasedOnPoints (functions clique))
                          (functions clique) emptyGraph in
      bestCandidate <-
        scanCandidates ranker f0 f1 (candidatesOf f0 f1) (- DBL_MAX) None ;;
      best <- deref bestCandidate ;;
      computeNodesForCliques_from (res ++ [(clique, best)])
                                  rest connectionGraph
    | _ =>
      node <- createCSGNodeWithGA (functions clique) connectionGraph ;;
      computeNodesForCliques_from (res ++ [(clique, node)])
                                  rest connectionGraph
    end
  end.

Definition computeNodesForCliques (geometryCliques : list Clique)
  (connectionGraph : Graph) : M (list (Clique * CSGNode)) :=
  computeNodesForCliques_from [] geometryCliques connectionGraph.

End Orchestrator.

End CSG.

(* ================================================================== *)
(** * Primitive sets (primitive_extraction.cpp) *)
(* ================================================================== *)

Module PSS.
Import Random Random.Notations.

Open Scope Q_scope.

(** ** Vectors *)

Record Vector3d := vec { vx : Q; vy : Q; vz : Q }.

Definition zero3 : Vector3d := vec 0 0 0.
Definition vadd (a b : Vector3d) := vec (vx a + vx b) (vy a + vy b) (vz a + vz b).
Definition vsub (a b : Vector3d) := vec (vx a - vx b) (vy a - vy b) (vz a - vz b).
Definition vscale (k : Q) (a : Vector3d) := vec (k * vx a) (k * vy a) (k * vz a).
Definition dot (a b : Vector3d) : Q := vx a * vx b + vy a * vy b + vz a * vz b.

(** Equality of vectors as rational triples. *)
Definition veq (a b : Vector3d) : Prop :=
  vx a == vx b /\ vy a == vy b /\ vz a == vz b.

Definition Qltb (a b : Q) : bool := negb (Qle_bool b a).

Definition DBL_MAX : Q := inject_Z (2 ^ 1024 - 2 ^ 971).

(** ** Manifolds, implicit functions, primitives *)

Module ManifoldType.
Inductive t := Plane | Cylinder | Sphere.
Definition eqb (a b : t) : bool :=
  match a, b with
  | Plane, Plane | Cylinder, Cylinder | Sphere, Sphere => true
  | _, _ => false
  end.
End ManifoldType.

(** A row of a point cloud: position and unit normal. *)
Definition PointCloud := list (Vector3d * Vector3d).

Record Manifold := mkManifold {
  type : ManifoldType.t;
  p : Vector3d;
  n : Vector3d;
  r : Vector3d;
  pc : PointCloud
}.

Definition ManifoldSet := list Manifold.

Definition Matrix3d : Type := Vector3d * Vector3d * Vector3d.
Definition Identity3 : Matrix3d := (vec 1 0 0, vec 0 1 0, vec 0 0 1).

(** [Eigen::Affine3d]: linear part and translation. *)
Record Affine3d := mkAffine { linear : Matrix3d; translation : Vector3d }.

(** The implicit functions the builders construct (the name argument, always
    empty, is left out); [IFNull] is the null handle. *)
Inductive ImplicitFunction :=
| IFPolytope (t : Affine3d) (ps ns : list Vector3d)
| IFSphere (t : Affine3d) (radius : Q)
| IFCylinder (t : Affine3d) (radius height : Q)
| IFNull.

Module PrimitiveType.
Inductive t := None | Box | Cylinder | Sphere.
Definition eqb (a b : t) : bool :=
  match a, b with
  | None, None | Box, Box | Cylinder, Cylinder | Sphere, Sphere => true
  | _, _ => false
  end.
End PrimitiveType.

Record Primitive := mkPrimitive {
  imFunc : ImplicitFunction;
  ms : ManifoldSet;
  ptype : PrimitiveType.t;
  cutout : bool
}.

Definition PrimitiveSet := list Primitive.

(** Modelled from the spec: primitive_extraction.h is not among the sources.
    [Primitive::None()] is the primitive of kind None, without function and
    manifolds; a primitive is built with [cutout] unset; [isNone] tests the
    kind; the mutation kinds are numbered in the order of the mutation
    distribution, {NEW, REPLACE, MODIFY, REMOVE, ADD} (section 4.5). *)
Definition Primitive_None : Primitive :=
  mkPrimitive IFNull [] PrimitiveType.None false.

Definition Primitive_new (f : ImplicitFunction) (ms : ManifoldSet)
  (ty : PrimitiveType.t) : Primitive := mkPrimitive f ms ty false.

Definition isNone (pr : Primitive) : bool :=
  PrimitiveType.eqb (ptype pr) PrimitiveType.None.

Module MutationType.
Definition NEW : Z := 0.
Definition REPLACE : Z := 1.
Definition MODIFY : Z := 2.
Definition REMOVE : Z := 3.
Definition ADD : Z := 4.
End MutationType.

Definition set_cutout (b : bool) (pr : Primitive) : Primitive :=
  mkPrimitive (imFunc pr) (ms pr) (ptype pr) b.

(** ** Collaborators outside of the sources *)

(** Eigen ([norm], [normalized]), libm ([cos]), the geometry kernel
    ([signedDistanceAndGradient], the emptiness test of a polytope),
    primitive_helper ([getRotationMatrix], [manifoldsEqual]), the mesh and
    CGAL part of the area score (its two sums), and the default arguments of
    [getManifold] that the header declares. *)
Class Kernel := {
  norm : Vector3d -> Q;
  normalized : Vector3d -> Vector3d;
  cos : Q -> Q;
  signedDistanceAndGradient : ImplicitFunction -> Vector3d -> Q * Vector3d;
  IFPolytope_empty : list Vector3d -> list Vector3d -> bool;
  getRotationMatrix : Vector3d -> Matrix3d;
  manifoldsEqual : Manifold -> Manifold -> Q -> bool;
  areaSums : PrimitiveSet -> Q * Q;
  default_ignoreDirection : bool;
  default_point : Vector3d;
  default_minimumPointDistance : Q
}.

(** ** Builders of primitives *)

(** The test [num / den >= 0.0] on doubles: a zero divisor gives an infinity
    of the sign of [num], or NaN for 0/0, which is not >= 0.  The zero
    divisor is taken as +0.0: the rationals have no -0.0, for which the
    infinity has the opposite sign. *)
Definition quotient_ge0 (num den : Q) : bool :=
  if Qeq_bool den 0 then Qltb 0 num else Qle_bool 0 (num / den).

Definition set_n (m : Manifold) (n' : Vector3d) : Manifold :=
  mkManifold (type m) (p m) n' (r m) (pc m).

(** One turn of the loop of [createBoxPrimitive]: the copies of a pair of
    planes with their orientation corrected. *)
Definition orientPair (plane1 plane2 : Manifold) : Manifold * Manifold :=
  let p1 := p plane1 in
  let n1 := n plane1 in
  let p2 := p plane2 in
  let n2 := n plane2 in
  let newPlane1 :=
    if quotient_ge0 (dot (vsub p2 p1) n2) (dot n1 n2)
    then set_n plane1 (vscale (-1) (n plane1)) else plane1 in
  let newPlane2 :=
    if quotient_ge0 (dot (vsub p1 p2) n1) (dot n2 n1)
    then set_n plane2 (vscale (-1) (n plane2)) else plane2 in
  (newPlane1, newPlane2).

(** The loop over the pairs (2i, 2i+1). *)
Fixpoint orientPairs (planes : ManifoldSet) : ManifoldSet :=
  match planes with
  | plane1 :: plane2 :: rest =>
    let (newPlane1, newPlane2) := orientPair plane1 plane2 in
    newPlane1 :: newPlane2 :: orientPairs rest
  | _ => []
  end.

Section Builders.
Context {E : RandomEngine} {K : Kernel}.

Definition createBoxPrimitive (planes : ManifoldSet) : Primitive :=
  if negb (Nat.eqb (List.length planes) 6) then Primitive_None
  else
    let ms := orientPairs planes in
    let p := map p ms in
    let n := map n ms in
    if IFPolytope_empty p n then Primitive_None
    else Primitive_new (IFPolytope (mkAffine Identity3 zero3) p n) ms
                       PrimitiveType.Box.

(** A null manifold pointer is [None]. *)
Definition createSpherePrimitive (m : option Manifold) : Primitive :=
  match m with
  | Some m =>
    if negb (ManifoldType.eqb (type m) ManifoldType.Sphere) then Primitive_None
    else Primitive_new (IFSphere (mkAffine Identity3 (p m)) (vx (r m))) [m]
                       PrimitiveType.Sphere
  | None => Primitive_None
  end.

(** Column-wise extremum of the positions of a point cloud; Eigen does not
    define it for a matrix without rows. *)
Definition colwise (pick : Q -> Q -> Q) (pc : PointCloud) : option Vector3d :=
  match pc with
  | [] => None
  | (x, _) :: rest =>
    Some (fold_left (fun acc row =>
                       vec (pick (vx acc) (vx (fst row)))
                           (pick (vy acc) (vy (fst row)))
                           (pick (vz acc) (vz (fst row)))) rest x)
  end.

Definition Qmin (a b : Q) : Q := if Qle_bool a b then a else b.
Definition Qmax (a b : Q) : Q := if Qle_bool a b then b else a.

Definition estimateSecondCylinderPlaneFromPointCloud (m firstPlane : Manifold)
  : option Manifold :=
  match colwise Qmin (pc m), colwise Qmax (pc m) with
  | Some minPos, Some maxPos =>
    let p := if Qltb (norm (vsub (p firstPlane) maxPos))
                     (norm (vsub (p firstPlane) minPos))
             then minPos else maxPos in
    Some (mkManifold ManifoldType.Plane p (vscale (-1) (n firstPlane))
                     zero3 [])
  | _, _ => None
  end.

(** Division by [m.n.x()] is the division of [Q]; it differs from the double
    division only when that coordinate is 0. *)
Definition estimateCylinderHeightFromPointCloud (m : Manifold) : Q :=
  let '(min_t, max_t) :=
    fold_left (fun '(min_t, max_t) row =>
      let a := p m in
      let ab := n m in
      let ap := vsub (fst row) a in
      let proj_p := vadd a (vscale (dot ap ab / dot ab ab) ab) in
      let t := (vx proj_p - vx (p m)) / vx (n m) in
      (if Qltb t min_t then t else min_t,
       if Qltb max_t t then t else max_t))
      (pc m) (DBL_MAX, - DBL_MAX) in
  let min_p := vadd (p m) (vscale min_t (n m)) in
  let max_p := vadd (p m) (vscale max_t (n m)) in
  norm (vsub max_p min_p).

(** The point where the line through [l0] with direction [l] meets the plane
    through [p0] with normal [n], as the source computes it. *)
Definition axisHit (l0 l : Vector3d) (plane : Manifold) : Vector3d :=
  let d := dot (vsub (p plane) l0) (n plane) / dot l (n plane) in
  vadd (vscale d l) l0.

(** [createCylinderPrimitive]; the plane list is passed by reference and
    grows by the estimated plane in case 1, which then falls through to
    case 2. *)
Definition createCylinderPrimitive (m : Manifold) (planes : ManifoldSet)
  : M Primitive :=
  let twoPlanes (plane0 plane1 : Manifold) : Primitive :=
    let i0 := axisHit (p m) (n m) plane0 in
    let i1 := axisHit (p m) (n m) plane1 in
    let height := norm (vsub i0 i1) in
    let pos := vadd i0 (vscale (1 # 2) (vsub i1 i0)) in
    let rot := getRotationMatrix (n m) in
    let t := mkAffine rot pos in
    Primitive_new (IFCylinder t (vx (r m)) height) [m; plane0; plane1]
                  PrimitiveType.Cylinder in
  match planes with
  | [plane0] =>
    match estimateSecondCylinderPlaneFromPointCloud m plane0 with
    | Some plane1 => ret (twoPlanes plane0 plane1)
    | None => undefined
    end
  | [plane0; plane1] => ret (twoPlanes plane0 plane1)
  | [] =>
    let height := estimateCylinderHeightFromPointCloud m in
    let pos := p m in
    say "POS: " ;;;
    let rot := getRotationMatrix (n m) in
    let t := mkAffine rot pos in
    ret (Primitive_new (IFCylinder t (vx (r m)) height) [m]
                       PrimitiveType.Cylinder)
  | _ => ret Primitive_None
  end.

End Builders.

(** ** The creator *)

Record PrimitiveSetCreator := mkPrimitiveSetCreator {
  cms : ManifoldSet;
  intraCrossProb : Q;
  mutationDistribution : list Q;
  maxMutationIterations : Z;
  maxCrossoverIterations : Z;
  maxPrimitiveSetSize : Z;
  angleEpsilon : Q;
  minDistanceBetweenParallelPlanes : Q
}.

(** [getAvailableManifoldTypes]: the kinds that occur, each once.  The
    source holds them in an unordered set; its iteration order is taken to be
    the order of first occurrence. *)
Fixpoint distinctTypes (ms : ManifoldSet) (seen : list ManifoldType.t)
  : list ManifoldType.t :=
  match ms with
  | [] => seen
  | m :: rest =>
    if existsb (ManifoldType.eqb (type m)) seen then distinctTypes rest seen
    else distinctTypes rest (seen ++ [type m])
  end.

Definition availableManifoldTypes (c : PrimitiveSetCreator)
  : list ManifoldType.t := distinctTypes (cms c) [].

(** The constructor seeds the engine from the creator's std::random_device. *)
Definition PrimitiveSetCreator_engine {E : RandomEngine} (rndDevice : N)
  : EngineState := engine_seed rndDevice.

(** [v[i] = a] on a std::vector. *)
Fixpoint assign_nat {A} (v : list A) (i : nat) (a : A) : option (list A) :=
  match v, i with
  | [], _ => None
  | _ :: v', O => Some (a :: v')
  | x :: v', S i' => option_map (cons x) (assign_nat v' i' a)
  end.

Definition assign {E : RandomEngine} {A} (v : list A) (i : Z) (a : A)
  : M (list A) :=
  if (i <? 0)%Z then undefined
  else match assign_nat v (Z.to_nat i) a with
       | Some v' => ret v'
       | None => undefined
       end.

(** The copy loop of the crossover: positions j .. min(|dst|, |src|) - 1 of
    [dst] take the entries of [src]. *)
Fixpoint overwriteFrom {A} (j : nat) (dst src : list A) : list A :=
  match dst, src with
  | d :: dst', s :: src' =>
    match j with
    | O => s :: overwriteFrom 0 dst' src'
    | S j' => d :: overwriteFrom j' dst' src'
    end
  | _, _ => dst
  end.

Section Creator.
Context {E : RandomEngine} {K : Kernel}.
Variable c : PrimitiveSetCreator.

Definition getRandomPrimitiveIdx (ps : PrimitiveSet) : M Z :=
  uniform_int 0 (Z.of_nat (List.length ps) - 1).

Definition usedAlready (m : Manifold) (alreadyUsed : ManifoldSet) : bool :=
  existsb (fun alreadyUsedM => manifoldsEqual m alreadyUsedM (1 # 10000))
          alreadyUsed.

(** The filter of [getManifold]. *)
Definition manifoldCandidate (ty : ManifoldType.t) (direction : Vector3d)
  (alreadyUsed : ManifoldSet) (cos_e : Q) (ignoreDirection : bool)
  (point : Vector3d) (minimumPointDistance : Q) (m : Manifold) : bool :=
  ManifoldType.eqb (type m) ty &&
  negb (usedAlready m alreadyUsed) &&
  (ignoreDirection || Qltb cos_e (Qabs (dot direction (n m)))) &&
  Qltb minimumPointDistance (Qabs (dot (vsub point (p m)) (n m))).

(** A null result is [None]; no value is drawn when nothing qualifies. *)
Definition pickCandidate (candidates : ManifoldSet) : M (option Manifold) :=
  match candidates with
  | [] => ret None
  | _ =>
    i <- uniform_int 0 (Z.of_nat (List.length candidates) - 1) ;;
    m <- index candidates i ;;
    ret (Some m)
  end.

Definition getManifold (ty : ManifoldType.t) (direction : Vector3d)
  (alreadyUsed : ManifoldSet) (angleEpsilon : Q) (ignoreDirection : bool)
  (point : Vector3d) (minimumPointDistance : Q) : M (option Manifold) :=
  let cos_e := cos angleEpsilon in
  pickCandidate
    (filter (manifoldCandidate ty direction alreadyUsed cos_e ignoreDirection
                               point minimumPointDistance) (cms c)).

Definition perpendicularCandidate (planes alreadyUsed : ManifoldSet)
  (cos_e : Q) (m : Manifold) : bool :=
  if negb (ManifoldType.eqb (type m) ManifoldType.Plane) then false
  else if usedAlready m alreadyUsed then false
  else forallb (fun plane => Qltb (Qabs (dot (n plane) (n m))) cos_e) planes.

Definition getPerpendicularPlane (planes alreadyUsed : ManifoldSet)
  (angleEpsilon : Q) : M (option Manifold) :=
  let cos_e := cos angleEpsilon in
  pickCandidate (filter (perpendicularCandidate planes alreadyUsed cos_e)
                        (cms c)).

Definition getParallelPlane (plane : Manifold) (alreadyUsed : ManifoldSet)
  (angleEpsilon minDistanceToParallelPlane : Q) : M (option Manifold) :=
  getManifold ManifoldType.Plane (n plane) alreadyUsed angleEpsilon false
              (p plane) minDistanceToParallelPlane.

Definition getRandomPrimitiveType : M PrimitiveType.t :=
  k <- uniform_int 0 (Z.of_nat (List.length (availableManifoldTypes c)) - 1) ;;
  ty <- index (availableManifoldTypes c) k ;;
  ret match ty with
      | ManifoldType.Plane => PrimitiveType.Box
      | ManifoldType.Cylinder => PrimitiveType.Cylinder
      | _ => PrimitiveType.None
      end.

(** Up to [k] cap planes close to the direction of the axis. *)
Fixpoint selectCaps (k : nat) (cyl : Manifold) (angleEpsilon : Q)
  (planes : ManifoldSet) : M ManifoldSet :=
  match k with
  | O => ret planes
  | S k' =>
    m <- getManifold ManifoldType.Plane (n cyl) planes angleEpsilon
                     default_ignoreDirection default_point
                     default_minimumPointDistance ;;
    match m with
    | Some m => selectCaps k' cyl angleEpsilon (planes ++ [m])
    | None => selectCaps k' cyl angleEpsilon planes
    end
  end.

(** The box case of [createPrimitive]; each [break] leaves None. *)
Definition createBoxCase : M Primitive :=
  let anyDirection := zero3 in
  let eps := angleEpsilon c in
  let dist := minDistanceBetweenParallelPlanes c in
  plane <- getManifold ManifoldType.Plane anyDirection [] 0 true
                       default_point default_minimumPointDistance ;;
  match plane with None => ret Primitive_None | Some plane =>
  let planes := [plane] in
  plane <- getParallelPlane plane planes eps dist ;;
  match plane with None => ret Primitive_None | Some plane =>
  let planes := planes ++ [plane] in
  plane <- getPerpendicularPlane planes planes eps ;;
  match plane with None => ret Primitive_None | Some plane =>
  let planes := planes ++ [plane] in
  plane <- getParallelPlane plane planes eps dist ;;
  match plane with None => ret Primitive_None | Some plane =>
  let planes := planes ++ [plane] in
  plane <- getPerpendicularPlane planes planes eps ;;
  match plane with None => ret Primitive_None | Some plane =>
  let planes := planes ++ [plane] in
  plane <- getParallelPlane plane planes eps dist ;;
  match plane with None => ret Primitive_None | Some plane =>
  let planes := planes ++ [plane] in
  ret (createBoxPrimitive planes)
  end end end end end end.

Definition createPrimitive : M Primitive :=
  let anyDirection := zero3 in
  primitiveType <- getRandomPrimitiveType ;;
  primitive <-
    match primitiveType with
    | PrimitiveType.Box => createBoxCase
    | PrimitiveType.Cylinder =>
      cyl <- getManifold ManifoldType.Cylinder anyDirection [] 0 true
                         default_point default_minimumPointDistance ;;
      match cyl with
      | Some cyl =>
        numPlanesToSelect <- uniform_int 0 2 ;;
        planes <- selectCaps (Z.to_nat numPlanesToSelect) cyl (angleEpsilon c) [] ;;
        createCylinderPrimitive cyl planes
      | None => ret Primitive_None
      end
    | PrimitiveType.Sphere =>
      sphere <- getManifold ManifoldType.Sphere anyDirection [] 0 true
                            default_point default_minimumPointDistance ;;
      match sphere with
      | Some sphere => ret (createSpherePrimitive (Some sphere))
      | None => ret Primitive_None
      end
    | PrimitiveType.None => ret Primitive_None
    end ;;
  cut <- bernoulli (1 # 2) ;;
  ret (set_cutout cut primitive).

Definition mutatePrimitive (p : Primitive) (angleEpsilon : Q) : M Primitive :=
  primitive <-
    match ptype p with
    | PrimitiveType.Box =>
      k <- uniform_int 0 2 ;;
      let planePairIdx := (k * 2)%Z in
      plane <- index (ms p) planePairIdx ;;
      newPlane <- getParallelPlane plane (ms p) angleEpsilon
                                   (minDistanceBetweenParallelPlanes c) ;;
      match newPlane with
      | Some newPlane =>
        newPlanes <- assign (ms p) (planePairIdx + 1) newPlane ;;
        ret (createBoxPrimitive newPlanes)
      | None => ret p
      end
    | PrimitiveType.Cylinder =>
      numPlanesToSelect <- uniform_int 0 2 ;;
      cyl <- index (ms p) 0 ;;
      planes <- selectCaps (Z.to_nat numPlanesToSelect) cyl angleEpsilon [] ;;
      createCylinderPrimitive cyl planes
    | _ => ret p
    end ;;
  cut <- bernoulli (1 # 2) ;;
  ret (set_cutout cut primitive).

(** The filling loop of [create]; it runs until the set has [setSize]
    members, which [fuel] bounds. *)
Fixpoint fillSet (fuel : nat) (setSize : Z) (ps : PrimitiveSet)
  : M PrimitiveSet :=
  if (Z.of_nat (List.length ps) <? setSize)%Z then
    match fuel with
    | O => outOfFuel
    | S fuel' =>
      p <- createPrimitive ;;
      if negb (isNone p) then fillSet fuel' setSize (ps ++ [p])
      else fillSet fuel' setSize ps
    end
  else ret ps.

Definition create (fuel : nat) : M PrimitiveSet :=
  setSize <- uniform_int 1 (maxPrimitiveSetSize c) ;;
  fillSet fuel setSize [].

(** One turn of the mutation loop for the kind [mt]. *)
Definition mutateStep (mt : Z) (newPS : PrimitiveSet) : M PrimitiveSet :=
  if (mt =? MutationType.REPLACE)%Z then
    say "Mutation Replace" ;;;
    idx <- getRandomPrimitiveIdx newPS ;;
    if negb (idx =? -1)%Z then
      newP <- createPrimitive ;;
      old <- index newPS idx ;;
      assign newPS idx (if isNone newP then old else newP)
    else ret newPS
  else if (mt =? MutationType.MODIFY)%Z then
    say "Mutation Modify" ;;;
    idx <- getRandomPrimitiveIdx newPS ;;
    old <- index newPS idx ;;
    newP <- mutatePrimitive old (angleEpsilon c) ;;
    assign newPS idx (if isNone newP then old else newP)
  else if (mt =? MutationType.REMOVE)%Z then
    say "Mutation Remove" ;;;
    ret newPS
  else if (mt =? MutationType.ADD)%Z then
    say "Mutation Add" ;;;
    newP <- createPrimitive ;;
    if negb (isNone newP) then ret (newPS ++ [newP]) else ret newPS
  else
    say "Warning: Unknown mutation type." ;;;
    ret newPS.

(** The loop [for (i = 0; i < du(1, maxMutationIterations); ++i)]: the bound
    is drawn anew before every turn. *)
Fixpoint mutateLoop (fuel : nat) (mt : Z) (i : Z) (newPS : PrimitiveSet)
  : M PrimitiveSet :=
  match fuel with
  | O => outOfFuel
  | S fuel' =>
    bound <- uniform_int 1 (maxMutationIterations c) ;;
    if (i <? bound)%Z then
      newPS' <- mutateStep mt newPS ;;
      mutateLoop fuel' mt (i + 1) newPS'
    else ret newPS
  end.

(** [mutate]; [fuel] bounds the filling loop of [create], the mutation loop
    ends by itself after at most [maxMutationIterations] turns. *)
Definition mutate (fuel : nat) (ps : PrimitiveSet) : M PrimitiveSet :=
  mt <- discrete (mutationDistribution c) ;;
  if (mt =? MutationType.NEW)%Z || Nat.eqb (List.length ps) 0 then
    say "Mutation New" ;;;
    create fuel
  else
    let newPS := ps in
    mutateLoop (S (Z.to_nat (maxMutationIterations c))) mt 0 newPS.

Fixpoint crossoverLoop (fuel : nat) (ps1 ps2 : PrimitiveSet) (i : Z)
  (newPS1 newPS2 : PrimitiveSet) : M (list PrimitiveSet) :=
  match fuel with
  | O => outOfFuel
  | S fuel' =>
    bound <- uniform_int 1 (maxCrossoverIterations c) ;;
    if (i <? bound)%Z then
      intra <- bernoulli (intraCrossProb c) ;;
      if intra then crossoverLoop fuel' ps1 ps2 (i + 1) newPS1 newPS2
      else if negb (Nat.eqb (List.length ps1) 0)
              && negb (Nat.eqb (List.length ps2) 0) then
        idx1 <- getRandomPrimitiveIdx ps1 ;;
        idx2 <- getRandomPrimitiveIdx ps2 ;;
        if negb (idx1 =? -1)%Z && negb (idx2 =? -1)%Z then
          crossoverLoop fuel' ps1 ps2 (i + 1)
                        (overwriteFrom (Z.to_nat idx2) newPS1 ps2)
                        (overwriteFrom (Z.to_nat idx1) newPS2 ps1)
        else crossoverLoop fuel' ps1 ps2 (i + 1) newPS1 newPS2
      else crossoverLoop fuel' ps1 ps2 (i + 1) newPS1 newPS2
    else ret [newPS1; newPS2]
  end.

Definition crossover (ps1 ps2 : PrimitiveSet) : M (list PrimitiveSet) :=
  say "Crossover" ;;;
  crossoverLoop (S (Z.to_nat (maxCrossoverIterations c))) ps1 ps2 0 ps1 ps2.

End Creator.

(** ** The static distribution of [mutate]

    The distribution [dd] of [mutate] is a function-local static.  It is
    built once in a process, from the weights of the creator that calls
    [mutate] first, and serves every creator of the process from then on.
    [mutate] above is the call that finds [dd] built from the weights of its
    own creator: the first call of a process, and every call of a process
    whose creators share their weights, as those that
    [extractPrimitivesWithGA] builds do. *)

(** The weights that [dd] holds; [None] before the first call. *)
Definition MutateStatic : Type := option (list Q).

Definition set_mutationDistribution (weights : list Q)
  (c : PrimitiveSetCreator) : PrimitiveSetCreator :=
  mkPrimitiveSetCreator (cms c) (intraCrossProb c) weights
    (maxMutationIterations c) (maxCrossoverIterations c)
    (maxPrimitiveSetSize c) (angleEpsilon c)
    (minDistanceBetweenParallelPlanes c).

(** The weights [dd] has once the call of [mutate] on [c] has passed its
    declaration. *)
Definition staticWeights (dd : MutateStatic) (c : PrimitiveSetCreator)
  : list Q :=
  match dd with
  | Some weights => weights
  | None => mutationDistribution c
  end.

(** [mutate] in a process whose static is [dd]: the call, and the static it
    leaves behind. *)
Definition mutate_in_process {E : RandomEngine} {K : Kernel}
  (dd : MutateStatic) (c : PrimitiveSetCreator) (fuel : nat)
  (ps : PrimitiveSet) : M PrimitiveSet * MutateStatic :=
  (mutate (set_mutationDistribution (staticWeights dd c) c) fuel ps,
   Some (staticWeights dd c)).

(** ** The ranker *)

Record PrimitiveSetRanker := mkPrimitiveSetRanker {
  rpc : PointCloud;
  rms : ManifoldSet;
  staticPrimitives : PrimitiveSet;
  distanceEpsilon : Q;
  rmaxPrimitiveSetSize : Z
}.

(** The members the ranker updates although [rank2] is const. *)
Record RankerBest := mkRankerBest {
  bestRank : Q;
  bestPrimitives : PrimitiveSet
}.

Definition PrimitiveSetRanker_best0 : RankerBest :=
  mkRankerBest (- DBL_MAX) [].

Section Ranker.
Context {K : Kernel}.

(** The inner loop of the geometry score: the distance to the closest
    primitive and the normalised gradient there.  [min_normal] is not
    initialised before the first update ([None]). *)
Definition closest (ps : PrimitiveSet) (point : Vector3d)
  : Q * option Vector3d :=
  fold_left (fun '(min_d, min_normal) p =>
               let dg := signedDistanceAndGradient (imFunc p) point in
               let d := Qabs (fst dg) in
               let g := snd dg in
               if Qltb d min_d then (d, Some (normalized g))
               else (min_d, min_normal))
            ps (DBL_MAX, None).

(** The test of one point.  The second operand of && is read only when the
    first holds, and then [min_normal] has been set. *)
Definition pointValid (ps : PrimitiveSet) (row : Vector3d * Vector3d) : bool :=
  let delta := 1 # 10000 in
  let point := fst row in
  let n := snd row in
  let '(min_d, min_normal) := closest ps point in
  Qltb min_d delta &&
  match min_normal with
  | Some min_normal => Qltb (9 # 10) (dot n min_normal)
  | None => false
  end.

(** The counters [validPoints] and [checkedPoints] after the loop. *)
Definition geometryCounts (ps : PrimitiveSet) (pc : PointCloud) : Z * Z :=
  fold_left (fun '(validPoints, checkedPoints) row =>
               ((if pointValid ps row then validPoints + 1 else validPoints)%Z,
                (checkedPoints + 1)%Z))
            pc (0%Z, 0%Z).

(** [rank2]: the area part is the collaborator [areaSums]; the console
    output is left out.  The quotients are those of [Q], in which a zero
    divisor gives 0 where the doubles give an infinity or NaN. *)
Definition rank2 (rk : PrimitiveSetRanker) (ps : PrimitiveSet)
  (ignoreStaticPrimitives : bool) (best : RankerBest) : Q * RankerBest :=
  match ps with
  | [] => (- DBL_MAX, best)
  | _ =>
    let '(summed_point_area, summed_area) := areaSums ps in
    let '(validPoints, checkedPoints) := geometryCounts ps (rpc rk) in
    let s := 0 in
    let size_score :=
      inject_Z (Z.of_nat (List.length ps)) / inject_Z (rmaxPrimitiveSetSize rk) in
    let g := 1 in
    let geo_score := inject_Z validPoints / inject_Z checkedPoints in
    let a := 1 in
    let area_score := summed_point_area / summed_area in
    let r := a * area_score + g * geo_score - s * size_score in
    if Qltb (bestRank best) r then (r, mkRankerBest r ps) else (r, best)
  end.

(** [rank] forwards to [rank2]. *)
Definition rank (rk : PrimitiveSetRanker) (ps : PrimitiveSet)
  (ignoreStaticPrimitives : bool) (best : RankerBest) : Q * RankerBest :=
  rank2 rk ps ignoreStaticPrimitives best.

End Ranker.

(** ** The geometry score as the specification words it *)

Section SpecGeometryScore.
Context {K : Kernel}.

(** The primitives the specification minimises over: the ranked set with the
    static primitives appended unless they are ignored. *)
Definition spec_candidates (rk : PrimitiveSetRanker) (ps : PrimitiveSet)
  (ignoreStaticPrimitives : bool) : PrimitiveSet :=
  if ignoreStaticPrimitives then ps else ps ++ staticPrimitives rk.

(** A point is valid iff d < distance_epsilon and nu . g > 0.9, with d the
    minimum of |sd_P(x)| and g the normalised gradient of the argmin. *)
Definition spec_pointValid (rk : PrimitiveSetRanker) (ps : PrimitiveSet)
  (ignoreStaticPrimitives : bool) (row : Vector3d * Vector3d) : bool :=
  let '(d, g) := closest (spec_candidates rk ps ignoreStaticPrimitives)
                         (fst row) in
  Qltb d (distanceEpsilon rk) &&
  match g with
  | Some g => Qltb (9 # 10) (dot (snd row) g)
  | None => false
  end.

End SpecGeometryScore.

(** ** A rational kernel for worked examples *)

(** Modelled from the spec: the geometry kernel of section 4.1 for polytopes
    (the largest plane distance, with the normal of that plane as gradient)
    over rationals.  Square roots are those of rational squares, rounded
    down to 2^-52 otherwise; the cosine is its Taylor polynomial of degree 6
    (exact to 10^-6 below half a radian).  Handles other than polytopes have
    no surface here (distance DBL_MAX); no polytope is empty; manifolds are
    equal when their points and normals are; the area sums are 0 of 1. *)
Definition Qsqrt (q : Q) : Q :=
  let q' := Qred q in
  Z.sqrt (Qnum q' * Z.pos (Qden q') * 4 ^ 52) # (Qden q' * 2 ^ 52).

Definition example_norm (v : Vector3d) : Q := Qred (Qsqrt (dot v v)).

Definition example_normalized (v : Vector3d) : Vector3d :=
  let l := example_norm v in
  if Qeq_bool l 0 then v
  else vec (Qred (vx v / l)) (Qred (vy v / l)) (Qred (vz v / l)).

Definition example_cos (a : Q) : Q :=
  Qred (1 - a * a / 2 + a * a * a * a / 24 - a * a * a * a * a * a / 720).

Fixpoint polytope_sdg (ps ns : list Vector3d) (x : Vector3d)
  (acc : Q * Vector3d) : Q * Vector3d :=
  match ps, ns with
  | p :: ps', n :: ns' =>
    let d := dot n (vsub x p) in
    polytope_sdg ps' ns' x (if Qltb (fst acc) d then (d, n) else acc)
  | _, _ => acc
  end.

Definition example_sdg (f : ImplicitFunction) (x : Vector3d) : Q * Vector3d :=
  match f with
  | IFPolytope _ (p :: ps) (n :: ns) =>
    let '(d, g) := polytope_sdg ps ns x (dot n (vsub x p), n) in
    (Qred d, g)
  | _ => (DBL_MAX, zero3)
  end.

Definition veqb (a b : Vector3d) : bool :=
  Qeq_bool (vx a) (vx b) && Qeq_bool (vy a) (vy b) && Qeq_bool (vz a) (vz b).

Definition example_kernel : Kernel := {|
  norm := example_norm;
  normalized := example_normalized;
  cos := example_cos;
  signedDistanceAndGradient := example_sdg;
  IFPolytope_empty := fun _ _ => false;
  getRotationMatrix := fun _ => Identity3;
  manifoldsEqual := fun a b _ => veqb (p a) (p b) && veqb (n a) (n b);
  areaSums := fun _ => (0, 1);
  default_ignoreDirection := false;
  default_point := zero3;
  default_minimumPointDistance := 0
|}.

End PSS.

(* ================================================================== *)
(** * The pipeline driver (optimizer_pipeline_runner.cpp) *)
(* ================================================================== *)

Module Pipeline.
Import Random.
Import CSG.

Open Scope string_scope.

(** A call either returns or throws a std::exception with a message. *)
Inductive Except (A : Type) :=
| Returned (a : A)
| Threw (what : string).
Arguments Threw {A}.

(** Computations of the driver: they extend the list of events and return
    or throw. *)
Definition P (A : Type) := list Event -> Except A * list Event.

Definition pret {A} (a : A) : P A := fun tr => (Returned a, tr).

Definition pbind {A B} (m : P A) (k : A -> P B) : P B :=
  fun tr => match m tr with
            | (Returned a, tr') => k a tr'
            | (Threw what, tr') => (Threw what, tr')
            end.

Definition throw {A} (what : string) : P A := fun tr => (Threw what, tr).

(** try { m } catch (const std::exception& ex) { handler ex.what() } *)
Definition try_catch {A} (m : P A) (handler : string -> P A) : P A :=
  fun tr => match m tr with
            | (Returned a, tr') => (Returned a, tr')
            | (Threw what, tr') => handler what tr'
            end.

Definition cout (s : string) : P unit :=
  fun tr => (Returned tt, (tr ++ [Print s])%list).

(** A call of the collaborator [what], whose outcome is [r]. *)
Definition call {A} (what : string) (r : Except A) : P A :=
  fun tr => (r, (tr ++ [Call what])%list).

Notation "x <- m ;; k" := (pbind m (fun x => k))
  (at level 61, m at next level, right associativity).
Notation "m ;;; k" := (pbind m (fun _ => k))
  (at level 61, right associativity).

Record PipelineParams := mkPipelineParams {
  optimizer : string;
  tree_file : string;
  sampling_grid_size : Q;
  save_meshes : bool;
  use_decomposition : bool;
  use_redundancy_removal : bool;
  use_cit_points_for_decomposition : bool;
  use_cit_points_for_redundancy_removal : bool
}.

(** The collaborators of the driver, none of which is among the sources:
    the parameter file, the tree reader and writer, the mesher, the
    redundancy remover, the decomposition, the sampling of points, and the
    four optimisers.  Each takes the arguments it is given in the source and
    returns or throws.  The decomposition receives the optimiser as a
    callback.  The configuration records of the optimisers are opaque. *)
Class Collaborators := {
  ParameterSet : Type;
  PointCloud : Type;
  empty_pc : PointCloud;
  PrimitiveCluster : Type;
  no_primitives : PrimitiveCluster;
  OptimizerGAParams : Type;
  SamplingParams : Type;
  getStr : ParameterSet -> string -> string -> string -> string;
  getDouble : ParameterSet -> string -> string -> Q -> Q;
  getBool : ParameterSet -> string -> string -> bool -> bool;
  fromJSONFile : string -> Except CSGNode;
  to_binary_tree : CSGNode -> Except CSGNode;
  save_as_obj_mesh : CSGNode -> string -> Except unit;
  writeNode : CSGNode -> string -> Except unit;
  allDistinctFunctions : CSGNode -> Except (list ImplicitFunction);
  filter_name_duplicates : CSGNode -> Except CSGNode;
  compute_local_proximity_score : CSGNode -> Q -> PointCloud -> Except Q;
  remove_redundancies : CSGNode -> Q -> PointCloud -> Except CSGNode;
  generate_in_out_points : CSGNode -> PrimitiveCluster -> Q -> Except PointCloud;
  optimize_with_decomposition :
    CSGNode -> Q -> bool -> PointCloud -> bool ->
    (CSGNode -> PrimitiveCluster -> P CSGNode) -> P CSGNode;
  read_opt_ga_params : ParameterSet -> OptimizerGAParams;
  read_opt_sampling_params : ParameterSet -> SamplingParams;
  optimize_with_ga :
    CSGNode -> OptimizerGAParams -> PrimitiveCluster -> Except CSGNode;
  optimize_pi_set_cover :
    CSGNode -> SamplingParams -> PrimitiveCluster -> Except CSGNode;
  optimize_with_python : CSGNode -> string -> SamplingParams -> Except CSGNode;
  transform_to_diffs : CSGNode -> Except CSGNode
}.

Definition opNo : CSGNode := Operation Noop EmptyString [].

Definition isOperation (n : CSGNode) : bool :=
  match n with
  | Operation _ _ _ => true
  | Geometry _ => false
  end.

Definition isNoop (op : CSGNodeOperationType) : bool :=
  match op with
  | Noop => true
  | _ => false
  end.

Section Runner.
Context {X : Collaborators}.

Variable output_folder : string.
Variable params : ParameterSet.

Definition read_pipeline_params : PipelineParams :=
  mkPipelineParams
    (getStr params "Pipeline" "Optimizer" "GA")
    (getStr params "Pipeline" "Tree" "tree.json")
    (getDouble params "Pipeline" "SamplingGridSize" (1 # 10))
    (getBool params "Pipeline" "SaveMeshes" false)
    (getBool params "Pipeline" "UseDecomposition" true)
    (getBool params "Pipeline" "UseRedundancyRemoval" true)
    (getBool params "Pipeline" "UseCITPointsForDecomposition" false)
    (getBool params "Pipeline" "UseCITPointsForRedundancyRemoval" false).

(** [sample_if_empty]: the sampling is generated once ([None] is the empty
    sampling); the result is the sampling afterwards. *)
Definition sample_if_empty (n : CSGNode) (primitives : PrimitiveCluster)
  (grid : Q) (cit_sampling : option PointCloud) : P (option PointCloud) :=
  cout "Generate CIT sets..." ;;;
  match cit_sampling with
  | Some s => cout "Already there. Done." ;;; pret (Some s)
  | None =>
    in_out <- call "generate_cits" (generate_in_out_points n primitives grid) ;;
    cout "Done." ;;;
    pret (Some in_out)
  end.

Definition in_out_of (cit_sampling : option PointCloud) : PointCloud :=
  match cit_sampling with
  | Some s => s
  | None => empty_pc
  end.

Definition load (pp : PipelineParams) : P CSGNode :=
  let node := opNo in
  cout ("Load CSG tree from '" ++ tree_file pp ++ "'...") ;;;
  (* the first assignment to node survives a throw of the second call *)
  loaded <-
    try_catch
      (node <- call "fromJSONFile" (fromJSONFile (tree_file pp)) ;;
       try_catch
         (node <- call "to_binary_tree" (to_binary_tree node) ;;
          pret (node, true))
         (fun what =>
            cout ("Cannot load CSG tree from '" ++ tree_file pp
                  ++ "'. Reason: " ++ what) ;;;
            pret (node, false)))
      (fun what =>
         cout ("Cannot load CSG tree from '" ++ tree_file pp
               ++ "'. Reason: " ++ what) ;;;
         pret (node, false)) ;;
  let '(node, ok) := loaded in
  if negb ok then pret node
  else
    cout "Done." ;;;
    (if save_meshes pp then
       cout "Save input mesh..." ;;;
       call "save_as_obj_mesh"
            (save_as_obj_mesh node (output_folder ++ "/input.obj")) ;;;
       cout "Done."
     else pret tt) ;;;
    call "writeNode" (writeNode node (output_folder ++ "/input.gv")) ;;;
    pret node.

Definition optimize (node : CSGNode) (prims : PrimitiveCluster)
  (pp : PipelineParams) : P CSGNode :=
  cout "Optimize..." ;;;
  if String.eqb (optimizer pp) "GA" then
    call "optimize_with_ga"
         (optimize_with_ga node (read_opt_ga_params params) prims)
  else if String.eqb (optimizer pp) "Sampling.SetCover" then
    let sp := read_opt_sampling_params params in
    opt_node <- call "optimize_pi_set_cover"
                     (optimize_pi_set_cover node sp prims) ;;
    b <- call "to_binary_tree" (to_binary_tree opt_node) ;;
    call "transform_to_diffs" (transform_to_diffs b)
  else if String.eqb (optimizer pp) "Sampling.QuineMcCluskey" then
    let sp := read_opt_sampling_params params in
    opt_node <- call "optimize_with_python"
                     (optimize_with_python node "SIMPY_SIMPLIFY_LOGIC" sp) ;;
    b <- call "to_binary_tree" (to_binary_tree opt_node) ;;
    call "transform_to_diffs" (transform_to_diffs b)
  else if String.eqb (optimizer pp) "Sampling.Espresso" then
    let sp := read_opt_sampling_params params in
    opt_node <- call "optimize_with_python"
                     (optimize_with_python node "ESPRESSO" sp) ;;
    b <- call "to_binary_tree" (to_binary_tree opt_node) ;;
    call "transform_to_diffs" (transform_to_diffs b)
  else
    throw ("Optimizer with name '" ++ optimizer pp ++ "' does not exist.").

(** The call of the decomposition, which gets [optimize] as its callback. *)
Definition decompose (pp : PipelineParams) (node : CSGNode)
  (cit_sampling : option PointCloud) : P CSGNode :=
  fun tr =>
    optimize_with_decomposition
      node (sampling_grid_size pp) true (in_out_of cit_sampling)
      (use_cit_points_for_decomposition pp)
      (fun node prims => optimize node prims pp)
      (tr ++ [Call "optimize_with_decomposition"])%list.

Definition remove_redundancies_step (pp : PipelineParams) (node : CSGNode)
  (cit_sampling : option PointCloud) : P (CSGNode * option PointCloud) :=
  if use_redundancy_removal pp then
    cout "Remove Redundancies..." ;;;
    cit_sampling <-
      (if use_cit_points_for_redundancy_removal pp
       then sample_if_empty node no_primitives (sampling_grid_size pp)
                            cit_sampling
       else pret cit_sampling) ;;
    node <- call "remove_redundancies"
                 (remove_redundancies node (sampling_grid_size pp)
                                      (in_out_of cit_sampling)) ;;
    pret (node, cit_sampling)
  else pret (node, cit_sampling).

Definition save_mesh_step (pp : PipelineParams) (node : CSGNode)
  (label file : string) : P unit :=
  if save_meshes pp then
    cout label ;;;
    call "save_as_obj_mesh" (save_as_obj_mesh node (output_folder ++ file)) ;;;
    cout "Done."
  else pret tt.

(** [run]: the exit code; an exception that leaves [run] is [Threw].  The
    lines written to the statistics and timing files are left out, the calls
    that compute them are kept. *)
Definition run : P Z :=
  let pp := read_pipeline_params in
  let cit_sampling : option PointCloud := None in
  node <- load pp ;;
  if isNoop (operationType node) then pret 1%Z
  else
    cout "Before: " ;;;
    call "allDistinctFunctions" (allDistinctFunctions node) ;;;
    node <- call "filter_name_duplicates" (filter_name_duplicates node) ;;
    cout "After: " ;;;
    call "allDistinctFunctions" (allDistinctFunctions node) ;;;
    cout "Create optimizer stat files..." ;;;
    call "compute_local_proximity_score"
         (compute_local_proximity_score node (sampling_grid_size pp) empty_pc) ;;;
    cout "Done." ;;;
    st <- remove_redundancies_step pp node cit_sampling ;;
    let '(node, cit_sampling) := st in
    save_mesh_step pp node "Save after red mesh..." "/after_red.obj" ;;;
    call "writeNode" (writeNode node (output_folder ++ "/after_red.gv")) ;;;
    call "compute_local_proximity_score"
         (compute_local_proximity_score node (sampling_grid_size pp) empty_pc) ;;;
    cout "Done." ;;;
    optimized <-
      try_catch
        (res <-
           (if use_decomposition pp then
              cout "Decompose..." ;;;
              cit_sampling <-
                (if use_cit_points_for_decomposition pp
                 then sample_if_empty node no_primitives
                                      (sampling_grid_size pp) cit_sampling
                 else pret cit_sampling) ;;
              node <- decompose pp node cit_sampling ;;
              pret (node, cit_sampling)
            else
              node <- optimize node no_primitives pp ;;
              pret (node, cit_sampling)) ;;
         call "compute_local_proximity_score"
              (compute_local_proximity_score (fst res) (sampling_grid_size pp)
                                             empty_pc) ;;;
         pret (Some res))
        (fun what =>
           cout ("Decomposition / Optimization failed. Reason: " ++ what) ;;;
           pret None) ;;
    match optimized with
    | None => pret 1%Z
    | Some (node, cit_sampling) =>
      cout "Done." ;;;
      if isOperation node && isNoop (operationType node) then
        cout "Something went wrong. Node is NoOp." ;;;
        pret 1%Z
      else
        st <- remove_redundancies_step pp node cit_sampling ;;
        let '(node, cit_sampling) := st in
        call "writeNode" (writeNode node (output_folder ++ "/output.gv")) ;;;
        save_mesh_step pp node "Save output mesh..." "/output.obj" ;;;
        pret 0%Z
    end.

End Runner.

End Pipeline.

(* ================================================================== *)
(** * Worked inputs *)
(* ================================================================== *)

Module Examples.
Import Random.

Module CSGEx.
Import CSG.
Open Scope string_scope.

Definition fA : ImplicitFunction := mkFunction "A" 100.
Definition fB : ImplicitFunction := mkFunction "B" 100.

(** A creator that never creates anew and never grows subtrees, with depth
    limit 1. *)
Definition shallowCreator : CSGNodeCreator := mkCSGNodeCreator [fA; fB] 0 0 1.

(** The defaults of the constructor with depth limit 3. *)
Definition defaultCreator : CSGNodeCreator :=
  mkCSGNodeCreator [fA; fB] (5 # 10) (7 # 10) 3.

Definition unionAB : CSGNode := Operation Union "" [Geometry fA; Geometry fB].
Definition interAB : CSGNode :=
  Operation Intersection "" [Geometry fA; Geometry fB].

(** A tree of depth 2. *)
Definition deepTree : CSGNode := Operation Union "" [unionAB; Geometry fB].

Definition scriptedWorld (script : list N) : World (E := scripted) :=
  mkWorld (E := scripted) script [].

Definition seededWorld (rndDevice : N) : World (E := minstd_rand0) :=
  mkWorld (E := minstd_rand0)
          (CSGNodeCreator_engine (E := minstd_rand0) rndDevice) [].

(** A scorer that prefers intersections, then unions, and the collaborators
    around it; the engine of evolution.h returns no population here. *)
Definition exampleScore (n : CSGNode) : Q :=
  match n with
  | Operation Intersection _ _ => 9 # 10
  | Operation Union _ _ => 8 # 10
  | _ => 1 # 10
  end.

Definition exampleCollaborators : Collaborators := {|
  computeGeometryScore := fun n _ _ _ => exampleScore n;
  log := fun _ => 0;
  GeneticAlgorithm_run := fun _ _ _ => []
|}.

(** Two functions with one point between them, so that lambda is ln 1 = 0,
    and a scorer that gives every tree the lowest finite double. *)
Definition fP : ImplicitFunction := mkFunction "P" 1.
Definition fQ : ImplicitFunction := mkFunction "Q" 0.

Definition lowestScoreCollaborators : Collaborators := {|
  computeGeometryScore := fun _ _ _ _ => - DBL_MAX;
  log := fun _ => 0;
  GeneticAlgorithm_run := fun _ _ _ => []
|}.

End CSGEx.

Module PSSEx.
Import PSS.
Open Scope Q_scope.

Definition scriptedWorld (script : list N) : World (E := scripted) :=
  mkWorld (E := scripted) script [].

(** A cylinder of radius 1 about the z axis with two points on it, and two
    planes that both lie within 16.3 degrees of its axis direction but are
    tilted against each other by 32.5 degrees. *)
Definition cylinderM : Manifold :=
  mkManifold ManifoldType.Cylinder (vec 0 0 (1 # 2)) (vec 0 0 1) (vec 1 0 0)
             [(vec 1 0 0, vec 1 0 0); (vec 1 0 1, vec 1 0 0)].

Definition capUp : Manifold :=
  mkManifold ManifoldType.Plane (vec 0 0 1) (vec (7 # 25) 0 (24 # 25)) zero3 [].

Definition capDown : Manifold :=
  mkManifold ManifoldType.Plane (vec 0 0 (-1)) (vec (- 7 # 25) 0 (24 # 25))
             zero3 [].

(** The creator of [extractPrimitivesWithGA] over these manifolds, with the
    angle epsilon 0.349 (close to pi/9) and at most 2 primitives per set. *)
Definition capCreator : PrimitiveSetCreator :=
  mkPrimitiveSetCreator [cylinderM; capUp; capDown] 0
    [4 # 10; 15 # 100; 15 # 100; 15 # 100; 15 # 100] 1 1 2 (349 # 1000)
    (1 # 1000).

(** The creator of [extractPrimitivesWithGA] with all mutation weight on
    NEW. *)
Definition newOnlyCreator : PrimitiveSetCreator :=
  mkPrimitiveSetCreator [cylinderM; capUp; capDown] 0 [1; 0; 0; 0; 0] 1 1 2
    (349 # 1000) (1 # 1000).

(** The world of a creator whose random device has yielded [rndDevice]. *)
Definition seededWorld (rndDevice : N) : World (E := minstd_rand0) :=
  mkWorld (E := minstd_rand0)
          (PrimitiveSetCreator_engine (E := minstd_rand0) rndDevice) [].

Definition sphereM : Manifold :=
  mkManifold ManifoldType.Sphere zero3 zero3 (vec 1 0 0) [].

Definition spherePrimitive : Primitive := createSpherePrimitive (Some sphereM).

Definition planeAt (point normal : Vector3d) : Manifold :=
  mkManifold ManifoldType.Plane point normal zero3 [].

(** The six planes of the cube [x0, x0+1] x [0,1] x [0,1], all normals along
    the positive axes. *)
Definition cubePlanes (x0 : Q) : ManifoldSet :=
  [ planeAt (vec x0 0 0) (vec 1 0 0); planeAt (vec (x0 + 1) 0 0) (vec 1 0 0);
    planeAt (vec x0 0 0) (vec 0 1 0); planeAt (vec x0 1 0) (vec 0 1 0);
    planeAt (vec x0 0 0) (vec 0 0 1); planeAt (vec x0 0 1) (vec 0 0 1) ].

(** The six planes of the unit cube with the planes of every pair facing
    each other: the normals of the planes through the origin lead along the
    positive axes, those of the opposite planes along the negative axes. *)
Definition facingCubePlanes : ManifoldSet :=
  [ planeAt (vec 0 0 0) (vec 1 0 0); planeAt (vec 1 0 0) (vec (-1) 0 0);
    planeAt (vec 0 0 0) (vec 0 1 0); planeAt (vec 0 1 0) (vec 0 (-1) 0);
    planeAt (vec 0 0 0) (vec 0 0 1); planeAt (vec 0 0 1) (vec 0 0 (-1)) ].

Definition unitBox : Primitive :=
  createBoxPrimitive (K := example_kernel) (cubePlanes 0).

Definition farBox : Primitive :=
  createBoxPrimitive (K := example_kernel) (cubePlanes 10).

(** A ranker as [extractPrimitivesWithGA] builds it: distance epsilon 0.2
    and at most 50 primitives per set. *)
Definition rankerOver (pc : PointCloud) (statics : PrimitiveSet)
  : PrimitiveSetRanker := mkPrimitiveSetRanker pc [] statics (2 # 10) 50.

(** A point 0.1 above the top face of the unit cube, and a point on it. *)
Definition pointAbove : Vector3d * Vector3d :=
  (vec (1 # 2) (1 # 2) (11 # 10), vec 0 0 1).

Definition pointOnTop : Vector3d * Vector3d :=
  (vec (1 # 2) (1 # 2) 1, vec 0 0 1).

End PSSEx.

Module PipelineEx.
Import CSG Pipeline.
Open Scope string_scope.

(** Collaborators whose tree reader finds no file; the others return their
    input, and the decomposition calls the optimiser once. *)
Definition noFile : Collaborators := {|
  ParameterSet := unit;
  PointCloud := unit;
  empty_pc := tt;
  PrimitiveCluster := unit;
  no_primitives := tt;
  OptimizerGAParams := unit;
  SamplingParams := unit;
  getStr := fun _ _ _ default => default;
  getDouble := fun _ _ _ default => default;
  getBool := fun _ _ _ default => default;
  fromJSONFile := fun _ => Threw "cannot open file";
  to_binary_tree := fun n => Returned n;
  save_as_obj_mesh := fun _ _ => Returned tt;
  writeNode := fun _ _ => Returned tt;
  allDistinctFunctions := fun _ => Returned [];
  filter_name_duplicates := fun n => Returned n;
  compute_local_proximity_score := fun _ _ _ => Returned 0%Q;
  remove_redundancies := fun n _ _ => Returned n;
  generate_in_out_points := fun _ _ _ => Returned tt;
  optimize_with_decomposition := fun n _ _ _ _ optimize => optimize n tt;
  read_opt_ga_params := fun _ => tt;
  read_opt_sampling_params := fun _ => tt;
  optimize_with_ga := fun n _ _ => Returned n;
  optimize_pi_set_cover := fun n _ _ => Returned n;
  optimize_with_python := fun n _ _ => Returned n;
  transform_to_diffs := fun n => Returned n
|}.

End PipelineEx.

End Examples.

(* ================================================================== *)
(** * Notions used in the statements *)
(* ================================================================== *)

Section TraceNotions.
Import Random.
Context {E : RandomEngine}.

(** Whenever [m] returns, the events it added are all [allowed]. *)
Definition emitsOnly (allowed : Event -> Prop) {A} (m : M A) : Prop :=
  forall w a w', m w = Ok a w' ->
    exists l, events w' = events w ++ l /\ Forall allowed l.

(** A world reached by console output only. *)
Definition printsOnly (w w' : World) : Prop :=
  rndEngine w' = rndEngine w
  /\ exists lines, events w' = events w ++ map Print lines.

(** The first raw value that an engine in the state [s] yields. *)
Definition firstDraw (s : EngineState) : N := fst (engine_next s).

End TraceNotions.

Section CSGNotions.
Import Random CSG.
Context {X : Collaborators}.

(** The depth of an operation over the children [cs]. *)
Definition childsDepth (cs : list CSGNode) : nat :=
  fold_right (fun c acc => Nat.max (S (depth c)) acc) 0%nat cs.

(** The value [CSGNodeRanker::rank] returns. *)
Definition rankValue (r : CSGNodeRanker) (node : CSGNode) : Q :=
  computeGeometryScore node (1 # 100) (M_PI / 18) (_rfunctions r)
  - _lambda r * inject_Z (Z.of_nat (numNodes node)).

End CSGNotions.

Section PSSNotions.
Import Random PSS.
Open Scope Q_scope.
Context {E : RandomEngine} {K : Kernel}.

(** The branch of the NEW mutation. *)
Definition newBranch (c : PrimitiveSetCreator) (fuel : nat) : M PrimitiveSet :=
  bind (say "Mutation New") (fun _ => create c fuel).

(** The console output of the builders and of [create]: the line of the
    cylinder builder and nothing else. *)
Definition createLine (e : Event) : Prop := e = Print "POS: ".

(** Mutation weights that are all on NEW, and all on REMOVE. *)
Definition onlyNew : list Q := [1; 0; 0; 0; 0].
Definition onlyRemove : list Q := [0; 0; 0; 1; 0].

(** The parameter at which the line through the point of [a] along its
    normal meets the plane [b]. *)
Definition normalReach (a b : Manifold) : Q :=
  dot (vsub (p b) (p a)) (n b) / dot (n a) (n b).

(** The planes of a pair face each other: each normal, followed from the
    point of its plane, leads to the other plane (the normals point into the
    slab between the two planes). *)
Definition faceEachOther (a b : Manifold) : Prop :=
  0 < normalReach a b /\ 0 < normalReach b a.

(** The planes of a pair face apart: neither normal, followed from the point
    of its plane, leads into the slab towards the other plane (the normals
    are the outward normals of the slab; a plane that passes through the
    point of the other counts as facing apart). *)
Definition faceApart (a b : Manifold) : Prop :=
  normalReach a b <= 0 /\ normalReach b a <= 0.

(** [a'] is [a] with its normal kept or negated. *)
Definition sameUpToFlip (a a' : Manifold) : Prop :=
  type a' = type a /\ p a' = p a /\ r a' = r a /\ pc a' = pc a
  /\ (n a' = n a \/ n a' = vscale (-1) (n a)).

(** [x] lies on the line through [l0] with direction [l]. *)
Definition onLine (l0 l x : Vector3d) : Prop :=
  exists t, veq x (vadd (vscale t l) l0).

(** [x] lies on the plane. *)
Definition onPlane (plane : Manifold) (x : Vector3d) : Prop :=
  dot (vsub x (p plane)) (n plane) == 0.

(** |sd_P(x)| and the normalised gradient of P at x. *)
Definition absDistance (pr : Primitive) (x : Vector3d) : Q :=
  Qabs (fst (signedDistanceAndGradient (imFunc pr) x)).

Definition unitGradient (pr : Primitive) (x : Vector3d) : Vector3d :=
  normalized (snd (signedDistanceAndGradient (imFunc pr) x)).

(** [pr] is the first primitive of [ps] at the least distance from [x]. *)
Definition firstClosest (ps : PrimitiveSet) (x : Vector3d) (pr : Primitive)
  : Prop :=
  exists pre post,
    ps = pre ++ pr :: post
    /\ (forall q, In q pre -> absDistance pr x < absDistance q x)
    /\ (forall q, In q post -> absDistance pr x <= absDistance q x).

Definition closestStep (point : Vector3d) (acc : Q * option Vector3d)
  (pr : Primitive) : Q * option Vector3d :=
  let '(min_d, min_normal) := acc in
  let dg := signedDistanceAndGradient (imFunc pr) point in
  let d := Qabs (fst dg) in
  let g := snd dg in
  if Qltb d min_d then (d, Some (normalized g)) else (min_d, min_normal).

End PSSNotions.

Section PipelineNotions.
Import Random Pipeline.
Open Scope string_scope.

(** The calls that run an optimiser. *)
Definition optimizerCall (e : Event) : Prop :=
  e = Call "optimize_with_ga" \/ e = Call "optimize_pi_set_cover"
  \/ e = Call "optimize_with_python"
  \/ e = Call "optimize_with_decomposition".

(** The events [load] can add. *)
Definition loadEvent (e : Event) : Prop :=
  (exists s, e = Print s) \/ e = Call "fromJSONFile"
  \/ e = Call "to_binary_tree" \/ e = Call "save_as_obj_mesh"
  \/ e = Call "writeNode".

(** [m] adds [allowed] events only, whether it returns or throws. *)
Definition addsOnly (allowed : Event -> Prop) {A} (m : P A) : Prop :=
  forall tr, exists l, snd (m tr) = (tr ++ l)%list /\ Forall allowed l.

End PipelineNotions.

(* ================================================================== *)
(** * Further functions of csgnode_evo.cpp *)
(* ================================================================== *)

Module CSGMore.
Import Random Random.Notations CSG.

(** The children of a node (none for a geometry leaf). *)
Definition childsOf (n : CSGNode) : list CSGNode :=
  match n with
  | Geometry _ => []
  | Operation _ _ cs => cs
  end.

(** [CSGNodeRanker::treeIsInvalid]: the number of children of the root lies
    outside of the allowed range. *)
Definition treeIsInvalid (node : CSGNode) : bool :=
  let numAllowed := numAllowedChilds node in
  (Z.of_nat (List.length (childsOf node)) <? fst numAllowed)%Z
  || (snd numAllowed <? Z.of_nat (List.length (childsOf node)))%Z.

(** Collaborators of the merge of per-clique trees: the serialisation of a
    tree, the search for the largest common subgraph of two serialisations
    (of which the merge reads the size and whether it is empty or invalid),
    and the merge of two trees along it.  None is among the sources. *)
Inductive MergeResult := MergeFirst | MergeSecond | MergeNone.

Record LargestCommonSubgraph := mkLcs { lcsSize : Z; isEmptyOrInvalid : bool }.

Class MergeCollaborators := {
  SerializedNode : Type;
  serializeNode : CSGNode -> SerializedNode;
  findLargestCommonSubgraph :
    SerializedNode -> SerializedNode -> LargestCommonSubgraph;
  mergeNodes : CSGNode -> CSGNode -> LargestCommonSubgraph -> MergeResult
}.

(** The entries of the work list of the merge. *)
Record CSGNodeEntry := mkEntry {
  deleted : bool;
  n1RootIdx : nat;
  n2RootIdx : nat;
  lcs : LargestCommonSubgraph
}.

(** [v.front()] on a std::vector: undefined on an empty one. *)
Definition front {E : RandomEngine} {A} (v : list A) : M A :=
  match v with
  | [] => undefined
  | x :: _ => ret x
  end.

Section Merge.
Context {E : RandomEngine} {X : MergeCollaborators}.

(** The scan over the pairs i < j for the largest common subgraph. *)
Definition bestLcsOf (nodes : list CSGNode) : LargestCommonSubgraph :=
  fold_left
    (fun best ij =>
       if (snd ij <=? fst ij)%nat then best
       else
         match nth_error nodes (fst ij), nth_error nodes (snd ij) with
         | Some n1, Some n2 =>
           let l := findLargestCommonSubgraph (serializeNode n1)
                                              (serializeNode n2) in
           if isEmptyOrInvalid l then best
           else if (lcsSize best <? lcsSize l)%Z then l else best
         | _, _ => best
         end)
    (list_prod (seq 0 (List.length nodes)) (seq 0 (List.length nodes)))
    (mkLcs 0 true).

(** The loop [while (true)] of the merge: it reads the front entry, merges
    the two trees the entry names and starts over; nothing changes the
    entries and nothing leaves the loop.  [fuel] bounds the turns. *)
Fixpoint mergeLoop (fuel : nat) (entries : list CSGNodeEntry)
  (candidateList : list CSGNode) : M CSGNode :=
  match fuel with
  | O => outOfFuel
  | S fuel' =>
    entry <- front entries ;;
    n1 <- index candidateList (Z.of_nat (n1RootIdx entry)) ;;
    n2 <- index candidateList (Z.of_nat (n2RootIdx entry)) ;;
    let res := mergeNodes n1 n2 (lcs entry) in
    mergeLoop fuel' entries candidateList
  end.

(** [mergeCSGNodeClique]: the entries are declared and never filled. *)
Definition mergeCSGNodeClique (fuel : nat) (clique : list (Clique * CSGNode))
  : M CSGNode :=
  let candidateList := map snd clique in
  let bestLcs := bestLcsOf candidateList in
  let entries : list CSGNodeEntry := [] in
  mergeLoop fuel entries candidateList.

End Merge.

End CSGMore.

(* ================================================================== *)
(** * Further notions used in the statements *)
(* ================================================================== *)

Section CSGShapeNotions.
Import CSG.

(** The three operators [create] draws from. *)
Definition binaryOperator (op : CSGNodeOperationType) : Prop :=
  op = Intersection \/ op = Union \/ op = Difference.

(** A tree as the creator builds it: every operation is one of the three
    binary operators over exactly two children, and every leaf holds one of
    the functions [fs]. *)
Fixpoint binaryOver (fs : list ImplicitFunction) (n : CSGNode) : Prop :=
  match n with
  | Geometry f => In f fs
  | Operation op _ cs =>
    binaryOperator op /\ List.length cs = 2%nat
    /\ fold_right (fun c acc => binaryOver fs c /\ acc) True cs
  end.

(** A clique that has a function. *)
Definition nonEmptyClique (cl : Clique) : bool :=
  negb (Nat.eqb (List.length (functions cl)) 0).

(** The tree of a result entry fits its clique: the leaf of the function
    of a clique of one, a candidate of a clique of two. *)
Definition cliqueEntry (entry : Clique * CSGNode) : Prop :=
  match functions (fst entry) with
  | [f] => snd entry = Geometry f
  | [f0; f1] => In (snd entry) (candidatesOf f0 f1)
  | _ => True
  end.

End CSGShapeNotions.

(* ================================================================== *)
(** * Further functions of primitive_extraction.cpp *)
(* ================================================================== *)

Module PSSMore.
Import Random Random.Notations PSS.

Open Scope Q_scope.

Section Statics.
Context {E : RandomEngine} {K : Kernel}.

(** [extractStaticManifolds]: spheres and cylinders become primitives at
    once (a cylinder without cap planes), everything else is left to the
    creator. *)
Fixpoint extractStaticManifolds_from (primitives : PrimitiveSet)
  (restManifolds manifolds : ManifoldSet) : M (PrimitiveSet * ManifoldSet) :=
  match manifolds with
  | [] => ret (primitives, restManifolds)
  | manifold :: rest =>
    match type manifold with
    | ManifoldType.Sphere =>
      extractStaticManifolds_from
        (primitives ++ [createSpherePrimitive (Some manifold)])
        restManifolds rest
    | ManifoldType.Cylinder =>
      let planes : ManifoldSet := [] in
      pr <- createCylinderPrimitive manifold planes ;;
      extractStaticManifolds_from (primitives ++ [pr]) restManifolds rest
    | _ =>
      extractStaticManifolds_from primitives (restManifolds ++ [manifold]) rest
    end
  end.

Definition extractStaticManifolds (manifolds : ManifoldSet)
  : M (PrimitiveSet * ManifoldSet) :=
  extractStaticManifolds_from [] [] manifolds.

(** The loop of [extractPrimitivesWithGA] that tries both cutout flags for
    every static primitive: the primitive is ranked alone, first as no
    cutout and then as a cutout, with the static primitives ignored, and
    becomes a cutout iff that ranks strictly higher.  The ranker's record of
    the best set goes through all the calls. *)
Fixpoint tuneStaticCutouts (ranker : PrimitiveSetRanker)
  (staticPrimitives : PrimitiveSet) (best : RankerBest)
  : PrimitiveSet * RankerBest :=
  match staticPrimitives with
  | [] => ([], best)
  | p :: rest =>
    let '(score, best) := rank ranker [set_cutout false p] true best in
    let '(score_cutout, best) := rank ranker [set_cutout true p] true best in
    let p := if Qltb score score_cutout
             then set_cutout true p else set_cutout false p in
    let '(rest, best) := tuneStaticCutouts ranker rest best in
    (p :: rest, best)
  end.

(** [bestPrimitiveSet] *)
Definition bestPrimitiveSet (best : RankerBest) : PrimitiveSet :=
  bestPrimitives best.

End Statics.

(** Collaborators of the ghost planes: [std::acos]; the length of the
    bounding box of a point cloud; and for a plane the corners, in space, of
    the smallest rectangle around its projected points (CGAL's convex hull
    and rotating calipers between [get2DPoints] and [get3DPoints]); the
    cross product of Eigen; and the value of a vector that is declared and
    not initialised. *)
Class GhostCollaborators := {
  acos : Q -> Q;
  computeAABBLength : PointCloud -> Q;
  minRectangleCorners : Manifold -> list Vector3d;
  cross : Vector3d -> Vector3d -> Vector3d;
  uninitialised : Vector3d
}.

Section GhostPlanes.
Context {E : RandomEngine} {K : Kernel} {G : GhostCollaborators}.

(** [generateGhostPlanesForSinglePlane]: four planes through the midpoints
    of the sides of the rectangle, or none when CGAL gives no rectangle. *)
Definition generateGhostPlanesForSinglePlane (plane : Manifold)
  : M ManifoldSet :=
  match minRectangleCorners plane with
  | [r0; r1; r2; r3] =>
    let side (a b : Vector3d) : Manifold :=
      mkManifold ManifoldType.Plane
                 (vsub a (vscale (1 # 2) (vsub a b)))
                 (normalized (cross (vsub a b) (n plane)))
                 uninitialised [] in
    ret [side r0 r1; side r1 r2; side r2 r3; side r3 r0]
  | _ =>
    say "Could not create rectangle for plane." ;;;
    ret []
  end.

(** The test of [filterClosePlanes] of a plane against a manifold that is
    already kept. *)
Definition closeTo (distanceThreshold angleThreshold : Q)
  (plane existingPlane : Manifold) : bool :=
  Qltb (Qabs (dot (vsub (p plane) (p existingPlane))
                  (normalized (n existingPlane))))
       distanceThreshold
  && Qltb (acos (dot (normalized (n plane)) (normalized (n existingPlane))))
          angleThreshold.

(** [filterClosePlanes]: a manifold that is no plane is kept; a plane is
    kept unless it is close to a manifold kept before it. *)
Fixpoint filterClosePlanes_from (res ms : ManifoldSet)
  (distanceThreshold angleThreshold : Q) : M ManifoldSet :=
  match ms with
  | [] => ret res
  | plane :: rest =>
    if negb (ManifoldType.eqb (type plane) ManifoldType.Plane) then
      filterClosePlanes_from (res ++ [plane]) rest
                             distanceThreshold angleThreshold
    else if existsb (closeTo distanceThreshold angleThreshold plane) res then
      say "Removed plane. " ;;;
      filterClosePlanes_from res rest distanceThreshold angleThreshold
    else
      filterClosePlanes_from (res ++ [plane]) rest
                             distanceThreshold angleThreshold
  end.

Definition filterClosePlanes (ms : ManifoldSet)
  (distanceThreshold angleThreshold : Q) : M ManifoldSet :=
  filterClosePlanes_from [] ms distanceThreshold angleThreshold.

(** The ghost planes of all planes of [ms], in order. *)
Fixpoint ghostsOf (ms : ManifoldSet) : M ManifoldSet :=
  match ms with
  | [] => ret []
  | m :: rest =>
    if ManifoldType.eqb (type m) ManifoldType.Plane then
      ghostPlanes <- generateGhostPlanesForSinglePlane m ;;
      more <- ghostsOf rest ;;
      ret (ghostPlanes ++ more)
    else ghostsOf rest
  end.

(** [generateGhostPlanes] *)
Definition generateGhostPlanes (pc : PointCloud) (ms : ManifoldSet)
  (distanceThreshold angleThreshold : Q) : M ManifoldSet :=
  ghosts <- ghostsOf ms ;;
  let res := ms ++ ghosts in
  filterClosePlanes res (distanceThreshold * computeAABBLength pc)
                    angleThreshold.

End GhostPlanes.

End PSSMore.

(* ================================================================== *)
(** * Further notions on primitive sets *)
(* ================================================================== *)

Section PSSShapeNotions.
Import Random PSS.
Open Scope Q_scope.
Context {K : Kernel}.

Definition isPlane (m : Manifold) : bool :=
  ManifoldType.eqb (type m) ManifoldType.Plane.

(** The manifold list of a primitive fits its kind, as [mutatePrimitive]
    relies on: a box has six planes, the list of a cylinder starts with the
    cylinder. *)
Definition wellFormed (pr : Primitive) : Prop :=
  match ptype pr with
  | PrimitiveType.Box => List.length (ms pr) = 6%nat
  | PrimitiveType.Cylinder =>
    exists cyl rest, ms pr = cyl :: rest /\ type cyl = ManifoldType.Cylinder
  | _ => True
  end.

(** No member of the set is of kind None. *)
Definition noNone (ps : PrimitiveSet) : Prop :=
  Forall (fun pr => isNone pr = false) ps.

(** [out] has the length of [a], and each of its members stands at the
    same position in [a] or in [b]. *)
Definition fromEither {A} (a b out : list A) : Prop :=
  List.length out = List.length a
  /\ forall k x, nth_error out k = Some x ->
       nth_error a k = Some x \/ nth_error b k = Some x.

(** Two planes pass the filter of [getParallelPlane]: the normals are
    within [eps] of each other or of opposite directions, and the point of
    the first lies further than [dist] from the second. *)
Definition parallelApart (eps dist : Q) (a b : Manifold) : Prop :=
  cos eps < Qabs (dot (n a) (n b))
  /\ dist < Qabs (dot (vsub (p a) (p b)) (n b)).

(** The filter of [getPerpendicularPlane] against one plane. *)
Definition awayFrom (eps : Q) (a b : Manifold) : Prop :=
  Qabs (dot (n a) (n b)) < cos eps.

(** What [createPrimitive] selects for a box: six planes of the creator, no
    one equal to one selected before it; three pairs of parallel planes
    apart from each other, the first plane of the second and of the third
    pair away from the direction of all planes before it. *)
Definition boxSelection (c : PrimitiveSetCreator) (planes : ManifoldSet)
  : Prop :=
  exists a0 a1 a2 a3 a4 a5,
    planes = [a0; a1; a2; a3; a4; a5]
    /\ Forall (fun m => In m (cms c) /\ type m = ManifoldType.Plane) planes
    /\ (forall pre m post, planes = (pre ++ m :: post)%list ->
          forall u, In u pre -> manifoldsEqual m u (1 # 10000) = false)
    /\ parallelApart (angleEpsilon c) (minDistanceBetweenParallelPlanes c) a0 a1
    /\ parallelApart (angleEpsilon c) (minDistanceBetweenParallelPlanes c) a2 a3
    /\ parallelApart (angleEpsilon c) (minDistanceBetweenParallelPlanes c) a4 a5
    /\ Forall (fun u => awayFrom (angleEpsilon c) u a2) [a0; a1]
    /\ Forall (fun u => awayFrom (angleEpsilon c) u a4) [a0; a1; a2; a3].

End PSSShapeNotions.

Section PSSEvolutionNotions.
Import Random PSS.

(** A primitive as the genetic search holds it: not None, no sphere, and
    with a manifold list that fits its kind. *)
Definition evolved (pr : Primitive) : Prop :=
  isNone pr = false /\ ptype pr <> PrimitiveType.Sphere /\ wellFormed pr.

(** The creator has no plane and no cylinder to build from. *)
Definition nothingToBuildFrom (c : PrimitiveSetCreator) : Prop :=
  Forall (fun m => type m = ManifoldType.Sphere) (cms c).

End PSSEvolutionNotions.

Section PSSStaticNotions.
Import Random PSS PSSMore.
Open Scope Q_scope.
Context {K : Kernel} {G : GhostCollaborators}.

(** [pr] is the static primitive of the manifold [m]: a sphere of a sphere,
    a cylinder of a cylinder, built of [m] alone and no cutout. *)
Definition staticOf (m : Manifold) (pr : Primitive) : Prop :=
  ms pr = [m] /\ cutout pr = false
  /\ ((type m = ManifoldType.Sphere /\ ptype pr = PrimitiveType.Sphere)
      \/ (type m = ManifoldType.Cylinder
          /\ ptype pr = PrimitiveType.Cylinder)).

(** [l] is [l'] with some members left out. *)
Inductive Subsequence {A} : list A -> list A -> Prop :=
| Subsequence_nil : Subsequence [] []
| Subsequence_keep x l l' : Subsequence l l' -> Subsequence (x :: l) (x :: l')
| Subsequence_drop x l l' : Subsequence l l' -> Subsequence l (x :: l').

(** No plane of [l] is close to a manifold before it in [l]. *)
Definition apart (distanceThreshold angleThreshold : Q) (l : ManifoldSet)
  : Prop :=
  forall pre m post, l = (pre ++ m :: post)%list -> isPlane m = true ->
    forall e, In e pre -> closeTo distanceThreshold angleThreshold m e = false.

(** [g] is a ghost plane of [plane]: a plane without points through the
    middle of a side of the rectangle around [plane], its normal that of the
    cross product of the side and the normal of [plane]. *)
Definition ghostOf (plane g : Manifold) : Prop :=
  type g = ManifoldType.Plane /\ pc g = []
  /\ exists r0 r1 r2 r3,
       minRectangleCorners plane = [r0; r1; r2; r3]
       /\ exists a b,
            In (a, b) [(r0, r1); (r1, r2); (r2, r3); (r3, r0)]
            /\ veq (vscale 2 (p g)) (vadd a b)
            /\ n g = normalized (cross (vsub a b) (n plane)).

End PSSStaticNotions.

(* ================================================================== *)
(** * point_vis.cpp: the affinity matrix of a point cloud over a mesh *)
(* ================================================================== *)

Module Vis.
Import Random PSS.

Open Scope Q_scope.

(** [Eigen::MatrixXd]: the sizes and the coefficients by row and column. *)
Record MatrixXd := mkMatrix {
  rows : nat;
  cols : nat;
  coeff : nat -> nat -> Q
}.

(** A matrix of the given sizes after [setZero]. *)
Definition setZero (r c : nat) : MatrixXd := mkMatrix r c (fun _ _ => 0).

(** [m.coeffRef(i, j) = v]; the loops keep both indices within the sizes. *)
Definition assignCoeff (m : MatrixXd) (i j : nat) (v : Q) : MatrixXd :=
  mkMatrix (rows m) (cols m)
           (fun a b => if Nat.eqb a i && Nat.eqb b j then v else coeff m a b).

(** The value of a division of doubles whose divisor may be zero. *)
Inductive Double :=
| Finite (q : Q)
| Infinity (positive : bool)
| NaN.

Definition divide (a b : Q) : Double :=
  if Qeq_bool b 0 then
    if Qeq_bool a 0 then NaN else Infinity (Qltb 0 a)
  else Finite (a / b).

(** [v.maxCoeff()]; Eigen does not define it for an empty vector. *)
Definition maxCoeff (v : list Q) : option Q :=
  match v with
  | [] => None
  | x :: rest => Some (fold_left Qmax rest x)
  end.

(** The point cloud passed back for debugging: positions, and three
    columns that were the normal. *)
Definition DebugCloud := list (Vector3d * (Double * Double * Double)).

(** Collaborators: the mesh type; libigl's signed distances of the points
    to the mesh (the vector [d]); CGAL's count of the faces of the mesh that
    a segment meets, by its AABB tree. *)
Class Collaborators := {
  Mesh : Type;
  signed_distance_pseudonormal : Mesh -> PointCloud -> nat -> Q;
  number_of_intersected_primitives : Mesh -> Vector3d -> Vector3d -> N
}.

Section Affinity.
Context {X : Collaborators}.

(** [get_signed_distances] *)
Definition get_signed_distances (surface_mesh : Mesh) (points : PointCloud)
  : list Event * (nat -> Q) :=
  ([Print "Get sd and normal. "],
   signed_distance_pseudonormal surface_mesh points).

(** The position in row [i] of the cloud. *)
Definition row3 (cloud : PointCloud) (i : nat) : Vector3d :=
  fst (nth i cloud (zero3, zero3)).

(** The body of the inner loop of [get_affinity_matrix] for the pair
    (i, j): the state is the matrix, the counter and the console. *)
Definition pairBody (cloud : PointCloud) (surface_mesh : Mesh)
  (sd : nat -> Q) (i : nat) (st : MatrixXd * Z * list Event) (j : nat)
  : MatrixXd * Z * list Event :=
  let '(am, c, out) := st in
  let p0 := row3 cloud i in
  let p1 := row3 cloud j in
  let close_inters := 0%Z in
  let close_inters :=
    (close_inters + if Qle_bool 0 (sd i) then 1 else 0)%Z in
  let close_inters :=
    (close_inters + if Qle_bool 0 (sd j) then 1 else 0)%Z in
  let n :=
    Z.max 0 (Z.of_N (number_of_intersected_primitives surface_mesh p0 p1)
             - close_inters) in
  let v := if (n =? 0)%Z then 1 else 1 / (1 + inject_Z n) in
  let am := assignCoeff am i j v in
  let am := assignCoeff am j i v in
  let c := (c + 1)%Z in
  let out :=
    if (c mod 100000 =? 0)%Z then
      (out ++ [Print (show c ++ " of "
                      ++ show (Z.of_nat (List.length cloud)
                               * Z.of_nat (List.length cloud) / 2))])%list
    else out in
  (am, c, out).

(** [get_affinity_matrix(pc, surface_mesh, debug_pc)]: the matrix and the
    debug cloud, or nothing where Eigen leaves the result undefined; and
    the console.  The vector [hits] is set to zero and never written. *)
Definition get_affinity_matrix (cloud : PointCloud) (surface_mesh : Mesh)
  : option (MatrixXd * DebugCloud) * list Event :=
  let debug_pc := cloud in
  let size := List.length cloud in
  let am := setZero size size in
  let c := 0%Z in
  let hits := repeat 0 size in
  let '(out, sd) := get_signed_distances surface_mesh cloud in
  let '(am, c, out) :=
    fold_left (fun st i =>
                 fold_left (pairBody cloud surface_mesh sd i)
                           (seq (S i) (size - S i)) st)
              (seq 0 size) (am, c, out) in
  match maxCoeff hits with
  | None => (None, out)
  | Some m =>
    let hits := map (fun h => divide h m) hits in
    (Some (am, combine (map fst debug_pc) (map (fun h => (h, h, h)) hits)),
     out)
  end.

End Affinity.

(** Collaborators of the affinity over planes: CGAL's intersection of a
    segment with a plane when it is a single point (nothing when they do not
    meet or the segment lies in the plane); the squared distance from a
    point to its nearest neighbour in the cloud (CGAL's search for one
    neighbour); the rendering of a double on the console. *)
Class PlaneCollaborators := {
  intersection_point : Vector3d -> Vector3d -> Manifold -> option Vector3d;
  nearest_squared_distance : PointCloud -> Vector3d -> Q;
  showDouble : Q -> string
}.

Section PlaneAffinity.
Context {K : Kernel} {Y : PlaneCollaborators}.

(** [to_cgal_planes]: the planes among the manifolds. *)
Definition to_cgal_planes (ms : ManifoldSet) : ManifoldSet :=
  filter (fun m => ManifoldType.eqb (type m) ManifoldType.Plane) ms.

Definition squared_distance (a b : Vector3d) : Q :=
  dot (vsub a b) (vsub a b).

(** The loop over the planes for the segment from [p0] to [p1]: whether it
    leaves through [goto OUT], with [hit] set to 0. *)
Definition blocked (cloud : PointCloud) (planes : ManifoldSet)
  (max_dist : Q) (p0 p1 : Vector3d) : bool :=
  let epsilon := 1 # 1000000 in
  existsb (fun plane =>
             match intersection_point p0 p1 plane with
             | Some pt =>
               if Qltb (squared_distance pt p0) epsilon
                  || Qltb (squared_distance pt p1) epsilon
               then false
               else Qle_bool (nearest_squared_distance cloud pt) max_dist
             | None => false
             end) planes.

(** The body of the inner loop for the pair (i, j): the state is the
    matrix, the two counters and the console. *)
Definition planePairBody (cloud : PointCloud) (planes : ManifoldSet)
  (max_dist : Q) (i : nat) (st : MatrixXd * Z * Z * list Event) (j : nat)
  : MatrixXd * Z * Z * list Event :=
  let '(am, c, wrong_side_c, out) := st in
  let out :=
    if (c mod 100000 =? 0)%Z then
      (out ++ [Print (show c ++ " of "
                      ++ showDouble
                           (inject_Z (Z.of_nat (List.length cloud)
                                      * Z.of_nat (List.length cloud))
                            * (1 # 2)))])%list
    else out in
  let c := (c + 1)%Z in
  let p0 := row3 cloud i in
  let p1 := row3 cloud j in
  let n := snd (nth i cloud (zero3, zero3)) in
  let ep0 := row3 cloud i in
  let ep1 := row3 cloud j in
  if Qltb (dot (normalized (vscale (-1) n)) (normalized (vsub ep1 ep0))) 0
  then (am, c, (wrong_side_c + 1)%Z, out)
  else
    let hit := if blocked cloud planes max_dist p0 p1 then 0 else 1 in
    let am := assignCoeff am i j hit in
    let am := assignCoeff am j i hit in
    (am, c, wrong_side_c, out).

(** [get_affinity_matrix(pc, p, max_dist, debug_pc)]; the debug cloud is
    not touched. *)
Definition get_affinity_matrix_planes (cloud : PointCloud) (p : ManifoldSet)
  (max_dist : Q) : MatrixXd * list Event :=
  let planes := to_cgal_planes p in
  let size := List.length cloud in
  let am := setZero size size in
  let c := 0%Z in
  let wrong_side_c := 0%Z in
  let '(am, c, wrong_side_c, out) :=
    fold_left (fun st i =>
                 fold_left (planePairBody cloud planes max_dist i)
                           (seq (S i) (size - S i)) st)
              (seq 0 size) (am, c, wrong_side_c, []) in
  (am, (out ++ [Print ("wrong side connections: " ++ show wrong_side_c)])%list).

End PlaneAffinity.

End Vis.

Section VisNotions.
Import PSS Vis.
Open Scope Q_scope.
Context {X : Collaborators}.

(** The number of faces of the mesh between the points of the rows [i]
    and [j], beyond the one face that each point on or outside of the mesh
    accounts for. *)
Definition facesBetween (cloud : PointCloud) (surface_mesh : Mesh)
  (i j : nat) : Z :=
  Z.max 0
    (Z.of_N (number_of_intersected_primitives surface_mesh (row3 cloud i)
                                              (row3 cloud j))
     - ((if Qle_bool 0 (signed_distance_pseudonormal surface_mesh cloud i)
         then 1 else 0)
        + (if Qle_bool 0 (signed_distance_pseudonormal surface_mesh cloud j)
           then 1 else 0))).

(** The affinity of the rows [i] and [j]: 1 when no face lies between
    them, 1 / (1 + n) for n faces between them. *)
Definition pairAffinity (cloud : PointCloud) (surface_mesh : Mesh)
  (i j : nat) : Q :=
  if (facesBetween cloud surface_mesh i j =? 0)%Z then 1
  else 1 / (1 + inject_Z (facesBetween cloud surface_mesh i j)).

(** The turn (i, j) of the loops writes the coefficient (a, b). *)
Definition writes (i a b j : nat) : bool :=
  (Nat.eqb a i && Nat.eqb b j) || (Nat.eqb a j && Nat.eqb b i).

(** The row [j] lies on the side of the row [i] that the normal of [i]
    points to, by the test of the affinity over planes. *)
Definition wrongSide {K : Kernel} (cloud : PointCloud) (i j : nat) : bool :=
  Qltb (dot (normalized (vscale (-1) (snd (nth i cloud (zero3, zero3)))))
            (normalized (vsub (row3 cloud j) (row3 cloud i)))) 0.

(** The turn (i, j) of the loops over planes writes the coefficient
    (a, b): it is a turn for that coefficient which passes the side
    test. *)
Definition planeWrites {K : Kernel} (cloud : PointCloud) (i a b j : nat)
  : bool :=
  writes i a b j && negb (wrongSide cloud i j).

(** The affinity of two rows in either order. *)
Definition affinity (cloud : PointCloud) (surface_mesh : Mesh) (a b : nat)
  : Q :=
  pairAffinity cloud surface_mesh (Nat.min a b) (Nat.max a b).

End VisNotions.

Module VisExamples.
Import PSS Vis.
Open Scope Q_scope.

(** A mesh on which every point lies and of which every segment meets
    three faces: one face lies between any two points. *)
Definition oneWall : Collaborators := {|
  Mesh := unit;
  signed_distance_pseudonormal := fun _ _ _ => 0;
  number_of_intersected_primitives := fun _ _ _ => 3%N
|}.

End VisExamples.

(* ================================================================== *)
(** * Further notions on the pipeline *)
(* ================================================================== *)

Section PipelineRunNotions.
Import Random CSG Pipeline.
Open Scope string_scope.

(** The names [optimize] knows. *)
Definition knownOptimizer (name : string) : bool :=
  String.eqb name "GA" || String.eqb name "Sampling.SetCover"
  || String.eqb name "Sampling.QuineMcCluskey"
  || String.eqb name "Sampling.Espresso".

(** The events of the last step of [run], the saving of the output mesh. *)
Definition outputMeshEvents (pp : PipelineParams) : list Event :=
  if save_meshes pp
  then [Print "Save output mesh..."; Call "save_as_obj_mesh"; Print "Done."]
  else [].

(** The line [load] prints when reading or binarising the tree throws. *)
Definition cannotLoad (pp : PipelineParams) (what : string) : Event :=
  Print ("Cannot load CSG tree from '" ++ tree_file pp ++ "'. Reason: " ++ what).

(** The line [run] prints when [optimize] is asked for an optimiser it does
    not know. *)
Definition unknownOptimizerLine (pp : PipelineParams) : Event :=
  Print ("Decomposition / Optimization failed. Reason: "
         ++ "Optimizer with name '" ++ optimizer pp ++ "' does not exist.").

End PipelineRunNotions.

(* ================================================================== *)
(** * Further worked examples *)
(* ================================================================== *)

Module MoreExamples.

Module PSSEx2.
Import PSS Examples.PSSEx.
Open Scope Q_scope.

(** The creator of [extractPrimitivesWithGA] over the six planes of the
    unit cube, and over a single sphere. *)
Definition cubeCreator : PrimitiveSetCreator :=
  mkPrimitiveSetCreator (cubePlanes 0) 0
    [4 # 10; 15 # 100; 15 # 100; 15 # 100; 15 # 100] 1 1 2 (349 # 1000)
    (1 # 1000).

Definition sphereCreator : PrimitiveSetCreator :=
  mkPrimitiveSetCreator [sphereM] 0
    [4 # 10; 15 # 100; 15 # 100; 15 # 100; 15 # 100] 1 1 2 (349 # 1000)
    (1 # 1000).

(** A draw that [std::discrete_distribution] over the five weights maps to
    the mutation REMOVE (the canonical value is 3/4). *)
Definition drawRemove : N := 3221225472.

End PSSEx2.

Module PipelineEx2.
Import CSG Pipeline Examples.CSGEx.
Open Scope string_scope.

(** Collaborators with a tree file that holds the union of A and B.  The
    binarisation throws iff [binarises] is unset; the optimiser is the one
    the parameter file names under [optimizerName], run directly when
    [decomposes] is unset; the others return their input. *)
Definition withTree (binarises decomposes : bool) (optimizerName : string)
  : Collaborators := {|
  ParameterSet := unit;
  PointCloud := unit;
  empty_pc := tt;
  PrimitiveCluster := unit;
  no_primitives := tt;
  OptimizerGAParams := unit;
  SamplingParams := unit;
  getStr := fun _ _ key default =>
              if String.eqb key "Optimizer" then optimizerName else default;
  getDouble := fun _ _ _ default => default;
  getBool := fun _ _ key default =>
               if String.eqb key "UseDecomposition" then decomposes
               else default;
  fromJSONFile := fun _ => Returned unionAB;
  to_binary_tree := fun n => if binarises then Returned n
                             else Threw "not binarisable";
  save_as_obj_mesh := fun _ _ => Returned tt;
  writeNode := fun _ _ => Returned tt;
  allDistinctFunctions := fun _ => Returned [fA; fB];
  filter_name_duplicates := fun n => Returned n;
  compute_local_proximity_score := fun _ _ _ => Returned 0%Q;
  remove_redundancies := fun n _ _ => Returned n;
  generate_in_out_points := fun _ _ _ => Returned tt;
  optimize_with_decomposition := fun n _ _ _ _ optimize => optimize n tt;
  read_opt_ga_params := fun _ => tt;
  read_opt_sampling_params := fun _ => tt;
  optimize_with_ga := fun n _ _ => Returned n;
  optimize_pi_set_cover := fun n _ _ => Returned n;
  optimize_with_python := fun n _ _ => Returned n;
  transform_to_diffs := fun n => Returned n
|}.

End PipelineEx2.

End MoreExamples.

(* ================================================================== *)
(** * Facts about the random monad *)
(* ================================================================== *)

Section RandomFacts.
Import Random.
Context {E : RandomEngine}.

Lemma raw_ok (w : World) :
  exists x w', raw w = Ok x w' /\ events w' = events w.
Proof.
  unfold raw. destruct (engine_next (rndEngine w)) as [x e'].
  exists x, (mkWorld e' (events w)). split; reflexivity.
Qed.

Lemma uniform_int_ok (a b : Z) (w : World) :
  (a <= b)%Z ->
  exists v w', uniform_int a b w = Ok v w' /\ (a <= v <= b)%Z
               /\ events w' = events w.
Proof.
  intros Hab. unfold uniform_int.
  destruct (Z.ltb_spec b a) as [Hlt | _]; [lia |].
  unfold bind. destruct (raw_ok w) as (x & w' & Hr & He). rewrite Hr.
  eexists; eexists; split; [reflexivity | split; [| exact He]].
  pose proof (Z.mod_pos_bound (Z.of_N x) (b - a + 1)). lia.
Qed.

Lemma bernoulli_ok (p : Q) (w : World) :
  exists b w', bernoulli p w = Ok b w' /\ events w' = events w.
Proof.
  unfold bernoulli, bind. destruct (raw_ok w) as (x & w' & Hr & He).
  rewrite Hr. eexists; eexists; split; [reflexivity | exact He].
Qed.

Lemma index_ok {A} (v : list A) (i : Z) (w : World) :
  (0 <= i < Z.of_nat (List.length v))%Z ->
  exists a, index v i w = Ok a w /\ In a v.
Proof.
  intros Hi. unfold index.
  destruct (Z.ltb_spec i 0) as [Hlt | _]; [lia |].
  destruct (nth_error v (Z.to_nat i)) as [a |] eqn:Hn.
  - exists a. split; [reflexivity | eapply nth_error_In; eassumption].
  - apply nth_error_None in Hn. lia.
Qed.

End RandomFacts.

(* ================================================================== *)
(** * CSG trees: depth of created and mutated trees *)
(* ================================================================== *)

Section CSGDepth.
Import Random CSG.

(** Induction over trees that reaches the children of an operation. *)
Lemma CSGNode_induction (P : CSGNode -> Prop) :
  (forall f, P (Geometry f)) ->
  (forall op nm cs, Forall P cs -> P (Operation op nm cs)) ->
  forall n, P n.
Proof.
  intros Hleaf Hop. fix IH 1. intros [f | op nm cs].
  - apply Hleaf.
  - apply Hop. induction cs as [| c cs IHcs]; constructor.
    + apply IH.
    + exact IHcs.
Qed.

#[local] Arguments childsDepth : simpl never.

Lemma depth_Operation op nm cs : depth (Operation op nm cs) = childsDepth cs.
Proof. reflexivity. Qed.

Lemma childsDepth_cons c cs :
  childsDepth (c :: cs) = Nat.max (S (depth c)) (childsDepth cs).
Proof. reflexivity. Qed.

Lemma childsDepth_app cs1 cs2 :
  childsDepth (cs1 ++ cs2) = Nat.max (childsDepth cs1) (childsDepth cs2).
Proof.
  induction cs1 as [| c cs1 IH]; [reflexivity |].
  rewrite <- app_comm_cons, !childsDepth_cons, IH. lia.
Qed.

Lemma depth_addChild (n child : CSGNode) :
  (depth (addChild n child) <= Nat.max (depth n) (S (depth child)))%nat.
Proof.
  destruct n as [f | op nm cs]; [simpl; lia |].
  cbn [addChild]. rewrite !depth_Operation, childsDepth_app.
  rewrite childsDepth_cons. simpl. lia.
Qed.

Lemma numNodes_pos (n : CSGNode) : (1 <= numNodes n)%nat.
Proof. destruct n; simpl; lia. Qed.

(** Assigning a subtree adds at most its depth. *)
Lemma assignAt_depth (n : CSGNode) :
  forall idx new,
    (idx < numNodes n)%nat ->
    exists n', assignAt n idx new = Some n'
               /\ (depth n' <= depth n + depth new)%nat.
Proof.
  induction n as [f | op nm cs IH] using CSGNode_induction; intros idx new Hidx.
  - simpl in Hidx. assert (idx = 0%nat) by lia. subst. simpl.
    exists new. split; [reflexivity | lia].
  - destruct idx as [| i].
    + simpl. exists new. split; [reflexivity | lia].
    + simpl in Hidx. apply PeanoNat.lt_S_n in Hidx.
      cbn [assignAt].
      set (go := fix go (cs : list CSGNode) (i : nat) {struct cs}
                   : option (list CSGNode) :=
                   match cs with
                   | [] => None
                   | c :: rest =>
                     if (i <? numNodes c)%nat
                     then option_map (fun c' => c' :: rest) (assignAt c i new)
                     else option_map (cons c) (go rest (i - numNodes c)%nat)
                   end).
      assert (Hgo : forall cs i, Forall (fun n => forall idx new,
                      (idx < numNodes n)%nat ->
                      exists n', assignAt n idx new = Some n'
                        /\ (depth n' <= depth n + depth new)%nat) cs ->
                (i < list_sum (map numNodes cs))%nat ->
                exists cs', go cs i = Some cs'
                  /\ (childsDepth cs' <= childsDepth cs + depth new)%nat).
      { clear. intros cs. induction cs as [| c cs IHcs]; intros i HF Hi.
        - simpl in Hi. lia.
        - inversion HF as [| ? ? Hc HF']; subst. simpl in Hi. simpl.
          destruct (Nat.ltb_spec i (numNodes c)) as [Hlt | Hge].
          + destruct (Hc i new Hlt) as (c' & Hq & Hd). rewrite Hq. simpl.
            eexists; split; [reflexivity |].
            rewrite !childsDepth_cons. lia.
          + destruct (IHcs (i - numNodes c)%nat HF' ltac:(lia))
              as (cs' & Hq & Hd).
            rewrite Hq. simpl. eexists; split; [reflexivity |].
            rewrite !childsDepth_cons. lia. }
      destruct (Hgo cs i IH Hidx) as (cs' & Hq & Hd). rewrite Hq. simpl.
      eexists; split; [reflexivity |].
      rewrite !depth_Operation. exact Hd.
Qed.

Context {E : RandomEngine}.
Variable c : CSGNodeCreator.
Hypothesis functions_nonempty : _functions c <> [].

Lemma randomLeaf_ok (w : World) :
  exists f w', randomLeaf c w = Ok (Geometry f) w'.
Proof.
  unfold randomLeaf, bind.
  assert (Hlen : (0 < Z.of_nat (List.length (_functions c)))%Z).
  { destruct (_functions c); [congruence | simpl; lia]. }
  destruct (uniform_int_ok (a := 0) (b := Z.of_nat (List.length (_functions c)) - 1) w
              ltac:(lia)) as (v & w' & Hq & Hv & _).
  rewrite Hq. destruct (index_ok (_functions c) w' (i := v) ltac:(lia))
    as (f & Hi & _).
  rewrite Hi. exists f, w'. reflexivity.
Qed.

(** The recursive filler terminates within its budget and keeps every new
    branch within the remaining depth. *)
Lemma createChilds_depth (fuel : nat) :
  forall node maxDepth curDepth w,
    (Z.to_nat (maxDepth - curDepth) < fuel)%nat ->
    exists node' w',
      createChilds c fuel node maxDepth curDepth w = Ok node' w'
      /\ (Z.of_nat (depth node')
          <= Z.max (Z.of_nat (depth node))
                   (Z.max 1 (maxDepth - curDepth + 1)))%Z.
Proof.
  induction fuel as [| fuel IH]; intros node maxDepth curDepth w Hfuel; [lia |].
  cbn [createChilds].
  generalize (Z.to_nat (clamp (snd (numAllowedChilds node))
                              (fst (numAllowedChilds node)) 2)).
  intros k. revert node w.
  induction k as [| k IHk]; intros node w.
  - exists node, w. split; [reflexivity | lia].
  - unfold bind at 1.
    destruct (bernoulli_ok (_subtreeProb c) w) as (b & w1 & Hb & _).
    rewrite Hb. unfold bind at 1.
    assert (Hchild : exists child w2,
               (if b && (curDepth <? maxDepth)%Z
                then bind (uniform_int 1 3) (fun op =>
                       createChilds c fuel (createOperation (operationOfCode op))
                                    maxDepth (curDepth + 1))
                else randomLeaf c) w1 = Ok child w2
               /\ (Z.of_nat (S (depth child))
                   <= Z.max 1 (maxDepth - curDepth + 1))%Z).
    { destruct (b && (curDepth <? maxDepth)%Z) eqn:Hcond.
      - apply andb_true_iff in Hcond. destruct Hcond as [_ Hlt].
        apply Z.ltb_lt in Hlt. unfold bind.
        destruct (uniform_int_ok (a := 1) (b := 3) w1 ltac:(lia))
          as (op & w1' & Hop & _ & _).
        rewrite Hop.
        destruct (IH (createOperation (operationOfCode op)) maxDepth
                     (curDepth + 1)%Z w1' ltac:(lia))
          as (child & w2 & Hq & Hd).
        exists child, w2. split; [exact Hq |].
        unfold createOperation in Hd. simpl depth in Hd. lia.
      - destruct (randomLeaf_ok w1) as (f & w2 & Hq).
        exists (Geometry f), w2. split; [exact Hq | simpl; lia]. }
    destruct Hchild as (child & w2 & Hq & Hd). rewrite Hq.
    destruct (IHk (addChild node child) w2) as (node' & w' & Hq' & Hd').
    exists node', w'. split; [exact Hq' |].
    pose proof (depth_addChild node child). lia.
Qed.

Lemma create_depth_ok (maxDepth : Z) (w : World) :
  exists t w', create_depth c maxDepth w = Ok t w'
               /\ (Z.of_nat (depth t) <= Z.max 1 maxDepth)%Z
               /\ (maxDepth = 0%Z -> depth t = 0%nat).
Proof.
  unfold create_depth. destruct (Z.eqb_spec maxDepth 0) as [H0 | Hn0].
  - destruct (randomLeaf_ok w) as (f & w' & Hq).
    exists (Geometry f), w'. split; [exact Hq |]. simpl. split; [lia | auto].
  - unfold bind.
    destruct (uniform_int_ok (a := 1) (b := 3) w ltac:(lia))
      as (op & w1 & Hop & _ & _).
    rewrite Hop.
    destruct (createChilds_depth (fuel := S (Z.to_nat maxDepth))
                (createOperation (operationOfCode op)) maxDepth 1 w1
                ltac:(lia)) as (t & w' & Hq & Hd).
    exists t, w'. split; [exact Hq |]. split; [| contradiction].
    unfold createOperation in Hd. simpl depth in Hd. lia.
Qed.

End CSGDepth.

Section CSGMutation.
Import Random CSG.
Context {E : RandomEngine}.

(** C6 (as amended).  For a creator with at least one function and a tree
    whose depth does not exceed the depth limit, [mutate] returns a tree, and
    its depth does not exceed the limit either: on the create-new branch and
    on the replace-subtree branch, whose budget is the limit minus the depth
    of the tree. *)
Theorem mutate_depth_within_limit (c : CSGNodeCreator) (t : CSGNode) (w : World) :
  _functions c <> [] ->
  (Z.of_nat (depth t) <= _maxTreeDepth c)%Z ->
  exists t' w', mutate c t w = Ok t' w'
                /\ (Z.of_nat (depth t') <= _maxTreeDepth c)%Z.
Proof.
  intros Hf Hd. unfold mutate, bind.
  destruct (bernoulli_ok (_createNewRandomProb c) w) as (b & w1 & Hb & _).
  rewrite Hb. destruct b.
  - destruct (@create_depth_ok _ c Hf (_maxTreeDepth c) w1)
      as (t' & w' & Hq & Hle & Hz).
    exists t', w'. split; [exact Hq |].
    destruct (Z.eq_dec (_maxTreeDepth c) 0) as [H0 | Hn0].
    + rewrite (Hz H0). lia.
    + lia.
  - pose proof (numNodes_pos t) as Hpos.
    destruct (uniform_int_ok (a := 0) (b := Z.of_nat (numNodes t) - 1) w1
                ltac:(lia)) as (idx & w2 & Hq & Hidx & _).
    rewrite Hq. cbn [say emit].
    match goal with
    | |- context [create_depth c ?m ?w3] =>
      destruct (@create_depth_ok _ c Hf m w3) as (s & w4 & Hs & Hle & Hz)
    end.
    rewrite Hs.
    destruct (assignAt_depth t (idx := Z.to_nat idx) s ltac:(lia))
      as (t' & Ha & Hdt).
    rewrite Ha. exists t', w4. split; [reflexivity |].
    destruct (Z.eq_dec (_maxTreeDepth c - Z.of_nat (depth t)) 0) as [H0 | Hn0].
    + rewrite (Hz H0) in Hdt. lia.
    + lia.
Qed.

End CSGMutation.

Section MutationAndCrossoverExamples.
Import Random CSG Examples.CSGEx.

Lemma mutate_depth_within_limit_witness :
  exists t' w',
    mutate (E := scripted) defaultCreator deepTree (scriptedWorld [7; 3]%N)
    = Ok t' w'
    /\ (Z.of_nat (depth t') <= _maxTreeDepth defaultCreator)%Z.
Proof.
  apply (@mutate_depth_within_limit scripted defaultCreator deepTree
           (scriptedWorld [7; 3]%N)).
  - discriminate.
  - vm_compute. discriminate.
Defined.

(** C6 (as stated) fails: with depth limit 1, the mutation of a tree of
    depth 2 that replaces its last leaf returns a tree of depth 2. *)
Lemma mutate_depth_counterexample :
  exists t' w',
    mutate (E := scripted) shallowCreator deepTree (scriptedWorld [0; 4]%N)
    = Ok t' w'
    /\ (_maxTreeDepth shallowCreator < Z.of_nat (depth t'))%Z.
Proof.
  eexists; eexists; split; [vm_compute; reflexivity | vm_compute; reflexivity].
Qed.

(** C2: what [crossover] returns on the second side.  The trees A u B and
    A n B are crossed at the root of the first and the first leaf of the
    second under depth limit 1: the swapped second tree, (A u B) n B, has
    depth 2, and the second result is the first input, not the second. *)
Theorem crossover_second_fallback_is_first_input :
  exists w',
    crossover (E := scripted) shallowCreator unionAB interAB
              (scriptedWorld [0; 1]%N)
    = Ok [Geometry fA; unionAB] w'
    /\ assignAt interAB 1 unionAB
       = Some (Operation Intersection "" [unionAB; Geometry fB])
    /\ (_maxTreeDepth shallowCreator
        < Z.of_nat (depth (Operation Intersection "" [unionAB; Geometry fB])))%Z
    /\ unionAB <> interAB.
Proof.
  eexists. split; [vm_compute; reflexivity |].
  split; [reflexivity |]. split; [vm_compute; reflexivity | discriminate].
Qed.

End MutationAndCrossoverExamples.

Section PairwiseCliques.
Import Random CSG.
Context {E : RandomEngine} {X : Collaborators}.

Lemma printsOnly_refl w : printsOnly w w.
Proof. split; [reflexivity | exists []; simpl; now rewrite app_nil_r]. Qed.

Lemma printsOnly_trans w1 w2 w3 :
  printsOnly w1 w2 -> printsOnly w2 w3 -> printsOnly w1 w3.
Proof.
  intros [He1 [l1 Hl1]] [He2 [l2 Hl2]]. split; [congruence |].
  exists (l1 ++ l2). rewrite Hl2, Hl1, map_app, app_assoc. reflexivity.
Qed.

Lemma printsOnly_say s w :
  printsOnly w (mkWorld (rndEngine w) (events w ++ [Print s])).
Proof. split; [reflexivity | exists [s]; reflexivity]. Qed.

Lemma rank_ok (r : CSGNodeRanker) (node : CSGNode) (w : World) :
  exists w', rank r node w = Ok (rankValue r node) w' /\ printsOnly w w'.
Proof.
  unfold rank, bind. cbn [say emit]. eexists. split; [reflexivity |].
  eapply printsOnly_trans; apply printsOnly_say.
Qed.

(** The scan keeps the first candidate of largest rank among those that
    exceed the initial score, or its initial pointer if none does. *)
Lemma scanCandidates_spec (r : CSGNodeRanker) (f0 f1 : ImplicitFunction)
  (candidates : list CSGNode) :
  forall maxScore bestCandidate w,
  exists res w',
    scanCandidates r f0 f1 candidates maxScore bestCandidate w = Ok res w'
    /\ printsOnly w w'
    /\ ((res = bestCandidate
         /\ forall c, In c candidates -> rankValue r c <= maxScore)
        \/ exists pre best post,
             candidates = pre ++ best :: post
             /\ res = Some best
             /\ maxScore < rankValue r best
             /\ (forall c, In c pre -> rankValue r c < rankValue r best)
             /\ (forall c, In c post -> rankValue r c <= rankValue r best)).
Proof.
  induction candidates as [| c rest IH]; intros maxScore bestCandidate w.
  - exists bestCandidate, w. split; [reflexivity |].
    split; [apply printsOnly_refl |]. left. split; [reflexivity |].
    intros c [].
  - cbn [scanCandidates]. unfold bind at 1.
    destruct (rank_ok r c w) as (w1 & Hr & Hp1). rewrite Hr.
    unfold bind at 1. cbn [say emit].
    match goal with
    | |- context [mkWorld (rndEngine w1) ?ev] =>
      assert (Hp2 : printsOnly w (mkWorld (rndEngine w1) ev))
        by (eapply printsOnly_trans; [exact Hp1 | apply printsOnly_say]);
      set (w2 := mkWorld (rndEngine w1) ev) in *
    end.
    destruct (Qle_bool (rankValue r c) maxScore) eqn:Hcmp; cbn [negb].
    + apply Qle_bool_iff in Hcmp.
      destruct (IH maxScore bestCandidate w2)
        as (res & w' & Hq & Hp & [[Hres Hall] | Hfound]).
      * exists res, w'. split; [exact Hq |].
        split; [eapply printsOnly_trans; eassumption |].
        left. split; [exact Hres |]. intros c' [<- | Hin]; auto.
      * destruct Hfound as (pre & best & post & Heq & Hres & Hgt & Hpre & Hpost).
        exists res, w'. split; [exact Hq |].
        split; [eapply printsOnly_trans; eassumption |].
        right. exists (c :: pre), best, post.
        split; [now rewrite Heq |]. split; [exact Hres |].
        split; [exact Hgt |]. split; [| exact Hpost].
        intros c' [<- | Hin]; [eapply Qle_lt_trans; eassumption | auto].
    + assert (Hlt : maxScore < rankValue r c).
      { apply Qnot_le_lt. intros Hle. apply Qle_bool_iff in Hle. congruence. }
      destruct (IH (rankValue r c) (Some c) w2)
        as (res & w' & Hq & Hp & [[Hres Hall] | Hfound]).
      * exists res, w'. split; [exact Hq |].
        split; [eapply printsOnly_trans; eassumption |].
        right. exists [], c, rest. split; [reflexivity |].
        split; [exact Hres |]. split; [exact Hlt |].
        split; [intros c' [] | exact Hall].
      * destruct Hfound as (pre & best & post & Heq & Hres & Hgt & Hpre & Hpost).
        exists res, w'. split; [exact Hq |].
        split; [eapply printsOnly_trans; eassumption |].
        right. exists (c :: pre), best, post.
        split; [now rewrite Heq |]. split; [exact Hres |].
        split; [eapply Qlt_trans; eassumption |]. split; [| exact Hpost].
        intros c' [<- | Hin]; [exact Hgt | auto].
Qed.

(** The loop over the cliques of a list [before ++ rest] is the loop over
    [before] followed by the loop over [rest]. *)
Lemma computeNodesForCliques_from_app (connectionGraph : Graph)
  (before rest : list Clique) :
  forall res w,
    computeNodesForCliques_from res (before ++ rest) connectionGraph w
    = bind (computeNodesForCliques_from res before connectionGraph)
           (fun res' => computeNodesForCliques_from res' rest connectionGraph)
           w.
Proof.
  induction before as [| clique before IH]; intros res w; [reflexivity |].
  unfold bind in IH |- *.
  cbn [app computeNodesForCliques_from].
  destruct (functions clique) as [| f0 [| f1 [| f2 fs]]].
  - apply IH.
  - apply IH.
  - unfold bind.
    destruct (scanCandidates _ f0 f1 _ _ _ w) as [bestCandidate w1 | |];
      [| reflexivity | reflexivity].
    destruct (deref bestCandidate w1) as [best w2 | |];
      [| reflexivity | reflexivity].
    apply IH.
  - unfold bind.
    destruct (createCSGNodeWithGA _ connectionGraph w) as [node w1 | |];
      [| reflexivity | reflexivity].
    apply IH.
Qed.


End PairwiseCliques.

Section PairwiseExamples.
Import Random CSG Examples.CSGEx.



(** The worked clique: the intersection wins. *)
Example pairwise_clique_example :
  exists w',
    computeNodesForCliques (E := scripted) (X := exampleCollaborators)
      [mkClique [fA; fB]] emptyGraph (scriptedWorld [])
    = Ok [(mkClique [fA; fB],
           Operation Intersection "inter" [Geometry fA; Geometry fB])] w'.
Proof. eexists. vm_compute. reflexivity. Qed.

End PairwiseExamples.

(* ================================================================== *)
(** * Console traces of monadic code *)
(* ================================================================== *)

Section Traces.
Import Random.
Context {E : RandomEngine}.
Variable allowed : Event -> Prop.

Lemma emitsOnly_ret {A} (a : A) : emitsOnly allowed (ret a).
Proof.
  intros w a' w' H. injection H as _ <-. exists []. rewrite app_nil_r. auto.
Qed.

Lemma emitsOnly_bind {A B} (m : M A) (k : A -> M B) :
  emitsOnly allowed m -> (forall a, emitsOnly allowed (k a)) -> emitsOnly allowed (bind m k).
Proof.
  intros Hm Hk w b w' H. unfold bind in H.
  destruct (m w) as [a w1 | |] eqn:Hmw; try discriminate.
  destruct (Hm _ _ _ Hmw) as (l1 & He1 & Hl1).
  destruct (Hk a _ _ _ H) as (l2 & He2 & Hl2).
  exists (l1 ++ l2). rewrite He2, He1, app_assoc. split; [reflexivity |].
  apply Forall_app. auto.
Qed.

Lemma emitsOnly_undefined {A} : emitsOnly allowed (@undefined E A).
Proof. intros w a w' H. discriminate. Qed.

Lemma emitsOnly_outOfFuel {A} : emitsOnly allowed (@outOfFuel E A).
Proof. intros w a w' H. discriminate. Qed.

Lemma emitsOnly_raw : emitsOnly allowed raw.
Proof.
  intros w a w' H. unfold raw in H.
  destruct (engine_next (rndEngine w)). injection H as _ <-.
  exists []. simpl. rewrite app_nil_r. auto.
Qed.

Lemma emitsOnly_uniform_int a b : emitsOnly allowed (uniform_int a b).
Proof.
  unfold uniform_int. destruct (b <? a)%Z; [apply emitsOnly_undefined |].
  apply emitsOnly_bind; [apply emitsOnly_raw | intros; apply emitsOnly_ret].
Qed.

Lemma emitsOnly_bernoulli p : emitsOnly allowed (bernoulli p).
Proof.
  apply emitsOnly_bind; [apply emitsOnly_raw | intros; apply emitsOnly_ret].
Qed.

Lemma emitsOnly_discrete ws : emitsOnly allowed (discrete ws).
Proof.
  apply emitsOnly_bind; [apply emitsOnly_raw | intros; apply emitsOnly_ret].
Qed.

Lemma emitsOnly_index {A} (v : list A) i : emitsOnly allowed (index v i).
Proof.
  unfold index. destruct (i <? 0)%Z; [apply emitsOnly_undefined |].
  destruct (nth_error v (Z.to_nat i));
    [apply emitsOnly_ret | apply emitsOnly_undefined].
Qed.

Lemma emitsOnly_say s : allowed (Print s) -> emitsOnly allowed (say s).
Proof.
  intros Ha w a w' H. injection H as _ <-. exists [Print s]. simpl. auto.
Qed.

End Traces.

(* ================================================================== *)
(** * Primitive sets: mutation *)
(* ================================================================== *)

Section PSSMutation.
Import Random PSS.
Context {E : RandomEngine} {K : Kernel}.
Variable c : PrimitiveSetCreator.

(** C9 (as amended).  For a Sphere primitive p, [mutatePrimitive] draws the
    cutout flag anew with probability 1/2 and changes nothing else: it
    returns p with its cutout flag set to the drawn value, so that function,
    manifolds and kind are those of p. *)
Theorem mutatePrimitive_sphere_redraws_cutout_only
  (p : Primitive) (angleEpsilon : Q) (w : World) :
  ptype p = PrimitiveType.Sphere ->
  exists cut w',
    bernoulli (1 # 2) w = Ok cut w'
    /\ mutatePrimitive c p angleEpsilon w = Ok (set_cutout cut p) w'
    /\ imFunc (set_cutout cut p) = imFunc p
    /\ ms (set_cutout cut p) = ms p
    /\ ptype (set_cutout cut p) = ptype p
    /\ cutout (set_cutout cut p) = cut.
Proof.
  intros Hty. destruct (bernoulli_ok (1 # 2) w) as (cut & w' & Hb & _).
  exists cut, w'. split; [exact Hb |].
  split; [| repeat split].
  unfold mutatePrimitive. rewrite Hty. unfold bind at 1. cbn [ret].
  unfold bind. rewrite Hb. reflexivity.
Qed.

Lemma createCylinderPrimitive_trace m planes :
  emitsOnly createLine (createCylinderPrimitive m planes).
Proof.
  unfold createCylinderPrimitive.
  destruct planes as [| plane0 [| plane1 [| plane2 rest]]].
  - apply emitsOnly_bind; [apply emitsOnly_say; reflexivity |].
    intros _. apply emitsOnly_ret.
  - destruct (estimateSecondCylinderPlaneFromPointCloud m plane0);
      [apply emitsOnly_ret | apply emitsOnly_undefined].
  - apply emitsOnly_ret.
  - apply emitsOnly_ret.
Qed.

Lemma pickCandidate_trace candidates :
  emitsOnly createLine (pickCandidate candidates).
Proof.
  destruct candidates; [apply emitsOnly_ret |].
  unfold pickCandidate.
  apply emitsOnly_bind; [apply emitsOnly_uniform_int | intros i].
  apply emitsOnly_bind; [apply emitsOnly_index | intros m'].
  apply emitsOnly_ret.
Qed.

Lemma selectCaps_trace k cyl eps :
  forall planes, emitsOnly createLine (selectCaps c k cyl eps planes).
Proof.
  induction k as [| k IH]; intros planes; [apply emitsOnly_ret |].
  cbn [selectCaps]. apply emitsOnly_bind; [apply pickCandidate_trace |].
  intros [m |]; apply IH.
Qed.

Ltac trace_step :=
  first [ apply emitsOnly_ret
        | apply pickCandidate_trace
        | apply emitsOnly_uniform_int
        | apply emitsOnly_bernoulli
        | apply emitsOnly_index
        | apply selectCaps_trace
        | apply createCylinderPrimitive_trace ].

Lemma createBoxCase_trace : emitsOnly createLine (createBoxCase c).
Proof.
  unfold createBoxCase, getParallelPlane, getPerpendicularPlane, getManifold.
  repeat (apply emitsOnly_bind; [trace_step | intros [? |]; [| trace_step]]).
  trace_step.
Qed.

Lemma createPrimitive_trace : emitsOnly createLine (createPrimitive c).
Proof.
  unfold createPrimitive.
  apply emitsOnly_bind.
  - unfold getRandomPrimitiveType.
    apply emitsOnly_bind; [trace_step | intros k].
    apply emitsOnly_bind; [trace_step | intros ty]. trace_step.
  - intros ty. apply emitsOnly_bind.
    + destruct ty; [trace_step | apply createBoxCase_trace | |].
      * unfold getManifold.
        apply emitsOnly_bind; [trace_step | intros [cyl |]; [| trace_step]].
        apply emitsOnly_bind; [trace_step | intros k].
        apply emitsOnly_bind; [trace_step | intros planes]. trace_step.
      * unfold getManifold.
        apply emitsOnly_bind; [trace_step | intros [s |]; trace_step].
    + intros pr. apply emitsOnly_bind; [trace_step | intros; trace_step].
Qed.

Lemma fillSet_trace fuel setSize :
  forall ps, emitsOnly createLine (fillSet c fuel setSize ps).
Proof.
  induction fuel as [| fuel IH]; intros ps; cbn [fillSet];
    destruct (Z.of_nat (List.length ps) <? setSize)%Z;
    try apply emitsOnly_ret; [apply emitsOnly_outOfFuel |].
  apply emitsOnly_bind; [apply createPrimitive_trace | intros pr].
  destruct (negb (isNone pr)); apply IH.
Qed.

Lemma create_trace fuel : emitsOnly createLine (create c fuel).
Proof.
  unfold create. apply emitsOnly_bind; [apply emitsOnly_uniform_int |].
  intros setSize. apply fillSet_trace.
Qed.

(** C10.  On the empty set, [mutate] runs the branch of the NEW mutation
    whatever kind was drawn: it says so and returns what [create] returns.
    A non-empty set with the kind NEW drawn behaves the same.  When the call
    on the empty set returns, its console output is the line of the NEW
    branch followed by lines of the builders only: none of the branches
    REPLACE, MODIFY, ADD, REMOVE, which index into the set, has run. *)
Theorem mutate_empty_is_new (fuel : nat) (w : World) :
  mutate c fuel [] w
  = bind (discrete (mutationDistribution c)) (fun _ => newBranch c fuel) w
  /\ (forall ps mt w1,
        discrete (mutationDistribution c) w = Ok mt w1 ->
        mt = MutationType.NEW ->
        mutate c fuel ps w = newBranch c fuel w1
        /\ mutate c fuel [] w = newBranch c fuel w1)
  /\ (forall ps' w',
        mutate c fuel [] w = Ok ps' w' ->
        exists l, events w' = events w ++ Print "Mutation New" :: l
                  /\ Forall createLine l).
Proof.
  assert (Hempty : mutate c fuel [] w
            = bind (discrete (mutationDistribution c))
                   (fun _ => newBranch c fuel) w).
  { unfold mutate, bind.
    destruct (discrete (mutationDistribution c) w) as [mt w1 | |];
      [| reflexivity | reflexivity].
    cbn [List.length Nat.eqb]. rewrite orb_true_r. reflexivity. }
  split; [exact Hempty |]. split.
  - intros ps mt w1 Hd Hmt. split.
    + unfold mutate, bind at 1. rewrite Hd, Hmt. reflexivity.
    + rewrite Hempty. unfold bind at 1. rewrite Hd. reflexivity.
  - intros ps' w' Hrun. rewrite Hempty in Hrun. unfold bind at 1 in Hrun.
    destruct (discrete (mutationDistribution c) w) as [mt w1 | |] eqn:Hd;
      try discriminate.
    destruct (@emitsOnly_discrete _ (fun _ => False) _ _ _ _ Hd) as (l0 & He0 & Hl0).
    assert (l0 = []) by (destruct l0; [reflexivity | inversion Hl0; tauto]).
    subst l0. rewrite app_nil_r in He0.
    unfold newBranch, bind at 1 in Hrun. cbn [say emit] in Hrun.
    destruct (create_trace fuel _ Hrun) as (l & He & Hl).
    exists l. split; [| exact Hl].
    rewrite He. cbn [events]. rewrite He0, <- app_assoc. reflexivity.
Qed.

End PSSMutation.

(* ================================================================== *)
(** * Boxes: orientation of the plane pairs *)
(* ================================================================== *)

Section Boxes.
Import Random PSS.
Open Scope Q_scope.

Lemma Qltb_true (a b : Q) : Qltb a b = true <-> a < b.
Proof.
  unfold Qltb. split; intros H.
  - apply Qnot_le_lt. intros Hle. apply Qle_bool_iff in Hle.
    rewrite Hle in H. discriminate.
  - destruct (Qle_bool b a) eqn:Hb; [| reflexivity].
    apply Qle_bool_iff in Hb. exfalso. exact (Qlt_not_le _ _ H Hb).
Qed.

Lemma Qltb_false (a b : Q) : Qltb a b = false <-> b <= a.
Proof.
  unfold Qltb. split; intros H.
  - apply Qle_bool_iff. destruct (Qle_bool b a); [reflexivity | discriminate].
  - apply Qle_bool_iff in H. rewrite H. reflexivity.
Qed.

Lemma quotient_ge0_spec (num den : Q) :
  ~ den == 0 -> (quotient_ge0 num den = true <-> 0 <= num / den).
Proof.
  intros Hden. unfold quotient_ge0.
  destruct (Qeq_bool den 0) eqn:Hz.
  - apply Qeq_bool_iff in Hz. contradiction.
  - apply Qle_bool_iff.
Qed.

Lemma dot_vscale_l k a b : dot (vscale k a) b == k * dot a b.
Proof. unfold dot, vscale. simpl. ring. Qed.

Lemma dot_vscale_r k a b : dot a (vscale k b) == k * dot a b.
Proof. unfold dot, vscale. simpl. ring. Qed.

Lemma dot_comm a b : dot a b == dot b a.
Proof. unfold dot. ring. Qed.

(** Rewrites a reach whose normals were scaled by -1 into [q] or its
    opposite, and closes the sign goal. *)
Ltac settle_reach q Hd :=
  rewrite ?dot_vscale_r, ?dot_vscale_l;
  match goal with
  | |- ?e <= 0 =>
    let Hq := fresh "Hq" in
    first [ assert (Hq : e == q) by (unfold q; field; exact Hd)
          | assert (Hq : e == -1 * q) by (unfold q; field; exact Hd) ];
    rewrite Hq; clearbody q; lra
  end.

(** One turn of the loop leaves the pair facing apart, when the two normals
    are not perpendicular. *)
Lemma orientPair_faces (a b : Manifold) :
  ~ dot (n a) (n b) == 0 ->
  faceApart (fst (orientPair a b)) (snd (orientPair a b)).
Proof.
  intros Hden.
  assert (Hden' : ~ dot (n b) (n a) == 0)
    by (intros H; apply Hden; rewrite dot_comm; exact H).
  unfold orientPair, faceApart, normalReach.
  pose proof (quotient_ge0_spec (dot (vsub (p b) (p a)) (n b)) Hden) as H1.
  pose proof (quotient_ge0_spec (dot (vsub (p a) (p b)) (n a)) Hden') as H2.
  set (q1 := dot (vsub (p b) (p a)) (n b) / dot (n a) (n b)) in *.
  set (q2 := dot (vsub (p a) (p b)) (n a) / dot (n b) (n a)) in *.
  destruct (quotient_ge0 _ (dot (n a) (n b))) eqn:E1;
    destruct (quotient_ge0 _ (dot (n b) (n a))) eqn:E2;
    cbn [fst snd set_n p n].
  - assert (0 <= q1) by (apply H1; reflexivity).
    assert (0 <= q2) by (apply H2; reflexivity).
    split; [settle_reach q1 Hden | settle_reach q2 Hden'].
  - assert (0 <= q1) by (apply H1; reflexivity).
    assert (~ 0 <= q2) by (intros Hc; apply H2 in Hc; discriminate).
    split; [settle_reach q1 Hden | settle_reach q2 Hden'].
  - assert (~ 0 <= q1) by (intros Hc; apply H1 in Hc; discriminate).
    assert (0 <= q2) by (apply H2; reflexivity).
    split; [settle_reach q1 Hden | settle_reach q2 Hden'].
  - assert (~ 0 <= q1) by (intros Hc; apply H1 in Hc; discriminate).
    assert (~ 0 <= q2) by (intros Hc; apply H2 in Hc; discriminate).
    split; [settle_reach q1 Hden | settle_reach q2 Hden'].
Qed.

Lemma orientPair_flips (a b : Manifold) :
  sameUpToFlip a (fst (orientPair a b))
  /\ sameUpToFlip b (snd (orientPair a b)).
Proof.
  unfold orientPair, sameUpToFlip.
  destruct (quotient_ge0 _ _); destruct (quotient_ge0 _ _);
    cbn [fst snd set_n type p n r pc]; repeat split; auto.
Qed.

Context {K : Kernel}.

(** C4 (as amended).  [createBoxPrimitive] returns None when it is not
    given exactly 6 planes, and when the polytope of the oriented planes is
    empty.  Otherwise it returns a Box whose manifold set holds the 6 planes
    in their order, pair by pair at the indices (0,1), (2,3), (4,5), each
    with its point kept and its normal kept or negated, such that the planes
    of every pair whose normals are not perpendicular face apart: each
    normal points away from the other plane of its pair. *)
Theorem createBoxPrimitive_spec (planes : ManifoldSet) :
  (List.length planes <> 6%nat -> createBoxPrimitive planes = Primitive_None)
  /\ (List.length planes = 6%nat ->
      IFPolytope_empty (map p (orientPairs planes)) (map n (orientPairs planes))
      = true ->
      createBoxPrimitive planes = Primitive_None)
  /\ (List.length planes = 6%nat ->
      IFPolytope_empty (map p (orientPairs planes)) (map n (orientPairs planes))
      = false ->
      exists f ms',
        createBoxPrimitive planes = mkPrimitive f ms' PrimitiveType.Box false
        /\ List.length ms' = 6%nat
        /\ forall i, (i < 3)%nat ->
             exists a b a' b',
               nth_error planes (2 * i) = Some a
               /\ nth_error planes (2 * i + 1) = Some b
               /\ nth_error ms' (2 * i) = Some a'
               /\ nth_error ms' (2 * i + 1) = Some b'
               /\ sameUpToFlip a a' /\ sameUpToFlip b b'
               /\ (~ dot (n a) (n b) == 0 -> faceApart a' b')).
Proof.
  unfold createBoxPrimitive. split; [| split].
  - intros Hlen. destruct (Nat.eqb_spec (List.length planes) 6);
      [contradiction | reflexivity].
  - intros Hlen Hempty. rewrite Hlen, Hempty. reflexivity.
  - intros Hlen Hempty. rewrite Hlen, Hempty. cbn [Nat.eqb negb].
    destruct planes as [| a0 [| a1 [| a2 [| a3 [| a4 [| a5 [| ? ?]]]]]]];
      try discriminate.
    eexists; eexists. split; [reflexivity |].
    cbn [orientPairs].
    destruct (orientPair a0 a1) as [a0' a1'] eqn:E01.
    destruct (orientPair a2 a3) as [a2' a3'] eqn:E23.
    destruct (orientPair a4 a5) as [a4' a5'] eqn:E45.
    split; [reflexivity |].
    intros i Hi.
    assert (Hcases : i = 0%nat \/ i = 1%nat \/ i = 2%nat) by lia.
    destruct Hcases as [-> | [-> | ->]]; cbn [Nat.mul Nat.add nth_error].
    + exists a0, a1, a0', a1'. repeat (split; [reflexivity |]).
      pose proof (orientPair_flips a0 a1) as [Hf1 Hf2].
      pose proof (@orientPair_faces a0 a1) as Hface.
      rewrite E01 in *. cbn [fst snd] in *. auto.
    + exists a2, a3, a2', a3'. repeat (split; [reflexivity |]).
      pose proof (orientPair_flips a2 a3) as [Hf1 Hf2].
      pose proof (@orientPair_faces a2 a3) as Hface.
      rewrite E23 in *. cbn [fst snd] in *. auto.
    + exists a4, a5, a4', a5'. repeat (split; [reflexivity |]).
      pose proof (orientPair_flips a4 a5) as [Hf1 Hf2].
      pose proof (@orientPair_faces a4 a5) as Hface.
      rewrite E45 in *. cbn [fst snd] in *. auto.
Qed.

End Boxes.

(* ================================================================== *)
(** * Cylinders: caps and height *)
(* ================================================================== *)

Section Cylinders.
Import Random PSS.
Open Scope Q_scope.

(** [axisHit] is the one point that the axis and a plane not parallel to it
    share. *)
Lemma axisHit_is_the_intersection (l0 l : Vector3d) (plane : Manifold) :
  ~ dot l (n plane) == 0 ->
  onLine l0 l (axisHit l0 l plane)
  /\ onPlane plane (axisHit l0 l plane)
  /\ forall x, onLine l0 l x -> onPlane plane x ->
               veq x (axisHit l0 l plane).
Proof.
  intros Hden. split; [| split].
  - exists (dot (vsub (p plane) l0) (n plane) / dot l (n plane)).
    unfold axisHit, veq. repeat split; reflexivity.
  - unfold onPlane, axisHit.
    destruct l0 as [a0 a1 a2], l as [l1 l2 l3], plane as [ty [p1 p2 p3] [n1 n2 n3] rr cc].
    unfold dot, vsub, vadd, vscale in *. cbn [vx vy vz p n] in *.
    field. exact Hden.
  - intros x [t (Hx & Hy & Hz)] Hon.
    unfold onPlane in Hon. unfold axisHit.
    destruct l0 as [a0 a1 a2], l as [l1 l2 l3], x as [x1 x2 x3],
             plane as [ty [p1 p2 p3] [n1 n2 n3] rr cc].
    unfold dot, vsub, vadd, vscale, veq in *. cbn [vx vy vz p n] in *.
    rewrite Hx, Hy, Hz in Hon.
    assert (Ht : t == ((p1 - a0) * n1 + (p2 - a1) * n2 + (p3 - a2) * n3)
                      / (l1 * n1 + l2 * n2 + l3 * n3)).
    { apply (Qmult_inj_r _ _ (l1 * n1 + l2 * n2 + l3 * n3) Hden).
      rewrite Qmult_comm. rewrite (Qmult_comm (_ / _)).
      rewrite Qmult_div_r by exact Hden. lra. }
    rewrite Hx, Hy, Hz, Ht. repeat split; reflexivity.
Qed.

Context {E : RandomEngine} {K : Kernel}.

(** C5 (as amended).  A cylinder built from one or two cap planes (a single
    cap needs points on the manifold to estimate the second from) is a
    Cylinder over the manifold and two caps.  Its height is the distance
    between the two points [axisHit] computes, and for a cap that is not
    parallel to the axis that point is the intersection of the axis with the
    cap.  An estimated second cap has the negated normal of the given one,
    so that these two are parallel.  Two given caps are taken as they are:
    the builder does not compare their normals. *)
Theorem createCylinderPrimitive_caps_and_height
  (m : Manifold) (planes : ManifoldSet) (w : World) :
  match planes with
  | [_] => pc m <> []
  | [_; _] => True
  | _ => False
  end ->
  exists plane0 plane1 t,
    createCylinderPrimitive m planes w
    = Ok (mkPrimitive
            (IFCylinder t (vx (r m))
               (norm (vsub (axisHit (p m) (n m) plane0)
                           (axisHit (p m) (n m) plane1))))
            [m; plane0; plane1] PrimitiveType.Cylinder false) w
    /\ (planes = [plane0; plane1]
        \/ (planes = [plane0]
            /\ type plane1 = ManifoldType.Plane
            /\ n plane1 = vscale (-1) (n plane0)))
    /\ forall plane, In plane [plane0; plane1] ->
         ~ dot (n m) (n plane) == 0 ->
         onLine (p m) (n m) (axisHit (p m) (n m) plane)
         /\ onPlane plane (axisHit (p m) (n m) plane)
         /\ forall x, onLine (p m) (n m) x -> onPlane plane x ->
                      veq x (axisHit (p m) (n m) plane).
Proof.
  intros Hshape.
  destruct planes as [| plane0 [| plane1 [| ? ?]]]; try contradiction.
  - unfold createCylinderPrimitive, estimateSecondCylinderPlaneFromPointCloud.
    destruct (pc m) as [| [x nx] rest] eqn:Hpc; [contradiction |].
    cbn [colwise].
    eexists plane0, _, _. split; [reflexivity |].
    split; [right; repeat split |].
    intros plane _ Hden. apply axisHit_is_the_intersection. exact Hden.
  - exists plane0, plane1. eexists. split; [reflexivity |].
    split; [left; reflexivity |].
    intros plane _ Hden. apply axisHit_is_the_intersection. exact Hden.
Qed.

End Cylinders.

(* ================================================================== *)
(** * The geometry score of the primitive-set ranker *)
(* ================================================================== *)

Section GeometryScore.
Import Random PSS.
Open Scope Q_scope.
Context {K : Kernel}.

Lemma closest_fold ps point :
  closest ps point = fold_left (closestStep point) ps (DBL_MAX, None).
Proof.
  unfold closest. generalize (DBL_MAX, @None Vector3d).
  induction ps as [| q ps IH]; intros acc; [reflexivity |].
  cbn [fold_left]. rewrite IH. destruct acc. reflexivity.
Qed.

Lemma closestStep_eq point d g q :
  closestStep point (d, g) q
  = if Qltb (absDistance q point) d
    then (absDistance q point, Some (unitGradient q point))
    else (d, g).
Proof. reflexivity. Qed.

(** Primitives that are not closer than the current minimum change
    nothing. *)
Lemma closest_no_update point post :
  forall d g,
    (forall q, In q post -> d <= absDistance q point) ->
    fold_left (closestStep point) post (d, g) = (d, g).
Proof.
  induction post as [| q post IH]; intros d g Hall; [reflexivity |].
  cbn [fold_left]. rewrite closestStep_eq.
  assert (Hq : Qltb (absDistance q point) d = false).
  { apply Qltb_false. apply Hall. left. reflexivity. }
  rewrite Hq. apply IH. intros q' Hin. apply Hall. right. exact Hin.
Qed.

(** Primitives farther than [x] leave the minimum above [x]. *)
Lemma closest_stays_above point pre :
  forall d g x,
    x < d ->
    (forall q, In q pre -> x < absDistance q point) ->
    x < fst (fold_left (closestStep point) pre (d, g)).
Proof.
  induction pre as [| q pre IH]; intros d g x Hd Hall; [exact Hd |].
  cbn [fold_left]. rewrite closestStep_eq.
  destruct (Qltb _ d); apply IH; auto.
  - apply Hall. left. reflexivity.
  - intros q' Hin. apply Hall. right. exact Hin.
  - intros q' Hin. apply Hall. right. exact Hin.
Qed.

(** What the scan returns from a given minimum. *)
Lemma closest_from point ps :
  forall d g,
    (fold_left (closestStep point) ps (d, g) = (d, g)
     /\ forall q, In q ps -> d <= absDistance q point)
    \/ exists pr,
         firstClosest ps point pr
         /\ absDistance pr point < d
         /\ fold_left (closestStep point) ps (d, g)
            = (absDistance pr point, Some (unitGradient pr point)).
Proof.
  induction ps as [| q ps IH]; intros d g.
  - left. split; [reflexivity | intros q []].
  - cbn [fold_left]. rewrite closestStep_eq.
    destruct (Qltb (absDistance q point) d) eqn:Hcmp.
    + apply Qltb_true in Hcmp.
      destruct (IH (absDistance q point) (Some (unitGradient q point)))
        as [[Hsame Hall] | (pr & (pre & post & Heq & Hpre & Hpost) & Hlt & Hres)].
      * right. exists q. split; [| split; [exact Hcmp | exact Hsame]].
        exists [], ps. split; [reflexivity |]. split; [intros q' [] | exact Hall].
      * right. exists pr. split; [| split; [lra | exact Hres]].
        exists (q :: pre), post. split; [now rewrite Heq |].
        split; [| exact Hpost].
        intros q' [<- | Hin]; [exact Hlt | auto].
    + apply Qltb_false in Hcmp.
      destruct (IH d g)
        as [[Hsame Hall] | (pr & (pre & post & Heq & Hpre & Hpost) & Hlt & Hres)].
      * left. split; [exact Hsame |]. intros q' [<- | Hin]; auto.
      * right. exists pr. split; [| split; [exact Hlt | exact Hres]].
        exists (q :: pre), post. split; [now rewrite Heq |].
        split; [| exact Hpost].
        intros q' [<- | Hin]; [lra | auto].
Qed.

Lemma DBL_MAX_large : 1 # 10000 < DBL_MAX.
Proof. reflexivity. Qed.

(** The counters of the loop: the points that pass the test, and all. *)
Lemma geometryCounts_spec (ps : PrimitiveSet) (pc : PointCloud) :
  geometryCounts ps pc
  = (Z.of_nat (List.length (filter (pointValid ps) pc)),
     Z.of_nat (List.length pc)).
Proof.
  unfold geometryCounts.
  assert (H : forall v k,
             fold_left (fun '(validPoints, checkedPoints) row =>
                ((if pointValid ps row then validPoints + 1 else validPoints)%Z,
                 (checkedPoints + 1)%Z)) pc (v, k)
             = ((v + Z.of_nat (List.length (filter (pointValid ps) pc)))%Z,
                (k + Z.of_nat (List.length pc))%Z)).
  { induction pc as [| row pc IH]; intros v k.
    - simpl. f_equal; lia.
    - cbn [fold_left filter]. rewrite IH.
      destruct (pointValid ps row); cbn [List.length]; f_equal; lia. }
  rewrite H. reflexivity.
Qed.

(** C1 (as amended).  In [rank2], a point x with normal nu counts as valid
    if and only if d < 0.0001 and nu . g > 0.9, where d is the least
    |sd_P(x)| over the primitives of the ranked set alone and g is the
    normalised gradient of the first primitive at that distance.  The
    counters and the rank are the same for every choice of the static
    primitives, of the distance epsilon and of the flag that ignores the
    static primitives; the counters are the number of points that pass this
    test and the number of all points. *)
Theorem geometry_score_point_valid
  (rk : PrimitiveSetRanker) (ps : PrimitiveSet) (x nu : Vector3d) :
  (pointValid ps (x, nu) = true
   <-> exists pr,
         firstClosest ps x pr
         /\ absDistance pr x < 1 # 10000
         /\ 9 # 10 < dot nu (unitGradient pr x))
  /\ (forall pc,
        geometryCounts ps pc
        = (Z.of_nat (List.length (filter (pointValid ps) pc)),
           Z.of_nat (List.length pc)))
  /\ (forall statics eps ignore ignore' best,
        rank2 (mkPrimitiveSetRanker (rpc rk) (rms rk) statics eps
                                    (rmaxPrimitiveSetSize rk)) ps ignore best
        = rank2 rk ps ignore' best).
Proof.
  split; [| split; [apply geometryCounts_spec
                   | intros; destruct ps; reflexivity]].
  unfold pointValid. cbn [fst snd]. rewrite closest_fold.
  split.
  - destruct (closest_from x ps DBL_MAX None)
      as [[Hsame _] | (pr & Hfirst & Hlt & Hres)].
    + rewrite Hsame. rewrite andb_false_r. discriminate.
    + rewrite Hres. intros Hv. apply andb_true_iff in Hv.
      destruct Hv as [Hd Hg]. apply Qltb_true in Hd, Hg.
      exists pr. auto.
  - intros (pr & (pre & post & Heq & Hpre & Hpost) & Hd & Hg).
    rewrite Heq, fold_left_app. cbn [fold_left].
    destruct (fold_left (closestStep x) pre (DBL_MAX, None)) as [d1 g1] eqn:Hf.
    assert (Hd1 : absDistance pr x < d1).
    { pose proof (@closest_stays_above x pre DBL_MAX None (absDistance pr x))
        as Habove.
      rewrite Hf in Habove. apply Habove; [| exact Hpre].
      pose proof DBL_MAX_large. lra. }
    rewrite closestStep_eq.
    apply Qltb_true in Hd1. rewrite Hd1.
    rewrite closest_no_update by exact Hpost.
    apply andb_true_iff. split; apply Qltb_true; assumption.
Qed.

End GeometryScore.

(* ================================================================== *)
(** * The pipeline driver: the guard on a Noop input *)
(* ================================================================== *)

Section NoopGuard.
Import Random CSG Pipeline.
Open Scope string_scope.
Context {X : Collaborators}.
Variable output_folder : string.
Variable params : ParameterSet.

Lemma loadEvent_not_optimizer e : loadEvent e -> ~ optimizerCall e.
Proof.
  intros [[s ->] | [-> | [-> | [-> | ->]]]] [H | [H | [H | H]]];
    discriminate.
Qed.

Lemma addsOnly_pret allowed {A} (a : A) : addsOnly allowed (pret a).
Proof. intros tr. exists []. rewrite app_nil_r. split; [reflexivity | auto]. Qed.

Lemma addsOnly_pbind allowed {A B} (m : P A) (k : A -> P B) :
  addsOnly allowed m -> (forall a, addsOnly allowed (k a)) ->
  addsOnly allowed (pbind m k).
Proof.
  intros Hm Hk tr. unfold pbind. destruct (Hm tr) as (l1 & He1 & Hl1).
  destruct (m tr) as [[a | what] tr1]; cbn [snd] in He1; subst tr1.
  - destruct (Hk a (tr ++ l1)%list) as (l2 & He2 & Hl2).
    exists (l1 ++ l2)%list. rewrite He2, app_assoc.
    split; [reflexivity | apply Forall_app; auto].
  - exists l1. split; [reflexivity | exact Hl1].
Qed.

Lemma addsOnly_try_catch allowed {A} (m : P A) (h : string -> P A) :
  addsOnly allowed m -> (forall what, addsOnly allowed (h what)) ->
  addsOnly allowed (try_catch m h).
Proof.
  intros Hm Hh tr. unfold try_catch. destruct (Hm tr) as (l1 & He1 & Hl1).
  destruct (m tr) as [[a | what] tr1]; cbn [snd] in He1; subst tr1.
  - exists l1. split; [reflexivity | exact Hl1].
  - destruct (Hh what (tr ++ l1)%list) as (l2 & He2 & Hl2).
    exists (l1 ++ l2)%list. rewrite He2, app_assoc.
    split; [reflexivity | apply Forall_app; auto].
Qed.

Lemma addsOnly_cout (allowed : Event -> Prop) s :
  allowed (Print s) -> addsOnly allowed (cout s).
Proof. intros Ha tr. exists [Print s]. split; [reflexivity | auto]. Qed.

Lemma addsOnly_call (allowed : Event -> Prop) {A} what (r : Except A) :
  allowed (Call what) -> addsOnly allowed (call what r).
Proof. intros Ha tr. exists [Call what]. split; [reflexivity | auto]. Qed.

Lemma load_events (pp : PipelineParams) :
  addsOnly loadEvent (load output_folder pp).
Proof.
  assert (Hp : forall s, loadEvent (Print s)) by (intros s; left; eauto).
  assert (Hc1 : loadEvent (Call "fromJSONFile")) by (right; auto).
  assert (Hc2 : loadEvent (Call "to_binary_tree")) by (right; auto).
  assert (Hc3 : loadEvent (Call "save_as_obj_mesh")) by (right; auto 6).
  assert (Hc4 : loadEvent (Call "writeNode")) by (right; auto 6).
  unfold load.
  repeat first
    [ apply addsOnly_pret
    | apply addsOnly_cout; apply Hp
    | apply addsOnly_call; assumption
    | apply addsOnly_pbind; [| intros ?]
    | apply addsOnly_try_catch; [| intros ?]
    | match goal with
      | |- addsOnly _ (let '(_, _) := ?x in _) => destruct x
      | |- addsOnly _ (if ?b then _ else _) => destruct b
      end ].
Qed.

(** C7.  When the tree that [load] returns is a Noop operator, [run]
    returns exit code 1 in the world [load] left, so that nothing but the
    reading and writing of the input tree has been called, no optimiser in
    particular.  When reading the tree file throws, [load] returns the Noop
    node and [run] exit code 1, after the call of the reader alone. *)
Theorem run_noop_input_exits_1 (tr : list Event) :
  (forall node tr',
     load output_folder (read_pipeline_params params) tr = (Returned node, tr') ->
     operationType node = Noop ->
     run output_folder params tr = (Returned 1%Z, tr')
     /\ exists l, tr' = (tr ++ l)%list
                  /\ Forall (fun e => ~ optimizerCall e) l)
  /\ (forall what,
        fromJSONFile (tree_file (read_pipeline_params params)) = Threw what ->
        exists l,
          load output_folder (read_pipeline_params params) tr
          = (Returned opNo, (tr ++ l)%list)
          /\ run output_folder params tr = (Returned 1%Z, (tr ++ l)%list)
          /\ Forall (fun e => (exists s, e = Print s)
                              \/ e = Call "fromJSONFile") l).
Proof.
  split.
  - intros node tr' Hload Hnoop. split.
    + unfold run. unfold pbind at 1. rewrite Hload, Hnoop. reflexivity.
    + destruct (load_events (read_pipeline_params params) tr) as (l & Hl & Hall).
      rewrite Hload in Hl. cbn [snd] in Hl. exists l. split; [exact Hl |].
      eapply Forall_impl; [| exact Hall].
      intros e. apply loadEvent_not_optimizer.
  - intros what Hthrow.
    assert (Hload : exists l,
               load output_folder (read_pipeline_params params) tr
               = (Returned opNo, (tr ++ l)%list)
               /\ Forall (fun e => (exists s, e = Print s)
                                   \/ e = Call "fromJSONFile") l).
    { unfold load, pbind, try_catch, call, cout, pret. rewrite Hthrow.
      cbn [negb]. rewrite <- !app_assoc. cbn [app].
      eexists. split; [reflexivity |].
      repeat (apply Forall_cons || apply Forall_nil); eauto. }
    destruct Hload as (l & Hload & Hall). exists l.
    split; [exact Hload |]. split; [| exact Hall].
    unfold run. unfold pbind at 1. rewrite Hload. reflexivity.
Qed.

End NoopGuard.

(* ================================================================== *)
(** * Reproducibility of the creators: the seed and the static
      distribution *)
(* ================================================================== *)

Section SeedDependence.
Import Random CSG.
Context {E : RandomEngine}.
Variable c : CSGNodeCreator.

(** The filler adds children and keeps the operator of its node. *)
Lemma createChilds_operationType (fuel : nat) (maxDepth curDepth : Z) :
  forall node w node' w',
    createChilds c fuel node maxDepth curDepth w = Ok node' w' ->
    operationType node' = operationType node.
Proof.
  destruct fuel as [| fuel]; intros node w node' w' H; [discriminate |].
  cbn [createChilds] in H. revert H.
  generalize (Z.to_nat (clamp (snd (numAllowedChilds node))
                              (fst (numAllowedChilds node)) 2)).
  intros k. revert node w.
  induction k as [| k IHk]; intros node w H.
  - cbn [ret] in H. unfold ret in H. injection H as <- _. reflexivity.
  - unfold bind at 1 in H.
    destruct (bernoulli (_subtreeProb c) w) as [b w1 | |]; try discriminate.
    unfold bind at 1 in H.
    match type of H with
    | match ?m with _ => _ end = _ =>
      destruct m as [child w2 | |]; try discriminate
    end.
    apply IHk in H. rewrite H. destruct node; reflexivity.
Qed.

Hypothesis functions_nonempty : _functions c <> [].
Hypothesis depth_limit_not_0 : _maxTreeDepth c <> 0%Z.

(** [create] draws the root operator first: the first operator code
    decides it. *)
Lemma create_root_operator (w : World) (op : Z) (wa : World) :
  uniform_int 1 3 w = Ok op wa ->
  exists t w',
    create c w = Ok t w' /\ operationType t = operationOfCode op.
Proof.
  intros Hop. unfold create, create_depth.
  destruct (Z.eqb_spec (_maxTreeDepth c) 0) as [H0 | _]; [contradiction |].
  unfold bind at 1. rewrite Hop.
  destruct (@createChilds_depth _ c functions_nonempty
              (S (Z.to_nat (_maxTreeDepth c)))
              (createOperation (operationOfCode op))
              (_maxTreeDepth c) 1 wa ltac:(lia))
    as (t & w' & Hq & _).
  exists t, w'. split; [exact Hq |].
  apply createChilds_operationType in Hq. rewrite Hq. reflexivity.
Qed.

(** The three operator codes stand for three operators. *)
Lemma operationOfCode_differs (x y : Z) :
  (1 <= x <= 3)%Z -> (1 <= y <= 3)%Z -> x <> y ->
  operationOfCode x <> operationOfCode y.
Proof.
  intros Hx Hy Hne.
  assert (Hcx : (x = 1 \/ x = 2 \/ x = 3)%Z) by lia.
  assert (Hcy : (y = 1 \/ y = 2 \/ y = 3)%Z) by lia.
  destruct Hcx as [-> | [-> | ->]]; destruct Hcy as [-> | [-> | ->]];
    cbn; try discriminate; contradiction.
Qed.

(** Engines on which the first operator code differs make [create] return
    trees with different root operators. *)
Lemma create_depends_on_first_draw (w1 w2 : World) (op1 op2 : Z)
  (wa wb : World) :
  uniform_int 1 3 w1 = Ok op1 wa ->
  uniform_int 1 3 w2 = Ok op2 wb ->
  op1 <> op2 ->
  exists t1 w1' t2 w2',
    create c w1 = Ok t1 w1'
    /\ create c w2 = Ok t2 w2'
    /\ operationType t1 = operationOfCode op1
    /\ operationType t2 = operationOfCode op2
    /\ operationType t1 <> operationType t2.
Proof.
  intros Hop1 Hop2 Hne.
  destruct (@create_root_operator w1 op1 wa Hop1) as (t1 & w1' & Hq1 & Ho1).
  destruct (@create_root_operator w2 op2 wb Hop2) as (t2 & w2' & Hq2 & Ho2).
  exists t1, w1', t2, w2'. split; [exact Hq1 |]. split; [exact Hq2 |].
  split; [exact Ho1 |]. split; [exact Ho2 |].
  rewrite Ho1, Ho2.
  destruct (@uniform_int_ok _ 1 3 w1 ltac:(lia)) as (v1 & u1 & Hv1 & Hr1 & _).
  destruct (@uniform_int_ok _ 1 3 w2 ltac:(lia)) as (v2 & u2 & Hv2 & Hr2 & _).
  rewrite Hop1 in Hv1. rewrite Hop2 in Hv2.
  injection Hv1 as -> _. injection Hv2 as -> _.
  apply operationOfCode_differs; assumption.
Qed.

End SeedDependence.

Section StaticDistribution.
Import Random PSS.
Open Scope Q_scope.
Context {E : RandomEngine} {K : Kernel}.

Lemma canonical_range (x : N) : 0 <= canonical x /\ canonical x < 1.
Proof.
  unfold canonical.
  pose proof (N.mod_upper_bound x 4294967296 ltac:(discriminate)) as Hlt.
  apply N2Z.inj_lt in Hlt.
  pose proof (N2Z.is_nonneg (x mod 4294967296)) as Hge.
  unfold Qle, Qlt. cbn [Qnum Qden].
  revert Hlt Hge. generalize (Z.of_N (x mod 4294967296)). intros z Hlt Hge.
  change (Z.of_N 4294967296) with 4294967296%Z in Hlt. lia.
Qed.

(** Weights that are all on NEW yield NEW, whatever the engine yields. *)
Lemma discrete_onlyNew (w : World) :
  exists w', discrete onlyNew w = Ok MutationType.NEW w'
             /\ events w' = events w.
Proof.
  unfold discrete, bind, raw.
  destruct (engine_next (rndEngine w)) as [x e'].
  exists (mkWorld e' (events w)). split; [| reflexivity].
  destruct (canonical_range x) as [H0 H1].
  assert (Hpick : discrete_pick onlyNew
                    (canonical x * fold_right Qplus 0 onlyNew) 0
                  = MutationType.NEW).
  { unfold onlyNew. cbn [fold_right discrete_pick].
    assert (Hv : canonical x * (1 + (0 + (0 + (0 + (0 + 0))))) == canonical x)
      by ring.
    destruct (Qle_bool 1 _) eqn:Hc; [| reflexivity].
    apply Qle_bool_iff in Hc. rewrite Hv in Hc. lra. }
  unfold ret. rewrite Hpick. reflexivity.
Qed.

(** Weights that are all on REMOVE yield REMOVE, whatever the engine
    yields. *)
Lemma discrete_onlyRemove (w : World) :
  exists w', discrete onlyRemove w = Ok MutationType.REMOVE w'
             /\ events w' = events w.
Proof.
  unfold discrete, bind, raw.
  destruct (engine_next (rndEngine w)) as [x e'].
  exists (mkWorld e' (events w)). split; [| reflexivity].
  destruct (canonical_range x) as [H0 H1].
  assert (Hpick : discrete_pick onlyRemove
                    (canonical x * fold_right Qplus 0 onlyRemove) 0
                  = MutationType.REMOVE).
  { unfold onlyRemove. cbn [fold_right discrete_pick].
    assert (Hv : canonical x * (0 + (0 + (0 + (1 + (0 + 0))))) == canonical x)
      by ring.
    set (u := canonical x * (0 + (0 + (0 + (1 + (0 + 0)))))) in *.
    assert (Ha : Qle_bool 0 u = true) by (apply Qle_bool_iff; lra).
    assert (Hb : Qle_bool 0 (u - 0) = true) by (apply Qle_bool_iff; lra).
    assert (Hc : Qle_bool 0 (u - 0 - 0) = true) by (apply Qle_bool_iff; lra).
    rewrite Ha, Hb, Hc. cbn [negb].
    destruct (Qle_bool 1 _) eqn:Hd; [| reflexivity].
    apply Qle_bool_iff in Hd. lra. }
  unfold ret. rewrite Hpick. reflexivity.
Qed.

Variable c : PrimitiveSetCreator.
Hypothesis iterations_positive : (1 <= maxMutationIterations c)%Z.

(** The loop of the REMOVE mutation ends within its budget, returns its set
    and prints its line at every turn. *)
Lemma mutateLoop_remove (fuel : nat) :
  forall i ps w,
    (Z.max 0 (maxMutationIterations c - i) < Z.of_nat fuel)%Z ->
    exists w' k,
      mutateLoop c fuel MutationType.REMOVE i ps w = Ok ps w'
      /\ events w' = events w ++ repeat (Print "Mutation Remove") k.
Proof.
  induction fuel as [| fuel IH]; intros i ps w Hfuel; [lia |].
  cbn [mutateLoop]. unfold bind at 1.
  destruct (@uniform_int_ok _ 1 (maxMutationIterations c) w
              iterations_positive) as (bound & w1 & Hq & Hb & He).
  rewrite Hq. destruct (Z.ltb_spec i bound) as [Hlt | Hge].
  - unfold mutateStep. cbn [Z.eqb MutationType.REMOVE MutationType.REPLACE
                              MutationType.MODIFY Pos.eqb].
    unfold bind at 1. unfold bind at 1. cbn [say emit ret].
    match goal with
    | |- context [mutateLoop c fuel _ _ ps ?w2] =>
      destruct (IH (i + 1)%Z ps w2 ltac:(lia)) as (w' & k & Hr & Hev)
    end.
    exists w', (S k). split; [exact Hr |].
    rewrite Hev. cbn [events repeat]. rewrite He, <- app_assoc. reflexivity.
  - exists w1, 0%nat. split; [reflexivity |].
    cbn [repeat]. rewrite app_nil_r. exact He.
Qed.

End StaticDistribution.

Section StaticDistributionRuns.
Import Random PSS.
Open Scope Q_scope.
Context {E : RandomEngine} {K : Kernel}.
Variable c : PrimitiveSetCreator.
Variable dd : MutateStatic.
Variable fuel : nat.
Variable ps : PrimitiveSet.
Variable w : World.

(** With the static weights all on REMOVE, [mutate] returns its set. *)
Lemma mutate_under_onlyRemove :
  ps <> [] -> (1 <= maxMutationIterations c)%Z ->
  staticWeights dd c = onlyRemove ->
  exists w' k,
    fst (mutate_in_process dd c fuel ps) w = Ok ps w'
    /\ events w' = events w ++ repeat (Print "Mutation Remove") k.
Proof.
  intros Hps Hit Hdd. unfold mutate_in_process. cbn [fst]. rewrite Hdd.
  unfold mutate. cbn [mutationDistribution set_mutationDistribution].
  unfold bind at 1.
  destruct (discrete_onlyRemove w) as (w1 & Hd & He1). rewrite Hd.
  assert (Hlen : Nat.eqb (List.length ps) 0 = false)
    by (destruct ps; [congruence | reflexivity]).
  rewrite Hlen.
  change ((MutationType.REMOVE =? MutationType.NEW)%Z || false) with false.
  cbv iota.
  destruct (@mutateLoop_remove E K (set_mutationDistribution onlyRemove c)
              Hit (S (Z.to_nat (maxMutationIterations c))) 0%Z ps w1)
    as (w' & k & Hr & He).
  { cbn [maxMutationIterations set_mutationDistribution]. lia. }
  exists w', k. split; [exact Hr |]. rewrite He, He1. reflexivity.
Qed.

(** With the static weights all on NEW, [mutate] runs the NEW branch. *)
Lemma mutate_under_onlyNew (out : PrimitiveSet) (w' : World) :
  staticWeights dd c = onlyNew ->
  fst (mutate_in_process dd c fuel ps) w = Ok out w' ->
  exists l, events w' = events w ++ Print "Mutation New" :: l.
Proof.
  intros Hdd. unfold mutate_in_process. cbn [fst]. rewrite Hdd.
  unfold mutate. cbn [mutationDistribution set_mutationDistribution].
  unfold bind at 1.
  destruct (discrete_onlyNew w) as (w1 & Hd & He1). rewrite Hd.
  change ((MutationType.NEW =? MutationType.NEW)%Z) with true.
  cbn [orb]. unfold bind at 1. cbn [say emit]. intros Hrun.
  destruct (@create_trace E K (set_mutationDistribution onlyNew c) fuel
              _ _ _ Hrun) as (l & He & _).
  exists l. rewrite He. cbn [events]. rewrite He1, <- app_assoc. reflexivity.
Qed.

End StaticDistributionRuns.

Section StaticDistributionMatters.
Import Random PSS.
Context {E : RandomEngine} {K : Kernel}.

(** With equal engines and equal inputs, the result of [mutate] follows the
    static weights. *)
Lemma mutate_static_sensitive (c : PrimitiveSetCreator)
  (dd1 dd2 : MutateStatic) (fuel : nat) (ps : PrimitiveSet) (w : World) :
  ps <> [] -> (1 <= maxMutationIterations c)%Z ->
  staticWeights dd1 c = onlyNew -> staticWeights dd2 c = onlyRemove ->
  fst (mutate_in_process dd1 c fuel ps) w
  <> fst (mutate_in_process dd2 c fuel ps) w.
Proof.
  intros Hps Hit H1 H2 Heq.
  destruct (@mutate_under_onlyRemove E K c dd2 fuel ps w Hps Hit H2)
    as (w' & k & Hr & He).
  rewrite Hr in Heq.
  destruct (@mutate_under_onlyNew E K c dd1 fuel ps w ps w' H1 Heq)
    as (l & Hl).
  rewrite He in Hl. apply app_inv_head in Hl.
  destruct k; cbn [repeat] in Hl; discriminate.
Qed.

End StaticDistributionMatters.

Section Reproducibility.
Import Random.
Context {E : RandomEngine} {K : PSS.Kernel}.


End Reproducibility.

Section ReproducibilityExamples.
Import Random Examples.



End ReproducibilityExamples.


Section ClosedPSS.
Import Random PSS Examples.PSSEx.
Open Scope Q_scope.

(** C1 (as stated) fails, on both counts.  With distance epsilon 0.2, a
    point 0.1 above the top face of the unit cube is valid by the wording
    and not counted by [rank2], which compares with 0.0001.  A point on the
    top face of a static unit cube is valid by the wording when the ranked
    set is a cube far away, and not counted by [rank2], which does not look
    at the static primitives. *)
Lemma geometry_score_counterexample :
  spec_pointValid (K := example_kernel) (rankerOver [pointAbove] [])
                  [unitBox] false pointAbove = true
  /\ pointValid (K := example_kernel) [unitBox] pointAbove = false
  /\ spec_pointValid (K := example_kernel) (rankerOver [pointOnTop] [unitBox])
                     [farBox] false pointOnTop = true
  /\ pointValid (K := example_kernel) [farBox] pointOnTop = false.
Proof. repeat split; vm_compute; reflexivity. Qed.

(** The unit cube: the builder returns a Box with its pairs facing apart. *)
Lemma createBoxPrimitive_spec_witness :
  exists f ms',
    createBoxPrimitive (K := example_kernel) (cubePlanes 0)
    = mkPrimitive f ms' PrimitiveType.Box false
    /\ List.length ms' = 6%nat
    /\ forall i, (i < 3)%nat ->
         exists a b a' b',
           nth_error (cubePlanes 0) (2 * i) = Some a
           /\ nth_error (cubePlanes 0) (2 * i + 1) = Some b
           /\ nth_error ms' (2 * i) = Some a'
           /\ nth_error ms' (2 * i + 1) = Some b'
           /\ sameUpToFlip a a' /\ sameUpToFlip b b'
           /\ (~ dot (n a) (n b) == 0 -> faceApart a' b').
Proof.
  apply (proj2 (proj2 (@createBoxPrimitive_spec example_kernel (cubePlanes 0))));
    reflexivity.
Defined.

(** C4 (as stated) fails.  The six planes of the unit cube are given with
    the planes of every pair facing each other.  The builder negates both
    normals of every pair: the planes x = 0 and x = 1 come back with the
    normals (-1,0,0) and (1,0,0), each of which leads away from the other
    plane, so that the pair faces apart and not each other. *)
Lemma createBoxPrimitive_facing_counterexample :
  exists a b others f a' b' others',
    facingCubePlanes = a :: b :: others
    /\ faceEachOther a b
    /\ createBoxPrimitive (K := example_kernel) facingCubePlanes
       = mkPrimitive f (a' :: b' :: others') PrimitiveType.Box false
    /\ n a' = vscale (-1) (n a)
    /\ n b' = vscale (-1) (n b)
    /\ normalReach a' b' == -1
    /\ normalReach b' a' == -1
    /\ ~ faceEachOther a' b'.
Proof.
  do 7 eexists.
  split; [reflexivity |].
  split; [split; vm_compute; reflexivity |].
  split; [vm_compute; reflexivity |].
  split; [reflexivity |]. split; [reflexivity |].
  split; [reflexivity |]. split; [reflexivity |].
  intros [H _]. vm_compute in H. discriminate.
Qed.

(** One given cap: the second is estimated from the two points. *)
Lemma createCylinderPrimitive_caps_and_height_witness :
  exists plane0 plane1 t,
    createCylinderPrimitive (E := scripted) (K := example_kernel)
                            cylinderM [capUp] (scriptedWorld [])
    = Ok (mkPrimitive
            (IFCylinder t (vx (r cylinderM))
               (norm (Kernel := example_kernel)
                     (vsub (axisHit (p cylinderM) (n cylinderM) plane0)
                           (axisHit (p cylinderM) (n cylinderM) plane1))))
            [cylinderM; plane0; plane1] PrimitiveType.Cylinder false)
         (scriptedWorld [])
    /\ ([capUp] = [plane0; plane1]
        \/ ([capUp] = [plane0]
            /\ type plane1 = ManifoldType.Plane
            /\ n plane1 = vscale (-1) (n plane0)))
    /\ forall plane, In plane [plane0; plane1] ->
         ~ dot (n cylinderM) (n plane) == 0 ->
         onLine (p cylinderM) (n cylinderM)
                (axisHit (p cylinderM) (n cylinderM) plane)
         /\ onPlane plane (axisHit (p cylinderM) (n cylinderM) plane)
         /\ forall x, onLine (p cylinderM) (n cylinderM) x -> onPlane plane x ->
                      veq x (axisHit (p cylinderM) (n cylinderM) plane).
Proof.
  apply (@createCylinderPrimitive_caps_and_height scripted example_kernel
           cylinderM [capUp] (scriptedWorld [])).
  discriminate.
Defined.

(** C5 (as stated) fails: the creator builds a cylinder with the two caps
    it selected, each within the angle epsilon of the axis direction, and
    these caps are not parallel to each other within that epsilon. *)
Lemma cylinder_caps_counterexample :
  exists pr w',
    createPrimitive (E := scripted) (K := example_kernel) capCreator
                    (scriptedWorld [0; 0; 2; 0; 0; 0]%N) = Ok pr w'
    /\ ptype pr = PrimitiveType.Cylinder
    /\ ms pr = [cylinderM; capUp; capDown]
    /\ Qltb (cos (Kernel := example_kernel) (angleEpsilon capCreator))
            (Qabs (dot (n cylinderM) (n capUp))) = true
    /\ Qltb (cos (Kernel := example_kernel) (angleEpsilon capCreator))
            (Qabs (dot (n cylinderM) (n capDown))) = true
    /\ Qltb (cos (Kernel := example_kernel) (angleEpsilon capCreator))
            (Qabs (dot (n capUp) (n capDown))) = false.
Proof.
  eexists; eexists. split; [vm_compute; reflexivity |].
  repeat split; vm_compute; reflexivity.
Qed.

Lemma mutatePrimitive_sphere_redraws_cutout_only_witness :
  exists cut w',
    bernoulli (E := scripted) (1 # 2) (scriptedWorld [4294967295%N])
    = Ok cut w'
    /\ mutatePrimitive (K := example_kernel) capCreator spherePrimitive
                       (349 # 1000) (scriptedWorld [4294967295%N])
       = Ok (set_cutout cut spherePrimitive) w'
    /\ imFunc (set_cutout cut spherePrimitive) = imFunc spherePrimitive
    /\ ms (set_cutout cut spherePrimitive) = ms spherePrimitive
    /\ ptype (set_cutout cut spherePrimitive) = ptype spherePrimitive
    /\ cutout (set_cutout cut spherePrimitive) = cut.
Proof.
  apply (@mutatePrimitive_sphere_redraws_cutout_only scripted example_kernel
           capCreator spherePrimitive (349 # 1000)
           (scriptedWorld [4294967295%N])).
  reflexivity.
Defined.

(** C9 (as stated) fails: a sphere that is no cutout comes back as one when
    the draw falls below 1/2. *)
Lemma mutatePrimitive_sphere_counterexample :
  exists pr w',
    mutatePrimitive (E := scripted) (K := example_kernel) capCreator
                    spherePrimitive (349 # 1000) (scriptedWorld [0%N])
    = Ok pr w'
    /\ ptype spherePrimitive = PrimitiveType.Sphere
    /\ cutout spherePrimitive = false
    /\ cutout pr = true
    /\ pr <> spherePrimitive.
Proof.
  eexists; eexists. split; [vm_compute; reflexivity |].
  repeat split; discriminate.
Qed.

(** The empty set under a draw of the last mutation kind (ADD): the set
    comes from [create]. *)
Lemma mutate_empty_is_new_witness :
  exists ps' w' l,
    mutate (E := scripted) (K := example_kernel) capCreator 5 []
           (scriptedWorld [4294967295; 0; 0; 0; 0; 0; 0; 0]%N) = Ok ps' w'
    /\ discrete_pick (mutationDistribution capCreator)
         (canonical 4294967295 * fold_right Qplus 0 (mutationDistribution capCreator))
         0 = MutationType.ADD
    /\ List.length ps' = 1%nat
    /\ events w' = events (scriptedWorld [4294967295; 0; 0; 0; 0; 0; 0; 0]%N)
                   ++ Print "Mutation New" :: l
    /\ Forall createLine l.
Proof.
  assert (Hrun : { r : PrimitiveSet * World |
             mutate (E := scripted) (K := example_kernel) capCreator 5 []
               (scriptedWorld [4294967295; 0; 0; 0; 0; 0; 0; 0]%N)
             = Ok (fst r) (snd r) /\ List.length (fst r) = 1%nat }).
  { eexists (_, _). cbn [fst snd]. split; vm_compute; reflexivity. }
  destruct Hrun as [[ps' w'] [Hrun Hlen]]. cbn [fst snd] in *.
  destruct (proj2 (proj2 (@mutate_empty_is_new scripted example_kernel
              capCreator 5
              (scriptedWorld [4294967295; 0; 0; 0; 0; 0; 0; 0]%N)))
              ps' w' Hrun) as (l & He & Hl).
  exists ps', w', l. split; [exact Hrun |]. split; [vm_compute; reflexivity |].
  split; [exact Hlen |]. split; [exact He | exact Hl].
Defined.

End ClosedPSS.

Section ClosedPipeline.
Import Random CSG Pipeline Examples.PipelineEx.
Open Scope string_scope.

(** No tree file: exit code 1 after the call of the reader. *)
Lemma run_noop_input_exits_1_witness :
  exists l,
    load (X := noFile) "out" (read_pipeline_params (X := noFile) tt) []
    = (Returned opNo, ([] ++ l)%list)
    /\ run (X := noFile) "out" tt [] = (Returned 1%Z, ([] ++ l)%list)
    /\ Forall (fun e => (exists s, e = Print s) \/ e = Call "fromJSONFile") l.
Proof.
  apply (proj2 (@run_noop_input_exits_1 noFile "out" tt []) "cannot open file").
  reflexivity.
Defined.

End ClosedPipeline.

Unset Implicit Arguments.

(* ================================================================== *)
(** * CSG trees: shape and size under the evolutionary operators *)
(* ================================================================== *)

Section CSGShape.
Import Random CSG CSGMore.

Lemma binaryOver_children fs (cs : list CSGNode) :
  fold_right (fun c acc => binaryOver fs c /\ acc) True cs
  <-> Forall (binaryOver fs) cs.
Proof.
  induction cs as [| c cs IH]; simpl.
  - split; auto.
  - rewrite IH. split.
    + intros [H1 H2]. constructor; assumption.
    + intros H. inversion H. auto.
Qed.

Lemma binaryOver_Operation fs op nm cs :
  binaryOver fs (Operation op nm cs)
  <-> binaryOperator op /\ List.length cs = 2%nat /\ Forall (binaryOver fs) cs.
Proof. cbn [binaryOver]. rewrite binaryOver_children. reflexivity. Qed.

Lemma operationOfCode_binary (code : Z) :
  (1 <= code <= 3)%Z -> binaryOperator (operationOfCode code).
Proof.
  intros H. assert (code = 1 \/ code = 2 \/ code = 3)%Z as [-> | [-> | ->]] by lia;
    unfold binaryOperator; simpl; auto.
Qed.

Lemma numChilds_binary op nm cs :
  binaryOperator op ->
  Z.to_nat (clamp (snd (numAllowedChilds (Operation op nm cs)))
                  (fst (numAllowedChilds (Operation op nm cs))) 2) = 2%nat.
Proof. intros [-> | [-> | ->]]; reflexivity. Qed.

(** A valid root by [treeIsInvalid]. *)
Lemma binaryOver_not_invalid fs n : binaryOver fs n -> treeIsInvalid n = false.
Proof.
  destruct n as [f | op nm cs]; [reflexivity |].
  intros H. apply binaryOver_Operation in H. destruct H as ([-> | [-> | ->]] & Hlen & _);
    unfold treeIsInvalid; cbn [childsOf numAllowedChilds fst snd];
    rewrite Hlen; reflexivity.
Qed.

Context {E : RandomEngine}.
Variable c : CSGNodeCreator.

Lemma randomLeaf_shape (w : World) (t : CSGNode) (w' : World) :
  randomLeaf c w = Ok t w' ->
  exists f, t = Geometry f /\ In f (_functions c) /\ events w' = events w.
Proof.
  unfold randomLeaf, bind, uniform_int. intros H.
  destruct (Z.of_nat (List.length (_functions c)) - 1 <? 0)%Z; [discriminate |].
  unfold bind in H. destruct (raw_ok w) as (x & w1 & Hr & He).
  rewrite Hr in H. cbn [ret] in H. unfold index in H.
  destruct (_ <? 0)%Z; [discriminate |].
  destruct (nth_error (_functions c) _) as [f |] eqn:Hn; [| discriminate].
  injection H as <- <-. exists f. split; [reflexivity |].
  split; [eapply nth_error_In; eassumption | exact He].
Qed.

(** Whatever the filler returns has two new children under a binary
    operator, each of the creator's shape, and nothing was printed. *)
Lemma createChilds_shape (fuel : nat) :
  forall op nm cs maxDepth curDepth w node' w',
    binaryOperator op ->
    createChilds c fuel (Operation op nm cs) maxDepth curDepth w = Ok node' w' ->
    exists new,
      node' = Operation op nm (cs ++ new)
      /\ List.length new = 2%nat
      /\ Forall (binaryOver (_functions c)) new
      /\ events w' = events w.
Proof.
  induction fuel as [| fuel IH];
    intros op nm cs maxDepth curDepth w node' w' Hop Hrun; [discriminate |].
  cbn [createChilds] in Hrun. rewrite (numChilds_binary op nm cs Hop) in Hrun.
  assert (Hchild : forall (b : bool) w1 child w2,
             (if b && (curDepth <? maxDepth)%Z
              then bind (uniform_int 1 3) (fun op0 =>
                     createChilds c fuel (createOperation (operationOfCode op0))
                                  maxDepth (curDepth + 1))
              else randomLeaf c) w1 = Ok child w2 ->
             binaryOver (_functions c) child /\ events w2 = events w1).
  { intros b w1 child w2 Hc.
    destruct (b && (curDepth <? maxDepth)%Z).
    - unfold bind in Hc.
      destruct (uniform_int_ok (a := 1) (b := 3) w1 ltac:(lia))
        as (code & w1' & Hu & Hcode & He).
      rewrite Hu in Hc. unfold createOperation in Hc.
      destruct (IH _ _ _ _ _ _ _ _ (operationOfCode_binary _ Hcode) Hc)
        as (new & -> & Hlen & Hall & Hev).
      split; [| congruence].
      apply binaryOver_Operation.
      split; [apply operationOfCode_binary; exact Hcode |].
      split; [exact Hlen | exact Hall].
    - destruct (randomLeaf_shape _ _ _ Hc) as (f & -> & Hin & Hev).
      split; [exact Hin | exact Hev]. }
  unfold bind at 1 in Hrun.
  destruct (bernoulli_ok (_subtreeProb c) w) as (b1 & wa & Hb1 & Hea).
  rewrite Hb1 in Hrun. unfold bind at 1 in Hrun.
  match type of Hrun with
  | match ?x with Ok _ _ => _ | Undefined => _ | OutOfFuel => _ end = _ =>
    destruct x as [child1 wb | |] eqn:Hc1; try discriminate
  end.
  unfold bind at 1 in Hrun.
  destruct (bernoulli_ok (_subtreeProb c) wb) as (b2 & wc & Hb2 & Hec).
  rewrite Hb2 in Hrun. unfold bind at 1 in Hrun.
  match type of Hrun with
  | match ?x with Ok _ _ => _ | Undefined => _ | OutOfFuel => _ end = _ =>
    destruct x as [child2 wd | |] eqn:Hc2; try discriminate
  end.
  cbn [ret addChild] in Hrun. injection Hrun as <- <-.
  destruct (Hchild _ _ _ _ Hc1) as [Hs1 He1].
  destruct (Hchild _ _ _ _ Hc2) as [Hs2 He2].
  exists [child1; child2]. rewrite <- app_assoc. split; [reflexivity |].
  split; [reflexivity |]. split; [| congruence].
  constructor; [exact Hs1 | constructor; [exact Hs2 | constructor]].
Qed.

Hypothesis functions_nonempty : _functions c <> [].

(** What [create(maxDepth)] returns. *)
Lemma create_depth_shape (maxDepth : Z) (w : World) :
  exists t w',
    create_depth c maxDepth w = Ok t w'
    /\ binaryOver (_functions c) t
    /\ treeIsInvalid t = false
    /\ events w' = events w
    /\ (maxDepth = 0%Z -> exists f, t = Geometry f)
    /\ (maxDepth <> 0%Z -> exists op nm a b, t = Operation op nm [a; b]).
Proof.
  destruct (create_depth_ok c functions_nonempty maxDepth w)
    as (t & w' & Hrun & _ & _).
  exists t, w'. split; [exact Hrun |].
  unfold create_depth in Hrun.
  destruct (Z.eqb_spec maxDepth 0) as [H0 | Hn0].
  - destruct (randomLeaf_shape _ _ _ Hrun) as (f & -> & Hin & Hev).
    split; [exact Hin |]. split; [reflexivity |]. split; [exact Hev |].
    split; [eauto | contradiction].
  - unfold bind in Hrun.
    destruct (uniform_int_ok (a := 1) (b := 3) w ltac:(lia))
      as (code & w1 & Hu & Hcode & He).
    rewrite Hu in Hrun. unfold createOperation in Hrun.
    destruct (createChilds_shape _ _ _ _ _ _ _ _ _
                (operationOfCode_binary _ Hcode) Hrun)
      as (new & -> & Hlen & Hall & Hev).
    assert (Hshape : binaryOver (_functions c)
                       (Operation (operationOfCode code) "" ([] ++ new))).
    { apply binaryOver_Operation.
      split; [apply operationOfCode_binary; exact Hcode | auto]. }
    split; [exact Hshape |].
    split; [exact (binaryOver_not_invalid _ _ Hshape) |].
    split; [congruence |]. split; [contradiction |]. intros _.
    destruct new as [| a [| b [| ? ?]]]; try discriminate Hlen.
    exists (operationOfCode code), EmptyString, a, b. reflexivity.
Qed.

(** X1.  For a creator with at least one function, [create(maxDepth)]
    returns, without any console output, a tree in which every operation is
    an intersection, union or difference over exactly two children and every
    leaf holds a function of the creator; the tree is a single leaf when
    [maxDepth] is 0 and an operation otherwise, and [treeIsInvalid] does not
    reject it. *)
Theorem create_builds_binary_trees (maxDepth : Z) (w : World) :
  exists t w',
    create_depth c maxDepth w = Ok t w'
    /\ binaryOver (_functions c) t
    /\ treeIsInvalid t = false
    /\ events w' = events w
    /\ (maxDepth = 0%Z -> exists f, t = Geometry f)
    /\ (maxDepth <> 0%Z -> exists op nm a b, t = Operation op nm [a; b]).
Proof. exact (create_depth_shape maxDepth w). Qed.

(** X2.  The depth of what [create(maxDepth)] returns: at most [maxDepth]
    when that is not negative, and exactly 1 when it is negative (an
    operation over two leaves, since only 0 asks for a leaf). *)
Theorem create_depth_bounds (maxDepth : Z) (w : World) :
  exists t w',
    create_depth c maxDepth w = Ok t w'
    /\ ((0 <= maxDepth)%Z -> (Z.of_nat (depth t) <= maxDepth)%Z)
    /\ ((maxDepth < 0)%Z -> depth t = 1%nat).
Proof.
  destruct (create_depth_ok c functions_nonempty maxDepth w)
    as (t & w' & Hrun & Hle & Hz).
  exists t, w'. split; [exact Hrun |]. split.
  - intros Hpos. destruct (Z.eq_dec maxDepth 0) as [H0 | Hn0].
    + rewrite (Hz H0). lia.
    + lia.
  - intros Hneg.
    destruct (create_depth_shape maxDepth w)
      as (t2 & w2 & Hrun2 & _ & _ & _ & _ & Hop).
    rewrite Hrun in Hrun2. injection Hrun2 as <- <-.
    destruct (Hop ltac:(lia)) as (op & nm & a & b & ->).
    rewrite depth_Operation in *. rewrite !childsDepth_cons in *. lia.
Qed.

End CSGShape.

Section CSGSubtrees.
Import Random CSG CSGMore.

(** Every index below the number of nodes addresses a node. *)
Lemma nodeAt_in_range (n : CSGNode) :
  forall idx, (idx < numNodes n)%nat -> exists s, nodeAt n idx = Some s.
Proof.
  induction n as [f | op nm cs IH] using CSGNode_induction; intros idx Hidx.
  - simpl in Hidx. assert (idx = 0%nat) by lia. subst. simpl. eauto.
  - destruct idx as [| i]; [simpl; eauto |].
    simpl in Hidx. apply PeanoNat.lt_S_n in Hidx. cbn [nodeAt].
    revert i Hidx. induction IH as [| c cs Hc _ IHcs]; intros i Hi.
    + simpl in Hi. lia.
    + simpl in Hi.
      destruct (Nat.ltb_spec i (numNodes c)) as [Hlt | Hge].
      * apply Hc. exact Hlt.
      * apply IHcs. lia.
Qed.

(** A subtree of a tree of the creator's shape has that shape. *)
Lemma nodeAt_shape fs (n : CSGNode) :
  forall idx s, binaryOver fs n -> nodeAt n idx = Some s -> binaryOver fs s.
Proof.
  induction n as [f | op nm cs IH] using CSGNode_induction; intros idx s Hn Hs.
  - destruct idx; simpl in Hs; [injection Hs as <-; exact Hn | discriminate].
  - destruct idx as [| i]; [simpl in Hs; injection Hs as <-; exact Hn |].
    apply binaryOver_Operation in Hn. destruct Hn as (_ & _ & Hall).
    cbn [nodeAt] in Hs. revert i Hs.
    induction IH as [| c cs Hc _ IHcs]; intros i Hs; [discriminate |].
    inversion Hall as [| ? ? Hc1 Hall1]; subst.
    destruct (i <? numNodes c)%nat.
    + eapply Hc; eassumption.
    + eapply IHcs; eassumption.
Qed.

(** Assigning a tree of the creator's shape keeps that shape, and the
    number of nodes changes by the difference of the subtrees. *)
Lemma assignAt_shape_size fs (n : CSGNode) :
  forall idx new n' old,
    assignAt n idx new = Some n' -> nodeAt n idx = Some old ->
    (binaryOver fs n -> binaryOver fs new -> binaryOver fs n')
    /\ (numNodes n' + numNodes old = numNodes n + numNodes new)%nat.
Proof.
  induction n as [f | op nm cs IH] using CSGNode_induction;
    intros idx new n' old Ha Ho.
  - destruct idx; simpl in Ha, Ho; [| discriminate].
    injection Ha as <-. injection Ho as <-. split; [auto | lia].
  - destruct idx as [| i].
    + simpl in Ha, Ho. injection Ha as <-. injection Ho as <-.
      split; [auto | lia].
    + cbn [assignAt nodeAt] in Ha, Ho.
      match type of Ha with
      | option_map _ (?go cs i) = _ => set (goA := go) in *
      end.
      match type of Ho with
      | ?go cs i = _ => set (goN := go) in *
      end.
      assert (Hgo : forall cs i cs',
                 Forall (fun n => forall idx new n' old,
                   assignAt n idx new = Some n' -> nodeAt n idx = Some old ->
                   (binaryOver fs n -> binaryOver fs new -> binaryOver fs n')
                   /\ (numNodes n' + numNodes old
                       = numNodes n + numNodes new)%nat) cs ->
                 goA cs i = Some cs' -> goN cs i = Some old ->
                 List.length cs' = List.length cs
                 /\ (Forall (binaryOver fs) cs -> binaryOver fs new ->
                     Forall (binaryOver fs) cs')
                 /\ (list_sum (map numNodes cs') + numNodes old
                     = list_sum (map numNodes cs) + numNodes new)%nat).
      { clear. intros cs. induction cs as [| c cs IHcs]; intros i cs' HF Hga Hgn;
          [cbn in Hga; discriminate |].
        inversion HF as [| ? ? Hc HF']; subst. simpl in Hga, Hgn.
        destruct (i <? numNodes c)%nat.
        - destruct (assignAt c i new) as [c' |] eqn:Hac;
            [| simpl in Hga; discriminate].
          simpl in Hga. injection Hga as <-.
          destruct (Hc _ _ _ _ Hac Hgn) as [Hs Hn].
          split; [reflexivity |]. split.
          + intros Hall Hnew. inversion Hall; subst. constructor; auto.
          + simpl. lia.
        - destruct (goA cs (i - numNodes c)%nat) as [cs1 |] eqn:Hrec;
            [| simpl in Hga; discriminate].
          simpl in Hga. injection Hga as <-.
          destruct (IHcs _ _ HF' Hrec Hgn) as (Hl & Hs & Hn).
          split; [cbn; congruence |]. split.
          + intros Hall Hnew. inversion Hall; subst. constructor; auto.
          + simpl. lia. }
      destruct (goA cs i) as [cs' |] eqn:Hga; [| cbn in Ha; discriminate].
      cbn in Ha. injection Ha as <-.
      destruct (Hgo cs i cs' IH Hga Ho) as (Hl & Hs & Hn). split.
      * intros Hop Hnew. apply binaryOver_Operation in Hop.
        destruct Hop as (Hb & Hlen & Hall). apply binaryOver_Operation.
        split; [exact Hb |]. split; [congruence | auto].
      * cbn [numNodes]. lia.
Qed.

Lemma binaryOver_incl fs fs' (n : CSGNode) :
  incl fs fs' -> binaryOver fs n -> binaryOver fs' n.
Proof.
  intros Hincl. induction n as [f | op nm cs IH] using CSGNode_induction.
  - simpl. apply Hincl.
  - rewrite !binaryOver_Operation. intros (Hb & Hl & Hall).
    split; [exact Hb |]. split; [exact Hl |].
    rewrite Forall_forall in *. auto.
Qed.

Context {E : RandomEngine}.
Variable c : CSGNodeCreator.
Hypothesis functions_nonempty : _functions c <> [].

(** X3.  For a creator with at least one function, [mutate] always returns
    a tree, and it keeps the creator's shape: if every operation of the input
    tree is an intersection, union or difference over two children with
    leaves among [fs], and the functions of the creator are among [fs], so is
    the mutated tree. *)
Theorem mutate_keeps_binary_shape
  (fs : list ImplicitFunction) (t : CSGNode) (w : World) :
  incl (_functions c) fs ->
  binaryOver fs t ->
  exists t' w', mutate c t w = Ok t' w' /\ binaryOver fs t'.
Proof.
  intros Hincl Ht. unfold mutate, bind.
  destruct (bernoulli_ok (_createNewRandomProb c) w) as (b & w1 & Hb & _).
  rewrite Hb. destruct b.
  - destruct (create_depth_shape c functions_nonempty (_maxTreeDepth c) w1)
      as (t' & w' & Hrun & Hs & _).
    exists t', w'. split; [exact Hrun |]. eapply binaryOver_incl; eassumption.
  - pose proof (numNodes_pos t) as Hpos.
    destruct (uniform_int_ok (a := 0) (b := Z.of_nat (numNodes t) - 1) w1
                ltac:(lia)) as (idx & w2 & Hq & Hidx & _).
    rewrite Hq. cbn [say emit].
    match goal with
    | |- context [create_depth c ?m ?w3] =>
      destruct (create_depth_shape c functions_nonempty m w3)
        as (s & w4 & Hs & Hshape & _)
    end.
    rewrite Hs.
    destruct (assignAt_depth t (idx := Z.to_nat idx) s ltac:(lia))
      as (t' & Ha & _).
    destruct (nodeAt_in_range t (Z.to_nat idx) ltac:(lia)) as (old & Ho).
    rewrite Ha. exists t', w4. split; [reflexivity |].
    apply (proj1 (assignAt_shape_size fs _ _ _ _ _ Ha Ho) Ht).
    eapply binaryOver_incl; eassumption.
Qed.

(** What [crossover] does, for all trees and all draws. *)
Lemma crossover_returns (node1 node2 : CSGNode) (w : World) :
  exists idx1 idx2 sub1 sub2 newNode1 newNode2 w',
    nodeAt node1 idx1 = Some sub1 /\ nodeAt node2 idx2 = Some sub2
    /\ assignAt node1 idx1 sub2 = Some newNode1
    /\ assignAt node2 idx2 sub1 = Some newNode2
    /\ crossover c node1 node2 w
       = Ok [ if (Z.of_nat (depth newNode1) <=? _maxTreeDepth c)%Z
              then newNode1 else node1 ;
              if (Z.of_nat (depth newNode2) <=? _maxTreeDepth c)%Z
              then newNode2 else node1 ] w'.
Proof.
  unfold crossover, bind.
  pose proof (numNodes_pos node1) as Hpos1.
  pose proof (numNodes_pos node2) as Hpos2.
  destruct (uniform_int_ok (a := 0) (b := Z.of_nat (numNodes node1) - 1) w
              ltac:(lia)) as (i1 & w1 & Hq1 & Hi1 & _).
  rewrite Hq1.
  destruct (uniform_int_ok (a := 0) (b := Z.of_nat (numNodes node2) - 1) w1
              ltac:(lia)) as (i2 & w2 & Hq2 & Hi2 & _).
  rewrite Hq2. cbn [say emit].
  destruct (nodeAt_in_range node1 (Z.to_nat i1) ltac:(lia)) as (sub1 & Hs1).
  destruct (nodeAt_in_range node2 (Z.to_nat i2) ltac:(lia)) as (sub2 & Hs2).
  rewrite Hs1, Hs2. cbn [deref ret].
  destruct (assignAt_depth node1 (idx := Z.to_nat i1) sub2 ltac:(lia))
    as (newNode1 & Ha1 & _).
  destruct (assignAt_depth node2 (idx := Z.to_nat i2) sub1 ltac:(lia))
    as (newNode2 & Ha2 & _).
  rewrite Ha1, Ha2. cbn [deref ret].
  exists (Z.to_nat i1), (Z.to_nat i2), sub1, sub2, newNode1, newNode2.
  eexists. repeat (split; [eassumption |]). reflexivity.
Qed.

(** X4.  [crossover] needs no precondition: for all trees it returns exactly
    two trees.  If the first input is within the depth limit, so are both
    results (the fallback of either side is the first input). *)
Theorem crossover_keeps_depth_limit (node1 node2 : CSGNode) (w : World) :
  (Z.of_nat (depth node1) <= _maxTreeDepth c)%Z ->
  exists r1 r2 w',
    crossover c node1 node2 w = Ok [r1; r2] w'
    /\ (Z.of_nat (depth r1) <= _maxTreeDepth c)%Z
    /\ (Z.of_nat (depth r2) <= _maxTreeDepth c)%Z.
Proof.
  intros Hd.
  destruct (crossover_returns node1 node2 w)
    as (i1 & i2 & s1 & s2 & n1 & n2 & w' & _ & _ & _ & _ & Hrun).
  eexists; eexists; exists w'. split; [exact Hrun |].
  split.
  - destruct (Z.leb_spec (Z.of_nat (depth n1)) (_maxTreeDepth c)); lia.
  - destruct (Z.leb_spec (Z.of_nat (depth n2)) (_maxTreeDepth c)); lia.
Qed.

(** X5.  The swap of [crossover] moves nodes and makes none: unless a side
    fell back to the first input, the two results have together as many
    nodes as the two inputs.  The results keep the shape of the inputs. *)
Theorem crossover_preserves_size_and_shape
  (fs : list ImplicitFunction) (node1 node2 : CSGNode) (w : World) :
  exists r1 r2 w',
    crossover c node1 node2 w = Ok [r1; r2] w'
    /\ (r1 = node1 \/ r2 = node1
        \/ (numNodes r1 + numNodes r2 = numNodes node1 + numNodes node2)%nat)
    /\ (binaryOver fs node1 -> binaryOver fs node2 ->
        binaryOver fs r1 /\ binaryOver fs r2).
Proof.
  destruct (crossover_returns node1 node2 w)
    as (i1 & i2 & s1 & s2 & n1 & n2 & w' & Hs1 & Hs2 & Ha1 & Ha2 & Hrun).
  eexists; eexists; exists w'. split; [exact Hrun |].
  destruct (assignAt_shape_size fs _ _ _ _ _ Ha1 Hs1) as [Hsh1 Hn1].
  destruct (assignAt_shape_size fs _ _ _ _ _ Ha2 Hs2) as [Hsh2 Hn2].
  split.
  - destruct (Z.of_nat (depth n1) <=? _maxTreeDepth c)%Z; [| auto].
    destruct (Z.of_nat (depth n2) <=? _maxTreeDepth c)%Z; [| auto].
    right; right. lia.
  - intros H1 H2.
    pose proof (nodeAt_shape fs _ _ _ H1 Hs1) as Hsub1.
    pose proof (nodeAt_shape fs _ _ _ H2 Hs2) as Hsub2.
    split.
    + destruct (Z.of_nat (depth n1) <=? _maxTreeDepth c)%Z; auto.
    + destruct (Z.of_nat (depth n2) <=? _maxTreeDepth c)%Z; auto.
Qed.

End CSGSubtrees.

(* ================================================================== *)
(** * Cliques, ranks and the merge *)
(* ================================================================== *)

Section CliqueOrchestration.
Import Random CSG CSGMore.
Context {E : RandomEngine} {X : Collaborators}.

(** The scan returns its initial pointer or one of the candidates. *)
Lemma scanCandidates_member (r : CSGNodeRanker) (f0 f1 : ImplicitFunction)
  (candidates : list CSGNode) :
  forall maxScore bestCandidate w res w',
    scanCandidates r f0 f1 candidates maxScore bestCandidate w = Ok res w' ->
    res = bestCandidate \/ exists b, res = Some b /\ In b candidates.
Proof.
  induction candidates as [| c rest IH];
    intros maxScore bestCandidate w res w' Hrun.
  - injection Hrun as <- _. left. reflexivity.
  - cbn [scanCandidates] in Hrun. unfold bind at 1 in Hrun.
    destruct (rank_ok r c w) as (w1 & Hr & _). rewrite Hr in Hrun.
    unfold bind at 1 in Hrun. cbn [say emit] in Hrun.
    destruct (negb (Qle_bool (rankValue r c) maxScore)).
    + destruct (IH _ _ _ _ _ Hrun) as [-> | (b & -> & Hin)].
      * right. exists c. split; [reflexivity | left; reflexivity].
      * right. exists b. split; [reflexivity | right; exact Hin].
    + destruct (IH _ _ _ _ _ Hrun) as [-> | (b & -> & Hin)].
      * left. reflexivity.
      * right. exists b. split; [reflexivity | right; exact Hin].
Qed.

(** What the loop adds to its result. *)
Lemma computeNodesForCliques_from_entries (cliques : list Clique) :
  forall res connectionGraph w out w',
    computeNodesForCliques_from res cliques connectionGraph w = Ok out w' ->
    exists new,
      out = res ++ new
      /\ map fst new = filter nonEmptyClique cliques
      /\ Forall cliqueEntry new.
Proof.
  induction cliques as [| clique rest IH];
    intros res connectionGraph w out w' Hrun.
  - injection Hrun as <- _. exists []. rewrite app_nil_r. auto.
  - cbn [computeNodesForCliques_from] in Hrun.
    cbn [filter]. unfold nonEmptyClique at 1.
    destruct (functions clique) as [| f0 [| f1 [| f2 fs]]] eqn:Hf.
    + apply IH in Hrun. exact Hrun.
    + apply IH in Hrun. destruct Hrun as (new & -> & Hmap & Hall).
      exists ((clique, Geometry f0) :: new). rewrite <- app_assoc.
      split; [reflexivity |]. split; [cbn; congruence |].
      constructor; [| exact Hall]. unfold cliqueEntry. cbn [fst snd].
      rewrite Hf. reflexivity.
    + unfold bind at 1 in Hrun.
      match type of Hrun with
      | match ?x with Ok _ _ => _ | Undefined => _ | OutOfFuel => _ end = _ =>
        destruct x as [best0 w1 | |] eqn:Hscan; try discriminate
      end.
      unfold bind at 1 in Hrun. destruct best0 as [best |];
        [| discriminate].
      cbn [deref ret] in Hrun.
      apply IH in Hrun. destruct Hrun as (new & -> & Hmap & Hall).
      exists ((clique, best) :: new). rewrite <- app_assoc.
      split; [reflexivity |]. split; [cbn; congruence |].
      constructor; [| exact Hall]. unfold cliqueEntry. cbn [fst snd].
      rewrite Hf.
      destruct (scanCandidates_member _ _ _ _ _ _ _ _ _ Hscan)
        as [Hnone | (b & Hb & Hin)]; [discriminate |].
      injection Hb as ->. exact Hin.
    + unfold bind at 1 in Hrun.
      match type of Hrun with
      | match ?x with Ok _ _ => _ | Undefined => _ | OutOfFuel => _ end = _ =>
        destruct x as [node w1 | |] eqn:Hga; try discriminate
      end.
      apply IH in Hrun. destruct Hrun as (new & -> & Hmap & Hall).
      exists ((clique, node) :: new). rewrite <- app_assoc.
      split; [reflexivity |]. split; [cbn; congruence |].
      constructor; [| exact Hall]. unfold cliqueEntry. cbn [fst snd].
      rewrite Hf. exact I.
Qed.

(** X6.  Whenever [computeNodesForCliques] returns, its result holds one
    entry for every clique that has a function, in the order of the cliques
    and paired with that clique; cliques without functions are skipped.  The
    tree of a clique of one function is the leaf of that function, and the
    tree of a clique of two is one of its four candidates. *)
Theorem computeNodesForCliques_entries
  (cliques : list Clique) (connectionGraph : Graph) (w : World)
  (out : list (Clique * CSGNode)) (w' : World) :
  computeNodesForCliques cliques connectionGraph w = Ok out w' ->
  map fst out = filter nonEmptyClique cliques /\ Forall cliqueEntry out.
Proof.
  intros Hrun. unfold computeNodesForCliques in Hrun.
  destruct (computeNodesForCliques_from_entries _ _ _ _ _ _ Hrun)
    as (new & -> & Hmap & Hall).
  split; assumption.
Qed.

(** X7.  Cliques of at most one function need no ranking and no search:
    on a list of such cliques [computeNodesForCliques] returns, in the same
    world (nothing printed, called or drawn), the leaves of the cliques of
    one function. *)
Theorem computeNodesForCliques_small_cliques
  (cliques : list Clique) (connectionGraph : Graph) (w : World) :
  Forall (fun cl => (List.length (functions cl) <= 1)%nat) cliques ->
  computeNodesForCliques cliques connectionGraph w
  = Ok (flat_map (fun cl => match functions cl with
                            | [f] => [(cl, Geometry f)]
                            | _ => []
                            end) cliques) w.
Proof.
  intros Hsmall. unfold computeNodesForCliques.
  assert (H : forall res,
             computeNodesForCliques_from res cliques connectionGraph w
             = Ok (res ++ flat_map (fun cl => match functions cl with
                                              | [f] => [(cl, Geometry f)]
                                              | _ => []
                                              end) cliques) w).
  { induction Hsmall as [| clique rest Hc _ IH]; intros res.
    - cbn. rewrite app_nil_r. reflexivity.
    - cbn [computeNodesForCliques_from flat_map].
      destruct (functions clique) as [| f0 [| f1 fs]].
      + rewrite IH. reflexivity.
      + rewrite IH, <- app_assoc. reflexivity.
      + cbn in Hc. lia. }
  rewrite (H []). reflexivity.
Qed.

(** X8.  The size pressure of [CSGNodeRanker::rank]: of two trees with the
    same geometry score, under a positive lambda the one with more nodes
    gets the strictly lower rank. *)
Theorem rank_size_pressure (r : CSGNodeRanker) (t t' : CSGNode) (w : World) :
  0 < _lambda r ->
  computeGeometryScore t (1 # 100) (M_PI / 18) (_rfunctions r)
  == computeGeometryScore t' (1 # 100) (M_PI / 18) (_rfunctions r) ->
  exists s s' w1 w2,
    rank r t w = Ok s w1 /\ rank r t' w = Ok s' w2
    /\ (s < s' <-> (numNodes t' < numNodes t)%nat).
Proof.
  intros Hl Hgeo.
  destruct (rank_ok r t w) as (w1 & H1 & _).
  destruct (rank_ok r t' w) as (w2 & H2 & _).
  exists (rankValue r t), (rankValue r t'), w1, w2.
  split; [exact H1 |]. split; [exact H2 |].
  unfold rankValue. rewrite Hgeo.
  set (g := computeGeometryScore t' _ _ _). clearbody g.
  set (l := _lambda r) in *. clearbody l.
  rewrite Nat2Z.inj_lt. rewrite Zlt_Qlt.
  set (a := inject_Z (Z.of_nat (numNodes t))).
  set (b := inject_Z (Z.of_nat (numNodes t'))).
  clearbody a b. split; intros H; nra.
Qed.

End CliqueOrchestration.

Section Merge.
Import Random CSG CSGMore.
Context {E : RandomEngine} {X : MergeCollaborators}.

(** The loop of the merge has no exit. *)
Lemma mergeLoop_never_returns (fuel : nat) :
  forall entries candidateList w r w',
    mergeLoop fuel entries candidateList w <> Ok r w'.
Proof.
  induction fuel as [| fuel IH]; intros entries candidateList w r w' H;
    [discriminate |].
  cbn [mergeLoop] in H. unfold bind at 1 in H.
  destruct (front entries w) as [entry w1 | |]; try discriminate.
  unfold bind at 1 in H.
  destruct (index candidateList _ w1) as [n1 w2 | |]; try discriminate.
  unfold bind at 1 in H.
  destruct (index candidateList _ w2) as [n2 w3 | |]; try discriminate.
  exact (IH _ _ _ _ _ H).
Qed.

(** X9.  [mergeCSGNodeClique] returns no tree, whatever cliques it is
    given: its work list is never filled, so the first turn of its loop
    reads the front of an empty vector, which is undefined; and the loop
    itself has no exit for any work list. *)
Theorem mergeCSGNodeClique_never_returns
  (fuel : nat) (clique : list (Clique * CSGNode)) (w : World) :
  mergeCSGNodeClique (S fuel) clique w = Undefined
  /\ (forall r w', mergeCSGNodeClique fuel clique w <> Ok r w')
  /\ (forall entries candidateList r w',
        mergeLoop fuel entries candidateList w <> Ok r w').
Proof.
  split; [reflexivity |]. split.
  - intros r w'. apply mergeLoop_never_returns.
  - intros entries candidateList r w'. apply mergeLoop_never_returns.
Qed.

End Merge.

(* ================================================================== *)
(** * Inversion of the random monad *)
(* ================================================================== *)

Section MonadInversion.
Import Random.
Context {E : RandomEngine}.

Lemma bind_inv {A B} (m : M A) (k : A -> M B) w b w' :
  bind m k w = Ok b w' ->
  exists a w1, m w = Ok a w1 /\ k a w1 = Ok b w'.
Proof.
  unfold bind. destruct (m w) as [a w1 | |]; try discriminate.
  intros H. exists a, w1. split; [reflexivity | exact H].
Qed.

Lemma ret_inv {A} (a b : A) w w' : ret a w = Ok b w' -> a = b /\ w = w'.
Proof. unfold ret. intros H. inversion H. split; reflexivity. Qed.

Lemma raw_inv w x w' : raw w = Ok x w' -> events w' = events w.
Proof.
  unfold raw. destruct (engine_next (rndEngine w)). intros H.
  inversion H. reflexivity.
Qed.

Lemma uniform_int_inv a b w v w' :
  uniform_int a b w = Ok v w' ->
  (a <= v <= b)%Z /\ events w' = events w.
Proof.
  unfold uniform_int. destruct (Z.ltb_spec b a) as [Hlt | Hle];
    [discriminate |].
  intros H. apply bind_inv in H. destruct H as (x & w1 & Hr & H).
  apply ret_inv in H. destruct H as [<- <-].
  split; [| eapply raw_inv; eassumption].
  pose proof (Z.mod_pos_bound (Z.of_N x) (b - a + 1)). lia.
Qed.

Lemma bernoulli_inv p w b w' :
  bernoulli p w = Ok b w' -> events w' = events w.
Proof.
  unfold bernoulli. intros H. apply bind_inv in H.
  destruct H as (x & w1 & Hr & H). apply ret_inv in H. destruct H as [_ <-].
  eapply raw_inv; eassumption.
Qed.

Lemma discrete_inv ws w v w' :
  discrete ws w = Ok v w' -> events w' = events w.
Proof.
  unfold discrete. intros H. apply bind_inv in H.
  destruct H as (x & w1 & Hr & H). apply ret_inv in H. destruct H as [_ <-].
  eapply raw_inv; eassumption.
Qed.

Lemma index_inv {A} (v : list A) i w a w' :
  index v i w = Ok a w' ->
  w' = w /\ (0 <= i)%Z /\ nth_error v (Z.to_nat i) = Some a.
Proof.
  unfold index. destruct (Z.ltb_spec i 0) as [Hlt | Hge]; [discriminate |].
  destruct (nth_error v (Z.to_nat i)) as [x |]; [| discriminate].
  intros H. apply ret_inv in H. destruct H as [<- <-]. auto.
Qed.

Lemma say_inv s w u w' :
  say s w = Ok u w' ->
  rndEngine w' = rndEngine w /\ events w' = (events w ++ [Print s])%list.
Proof.
  unfold say, emit. intros H. inversion H. split; reflexivity.
Qed.

End MonadInversion.

Tactic Notation "binv" hyp(H) "as" simple_intropattern(a)
  simple_intropattern(Ha) :=
  let w := fresh "w" in
  apply bind_inv in H; destruct H as (a & w & Ha & H).

(* ================================================================== *)
(** * What the creator of primitive sets produces *)
(* ================================================================== *)

Section PSSCreation.
Import Random PSS.
Open Scope Q_scope.
Context {E : RandomEngine} {K : Kernel}.
Variable c : PrimitiveSetCreator.

Lemma pickCandidate_inv candidates w r w' :
  pickCandidate candidates w = Ok r w' ->
  match r with
  | Some m => In m candidates
  | None => candidates = []
  end.
Proof.
  destruct candidates as [| x rest]; cbn [pickCandidate].
  - intros H. apply ret_inv in H. destruct H as [<- _]. reflexivity.
  - intros H. binv H as i Hi. binv H as m Hm.
    apply ret_inv in H. destruct H as [<- _].
    apply index_inv in Hm. destruct Hm as (_ & _ & Hn).
    eapply nth_error_In; eassumption.
Qed.

Lemma getManifold_inv ty direction alreadyUsed eps ign point dist w m w' :
  getManifold c ty direction alreadyUsed eps ign point dist w = Ok (Some m) w' ->
  In m (cms c) /\ type m = ty
  /\ (forall u, In u alreadyUsed -> manifoldsEqual m u (1 # 10000) = false)
  /\ (ign = false -> cos eps < Qabs (dot direction (n m)))
  /\ dist < Qabs (dot (vsub point (p m)) (n m)).
Proof.
  unfold getManifold. intros H. apply pickCandidate_inv in H.
  apply filter_In in H. destruct H as [Hin Hf]. unfold manifoldCandidate in Hf.
  apply andb_true_iff in Hf. destruct Hf as [Hf Hd].
  apply andb_true_iff in Hf. destruct Hf as [Hf Hdir].
  apply andb_true_iff in Hf. destruct Hf as [Hty Hused].
  split; [exact Hin |]. split.
  { destruct (type m), ty; try discriminate; reflexivity. }
  split.
  { intros u Hu. unfold usedAlready in Hused.
    apply negb_true_iff in Hused.
    destruct (manifoldsEqual m u (1 # 10000)) eqn:Heq; [| reflexivity].
    assert (existsb (fun x => manifoldsEqual m x (1 # 10000)) alreadyUsed = true)
      by (apply existsb_exists; exists u; auto).
    congruence. }
  split.
  { intros ->. cbn [orb] in Hdir. apply Qltb_true. exact Hdir. }
  apply Qltb_true. exact Hd.
Qed.

Lemma getPerpendicularPlane_inv planes alreadyUsed eps w m w' :
  getPerpendicularPlane c planes alreadyUsed eps w = Ok (Some m) w' ->
  In m (cms c) /\ type m = ManifoldType.Plane
  /\ (forall u, In u alreadyUsed -> manifoldsEqual m u (1 # 10000) = false)
  /\ Forall (fun u => awayFrom eps u m) planes.
Proof.
  unfold getPerpendicularPlane. intros H. apply pickCandidate_inv in H.
  apply filter_In in H. destruct H as [Hin Hf].
  unfold perpendicularCandidate in Hf.
  destruct (ManifoldType.eqb (type m) ManifoldType.Plane) eqn:Hty;
    cbn [negb] in Hf; [| discriminate].
  destruct (usedAlready m alreadyUsed) eqn:Hused; [discriminate |].
  split; [exact Hin |]. split.
  { destruct (type m); try discriminate; reflexivity. }
  split.
  { intros u Hu. unfold usedAlready in Hused.
    destruct (manifoldsEqual m u (1 # 10000)) eqn:Heq; [| reflexivity].
    assert (existsb (fun x => manifoldsEqual m x (1 # 10000)) alreadyUsed = true)
      by (apply existsb_exists; exists u; auto).
    congruence. }
  apply Forall_forall. intros u Hu.
  rewrite forallb_forall in Hf. specialize (Hf u Hu).
  apply Qltb_true in Hf. exact Hf.
Qed.


Lemma createBoxCase_selection_or_none w pr w' :
  createBoxCase c w = Ok pr w' ->
  pr = Primitive_None
  \/ exists planes, boxSelection c planes /\ pr = createBoxPrimitive planes.
Proof.
  unfold createBoxCase, getParallelPlane. intros H.
  binv H as [a0 |] Hstep;
    [| apply ret_inv in H; destruct H as [<- _]; left; reflexivity].
  binv H as [a1 |] Hstep0;
    [| apply ret_inv in H; destruct H as [<- _]; left; reflexivity].
  binv H as [a2 |] Hstep1;
    [| apply ret_inv in H; destruct H as [<- _]; left; reflexivity].
  binv H as [a3 |] Hstep2;
    [| apply ret_inv in H; destruct H as [<- _]; left; reflexivity].
  binv H as [a4 |] Hstep3;
    [| apply ret_inv in H; destruct H as [<- _]; left; reflexivity].
  binv H as [a5 |] Hstep4;
    [| apply ret_inv in H; destruct H as [<- _]; left; reflexivity].
  apply ret_inv in H. destruct H as [<- _]. right.
  cbn [app] in *.
  apply getManifold_inv in Hstep. destruct Hstep as (I0 & T0 & _ & _ & _).
  apply getManifold_inv in Hstep0.
  destruct Hstep0 as (I1 & T1 & U1 & D1 & P1). specialize (D1 eq_refl).
  apply getPerpendicularPlane_inv in Hstep1.
  destruct Hstep1 as (I2 & T2 & U2 & A2).
  apply getManifold_inv in Hstep2.
  destruct Hstep2 as (I3 & T3 & U3 & D3 & P3). specialize (D3 eq_refl).
  apply getPerpendicularPlane_inv in Hstep3.
  destruct Hstep3 as (I4 & T4 & U4 & A4).
  apply getManifold_inv in Hstep4.
  destruct Hstep4 as (I5 & T5 & U5 & D5 & P5). specialize (D5 eq_refl).
  exists [a0; a1; a2; a3; a4; a5]. split; [| reflexivity].
  exists a0, a1, a2, a3, a4, a5. split; [reflexivity |].
  split; [repeat (apply Forall_cons || apply Forall_nil); auto |].
  split.
  { intros pre m post Heq u Hu.
    destruct pre as [| x0 [| x1 [| x2 [| x3 [| x4 [| x5 pre]]]]]];
      cbn [app] in Heq; inversion Heq; subst; cbn [In] in Hu.
    - contradiction.
    - apply U1. cbn [In]. tauto.
    - apply U2. cbn [In]. tauto.
    - apply U3. cbn [In]. tauto.
    - apply U4. cbn [In]. tauto.
    - apply U5. cbn [In]. tauto.
    - destruct pre; discriminate. }
  unfold parallelApart. repeat (split; [auto |]). exact A4.
Qed.

Lemma orientPairs_length_6 planes :
  List.length planes = 6%nat -> List.length (orientPairs planes) = 6%nat.
Proof.
  intros Hlen.
  destruct planes as [| a0 [| a1 [| a2 [| a3 [| a4 [| a5 [| ? ?]]]]]]];
    try discriminate.
  cbn [orientPairs].
  destruct (orientPair a0 a1), (orientPair a2 a3), (orientPair a4 a5).
  reflexivity.
Qed.

Lemma createBoxPrimitive_wellFormed planes :
  wellFormed (createBoxPrimitive planes)
  /\ ptype (createBoxPrimitive planes) <> PrimitiveType.Sphere
  /\ ptype (createBoxPrimitive planes) <> PrimitiveType.Cylinder.
Proof.
  unfold createBoxPrimitive, wellFormed.
  destruct (Nat.eqb_spec (List.length planes) 6) as [Hlen | Hlen];
    cbn [negb]; [| cbn; repeat split; discriminate].
  destruct (IFPolytope_empty _ _); cbn [Primitive_None Primitive_new ptype ms];
    [repeat split; discriminate |].
  split; [apply orientPairs_length_6; exact Hlen | split; discriminate].
Qed.

Lemma createCylinderPrimitive_wellFormed m planes w pr w' :
  type m = ManifoldType.Cylinder ->
  createCylinderPrimitive m planes w = Ok pr w' ->
  wellFormed pr /\ ptype pr <> PrimitiveType.Sphere
  /\ ptype pr <> PrimitiveType.Box.
Proof.
  intros Hty. unfold createCylinderPrimitive, wellFormed.
  destruct planes as [| plane0 [| plane1 [| plane2 rest]]]; intros H.
  - binv H as u Hsay. apply ret_inv in H. destruct H as [<- _].
    cbn [Primitive_new ptype ms]. split; [eauto | split; discriminate].
  - destruct (estimateSecondCylinderPlaneFromPointCloud m plane0);
      [| discriminate].
    apply ret_inv in H. destruct H as [<- _].
    cbn [Primitive_new ptype ms]. split; [eauto | split; discriminate].
  - apply ret_inv in H. destruct H as [<- _].
    cbn [Primitive_new ptype ms]. split; [eauto | split; discriminate].
  - apply ret_inv in H. destruct H as [<- _].
    cbn [Primitive_None ptype]. split; [exact I | split; discriminate].
Qed.

Lemma wellFormed_set_cutout b pr : wellFormed pr -> wellFormed (set_cutout b pr).
Proof. unfold wellFormed, set_cutout. cbn [ptype ms]. auto. Qed.

Lemma getRandomPrimitiveType_inv w ty w' :
  getRandomPrimitiveType c w = Ok ty w' ->
  (ty = PrimitiveType.Box /\ In ManifoldType.Plane (availableManifoldTypes c))
  \/ (ty = PrimitiveType.Cylinder
      /\ In ManifoldType.Cylinder (availableManifoldTypes c))
  \/ ty = PrimitiveType.None.
Proof.
  unfold getRandomPrimitiveType. intros H. binv H as k Hk. binv H as mt Hmt.
  apply ret_inv in H. destruct H as [<- _].
  apply index_inv in Hmt. destruct Hmt as (_ & _ & Hn).
  apply nth_error_In in Hn. destruct mt; auto.
Qed.

(** The kinds [createPrimitive] can give, with the shape of each. *)
Lemma createPrimitive_shape w pr w' :
  createPrimitive c w = Ok pr w' ->
  wellFormed pr /\ ptype pr <> PrimitiveType.Sphere
  /\ (ptype pr = PrimitiveType.Box ->
      In ManifoldType.Plane (availableManifoldTypes c)
      /\ exists planes cut,
           boxSelection c planes
           /\ pr = set_cutout cut (createBoxPrimitive planes))
  /\ (ptype pr = PrimitiveType.Cylinder ->
      In ManifoldType.Cylinder (availableManifoldTypes c)).
Proof.
  unfold createPrimitive. intros H. binv H as ty Hstep.
  apply getRandomPrimitiveType_inv in Hstep.
  binv H as pr0 Hstep0. binv H as cut Hcut.
  apply ret_inv in H. destruct H as [<- _].
  destruct Hstep as [[-> Hav] | [[-> Hav] | ->]].
  - apply createBoxCase_selection_or_none in Hstep0.
    destruct Hstep0 as [-> | (planes & Hsel & ->)].
    + cbn. repeat split; try discriminate; exact I.
    + destruct (createBoxPrimitive_wellFormed planes) as (Hwf & Hns & Hnc).
      split; [apply wellFormed_set_cutout; exact Hwf |].
      split; [exact Hns |]. split.
      * intros _. split; [exact Hav |]. exists planes, cut. auto.
      * intros Hcy. cbn [set_cutout ptype] in Hcy. contradiction.
  - binv Hstep0 as [cyl |] Hstep.
    + binv Hstep0 as k Hk. binv Hstep0 as caps Hcaps.
      apply getManifold_inv in Hstep. destruct Hstep as (_ & Hty & _).
      apply createCylinderPrimitive_wellFormed in Hstep0; [| exact Hty].
      destruct Hstep0 as (Hwf & Hns & Hnb).
      split; [apply wellFormed_set_cutout; exact Hwf |].
      split; [exact Hns |]. split.
      * intros Hb. cbn [set_cutout ptype] in Hb. contradiction.
      * intros _. exact Hav.
    + apply ret_inv in Hstep0. destruct Hstep0 as [<- _].
      cbn. repeat split; try discriminate; exact I.
  - apply ret_inv in Hstep0. destruct Hstep0 as [<- _].
    cbn. repeat split; try discriminate; exact I.
Qed.

End PSSCreation.

Section PSSSets.
Import Random PSS.
Open Scope Q_scope.
Context {E : RandomEngine} {K : Kernel}.
Variable c : PrimitiveSetCreator.

Lemma createPrimitive_evolved w pr w' :
  createPrimitive c w = Ok pr w' -> isNone pr = false -> evolved pr.
Proof.
  intros H Hn. apply createPrimitive_shape in H.
  destruct H as (Hwf & Hns & _). repeat split; assumption.
Qed.

Lemma fillSet_members (fuel : nat) (setSize : Z) :
  forall ps w out w',
    fillSet c fuel setSize ps w = Ok out w' ->
    Forall evolved ps ->
    Forall evolved out
    /\ Z.of_nat (List.length out)
       = Z.max (Z.of_nat (List.length ps)) setSize.
Proof.
  induction fuel as [| fuel IH]; intros ps w out w' H Hps; cbn [fillSet] in H;
    destruct (Z.ltb_spec (Z.of_nat (List.length ps)) setSize) as [Hlt | Hge];
    try discriminate.
  - apply ret_inv in H. destruct H as [<- _]. split; [exact Hps | lia].
  - binv H as pr Hpr. destruct (isNone pr) eqn:Hnone; cbn [negb] in H.
    + apply IH in H; [| exact Hps]. exact H.
    + apply IH in H.
      * destruct H as [Hall Hlen]. split; [exact Hall |].
        rewrite Hlen, length_app. cbn [List.length]. lia.
      * apply Forall_app. split; [exact Hps |].
        constructor; [| constructor].
        eapply createPrimitive_evolved; eassumption.
  - apply ret_inv in H. destruct H as [<- _]. split; [exact Hps | lia].
Qed.

Lemma create_members fuel w ps w' :
  create c fuel w = Ok ps w' ->
  (1 <= Z.of_nat (List.length ps) <= maxPrimitiveSetSize c)%Z
  /\ Forall evolved ps.
Proof.
  unfold create. intros H. binv H as setSize Hsize.
  apply uniform_int_inv in Hsize. destruct Hsize as [Hrange _].
  apply fillSet_members in H; [| constructor].
  destruct H as [Hall Hlen]. cbn [List.length] in Hlen.
  split; [lia | exact Hall].
Qed.

Lemma distinctTypes_In ms0 :
  forall seen t, In t (distinctTypes ms0 seen) ->
    In t seen \/ exists m, In m ms0 /\ type m = t.
Proof.
  induction ms0 as [| m rest IH]; intros seen t H; cbn [distinctTypes] in H.
  - left. exact H.
  - destruct (existsb (ManifoldType.eqb (type m)) seen).
    + apply IH in H. destruct H as [H | (m' & Hin & Hty)]; [left; exact H |].
      right. exists m'. split; [right; exact Hin | exact Hty].
    + apply IH in H. destruct H as [H | (m' & Hin & Hty)].
      * apply in_app_or in H. destruct H as [H | [<- | []]];
          [left; exact H |].
        right. exists m. split; [left; reflexivity | reflexivity].
      * right. exists m'. split; [right; exact Hin | exact Hty].
Qed.

Lemma available_In t :
  In t (availableManifoldTypes c) -> exists m, In m (cms c) /\ type m = t.
Proof.
  unfold availableManifoldTypes. intros H. apply distinctTypes_In in H.
  destruct H as [[] | H]. exact H.
Qed.

Lemma createPrimitive_nothing w pr w' :
  nothingToBuildFrom c -> createPrimitive c w = Ok pr w' -> isNone pr = true.
Proof.
  intros Hno H. apply createPrimitive_shape in H.
  destruct H as (_ & Hns & Hbox & Hcyl).
  unfold nothingToBuildFrom in Hno. rewrite Forall_forall in Hno.
  unfold isNone. destruct (ptype pr) eqn:Hty; cbn; try reflexivity.
  - destruct (Hbox eq_refl) as [Hav _]. apply available_In in Hav.
    destruct Hav as (m & Hin & Hm). rewrite (Hno m Hin) in Hm. discriminate.
  - specialize (Hcyl eq_refl). apply available_In in Hcyl.
    destruct Hcyl as (m & Hin & Hm). rewrite (Hno m Hin) in Hm. discriminate.
  - contradiction.
Qed.

Lemma fillSet_nothing (fuel : nat) (setSize : Z) :
  nothingToBuildFrom c ->
  forall ps w out w',
    (Z.of_nat (List.length ps) < setSize)%Z ->
    fillSet c fuel setSize ps w <> Ok out w'.
Proof.
  intros Hno. induction fuel as [| fuel IH]; intros ps w out w' Hlt H;
    cbn [fillSet] in H;
    destruct (Z.ltb_spec (Z.of_nat (List.length ps)) setSize) as [_ | Hge];
    try discriminate; try lia.
  binv H as pr Hpr. rewrite (createPrimitive_nothing _ _ _ Hno Hpr) in H.
  cbn [negb] in H. eapply IH; eassumption.
Qed.

Lemma create_nothing fuel w ps w' :
  nothingToBuildFrom c -> create c fuel w <> Ok ps w'.
Proof.
  intros Hno H. unfold create in H. binv H as setSize Hsize.
  apply uniform_int_inv in Hsize. destruct Hsize as [Hrange _].
  eapply fillSet_nothing in H; [exact H | exact Hno |].
  cbn [List.length]. lia.
Qed.


Lemma assign_nat_inv {A} (Q : A -> Prop) (v : list A) :
  forall i a v', assign_nat v i a = Some v' ->
    List.length v' = List.length v
    /\ (Forall Q v -> Q a -> Forall Q v').
Proof.
  induction v as [| x v IH]; intros i a v' H; [discriminate |].
  destruct i as [| i]; cbn [assign_nat] in H.
  - inversion H; subst. split; [reflexivity |].
    intros Hall Ha. inversion Hall; subst. constructor; assumption.
  - destruct (assign_nat v i a) as [v0 |] eqn:Hrec; [| discriminate].
    inversion H; subst. destruct (IH _ _ _ Hrec) as [Hlen Hq].
    split; [cbn [List.length]; rewrite Hlen; reflexivity |].
    intros Hall Ha. inversion Hall; subst. constructor; auto.
Qed.

Lemma assign_inv {A} (Q : A -> Prop) (v : list A) i a w v' w' :
  assign v i a w = Ok v' w' ->
  w' = w /\ List.length v' = List.length v
  /\ (Forall Q v -> Q a -> Forall Q v').
Proof.
  unfold assign. destruct (i <? 0)%Z; [discriminate |].
  destruct (assign_nat v (Z.to_nat i) a) as [v0 |] eqn:Hn; [| discriminate].
  intros H. apply ret_inv in H. destruct H as [<- <-].
  split; [reflexivity |]. eapply assign_nat_inv; eassumption.
Qed.

Lemma index_Forall {A} (Q : A -> Prop) (v : list A) i w a w' :
  index v i w = Ok a w' -> Forall Q v -> Q a.
Proof.
  intros H Hall. apply index_inv in H. destruct H as (_ & _ & Hn).
  rewrite Forall_forall in Hall. apply Hall.
  eapply nth_error_In; eassumption.
Qed.

(** [mutatePrimitive] keeps the manifold list fitting the kind, and makes
    no sphere of a primitive that is none. *)
Lemma mutatePrimitive_wellFormed p0 eps w pr w' :
  wellFormed p0 ->
  mutatePrimitive c p0 eps w = Ok pr w' ->
  wellFormed pr /\ (ptype p0 <> PrimitiveType.Sphere ->
                    ptype pr <> PrimitiveType.Sphere).
Proof.
  intros Hwf H. unfold mutatePrimitive in H.
  binv H as pr0 Hpr0. binv H as cut Hcut.
  apply ret_inv in H. destruct H as [<- _].
  assert (Hgoal : wellFormed pr0 /\ (ptype p0 <> PrimitiveType.Sphere ->
                                     ptype pr0 <> PrimitiveType.Sphere)).
  { unfold wellFormed in Hwf. destruct (ptype p0) eqn:Hty.
    - apply ret_inv in Hpr0. destruct Hpr0 as [<- _].
      unfold wellFormed. rewrite Hty. split; [exact I | discriminate].
    - binv Hpr0 as k Hk. binv Hpr0 as plane Hplane.
      binv Hpr0 as [newPlane |] Hnew.
      + binv Hpr0 as newPlanes Hassign.
        apply ret_inv in Hpr0. destruct Hpr0 as [<- _].
        destruct (createBoxPrimitive_wellFormed newPlanes) as (H1 & H2 & _).
        split; [exact H1 | intros _; exact H2].
      + apply ret_inv in Hpr0. destruct Hpr0 as [<- _].
        unfold wellFormed. rewrite Hty. split; [exact Hwf | discriminate].
    - destruct Hwf as (cyl & rest & Hms & Hcyl).
      binv Hpr0 as k Hk. binv Hpr0 as cyl' Hidx. binv Hpr0 as planes Hcaps.
      apply index_inv in Hidx. destruct Hidx as (_ & _ & Hn).
      rewrite Hms in Hn. cbn in Hn. inversion Hn; subst cyl'.
      apply createCylinderPrimitive_wellFormed in Hpr0; [| exact Hcyl].
      destruct Hpr0 as (H1 & H2 & _). split; [exact H1 | intros _; exact H2].
    - apply ret_inv in Hpr0. destruct Hpr0 as [<- _].
      unfold wellFormed. rewrite Hty. split; [exact I | tauto]. }
  destruct Hgoal as [H1 H2].
  split; [apply wellFormed_set_cutout; exact H1 | exact H2].
Qed.

Lemma mutatePrimitive_evolved p0 eps w pr w' :
  evolved p0 ->
  mutatePrimitive c p0 eps w = Ok pr w' ->
  isNone pr = false -> evolved pr.
Proof.
  intros (Hn & Hs & Hwf) H Hnone.
  destruct (mutatePrimitive_wellFormed _ _ _ _ _ Hwf H) as [H1 H2].
  repeat split; auto.
Qed.

Lemma mutateStep_members mt ps w out w' :
  mutateStep c mt ps w = Ok out w' ->
  Forall evolved ps ->
  Forall evolved out
  /\ (List.length ps <= List.length out <= S (List.length ps))%nat
  /\ (mt = MutationType.REMOVE -> out = ps).
Proof.
  unfold mutateStep. intros H Hps.
  destruct (Z.eqb_spec mt MutationType.REPLACE) as [Hrep | Hrep].
  { binv H as u Hsay. binv H as idx Hidx.
    assert (Hne : mt <> MutationType.REMOVE) by (rewrite Hrep; discriminate).
    destruct (negb (idx =? -1)%Z).
    - binv H as newP HnewP. binv H as old Hold.
      apply (assign_inv evolved) in H. destruct H as (_ & Hlen & Hall).
      split; [| split; [lia | tauto]].
      apply Hall; [exact Hps |].
      destruct (isNone newP) eqn:Hnone.
      + eapply index_Forall; eassumption.
      + eapply createPrimitive_evolved; eassumption.
    - apply ret_inv in H. destruct H as [<- _].
      split; [exact Hps | split; [lia | tauto]]. }
  destruct (Z.eqb_spec mt MutationType.MODIFY) as [Hmod | Hmod].
  { binv H as u Hsay. binv H as idx Hidx. binv H as old Hold.
    binv H as newP HnewP.
    assert (Hne : mt <> MutationType.REMOVE) by (rewrite Hmod; discriminate).
    apply (assign_inv evolved) in H. destruct H as (_ & Hlen & Hall).
    split; [| split; [lia | tauto]].
    apply Hall; [exact Hps |].
    assert (Hold' : evolved old) by (eapply index_Forall; eassumption).
    destruct (isNone newP) eqn:Hnone; [exact Hold' |].
    eapply mutatePrimitive_evolved; eassumption. }
  destruct (Z.eqb_spec mt MutationType.REMOVE) as [Hrem | Hrem].
  { binv H as u Hsay. apply ret_inv in H. destruct H as [<- _].
    split; [exact Hps | split; [lia | reflexivity]]. }
  destruct (Z.eqb_spec mt MutationType.ADD) as [Hadd | Hadd].
  { binv H as u Hsay. binv H as newP HnewP.
    destruct (isNone newP) eqn:Hnone; cbn [negb] in H;
      apply ret_inv in H; destruct H as [<- _].
    - split; [exact Hps | split; [lia | tauto]].
    - split; [| split; [rewrite length_app; cbn [List.length]; lia | tauto]].
      apply Forall_app. split; [exact Hps |].
      constructor; [| constructor].
      eapply createPrimitive_evolved; eassumption. }
  binv H as u Hsay. apply ret_inv in H. destruct H as [<- _].
  split; [exact Hps | split; [lia | tauto]].
Qed.

Lemma mutateLoop_members mt (fuel : nat) :
  forall i ps w out w',
    mutateLoop c fuel mt i ps w = Ok out w' ->
    Forall evolved ps ->
    Forall evolved out
    /\ (Z.of_nat (List.length ps) <= Z.of_nat (List.length out))%Z
    /\ (Z.of_nat (List.length out) + i
        <= Z.of_nat (List.length ps) + Z.max i (maxMutationIterations c))%Z
    /\ (mt = MutationType.REMOVE -> out = ps).
Proof.
  induction fuel as [| fuel IH]; intros i ps w out w' H Hps;
    cbn [mutateLoop] in H; [discriminate |].
  binv H as bound Hbound. apply uniform_int_inv in Hbound.
  destruct Hbound as [Hrange _].
  destruct (Z.ltb_spec i bound) as [Hlt | Hge].
  - binv H as ps1 Hstep1.
    apply mutateStep_members in Hstep1; [| exact Hps].
    destruct Hstep1 as (Hall1 & Hlen1 & Hrem1).
    apply IH in H; [| exact Hall1].
    destruct H as (Hall & Hlo & Hhi & Hrem).
    split; [exact Hall |]. split; [lia |]. split; [lia |].
    intros Hmt. rewrite (Hrem Hmt). apply Hrem1. exact Hmt.
  - apply ret_inv in H. destruct H as [<- _].
    split; [exact Hps |]. split; [lia |]. split; [lia | reflexivity].
Qed.

Lemma mutate_members fuel ps w out w' :
  mutate c fuel ps w = Ok out w' ->
  Forall evolved ps ->
  Forall evolved out
  /\ ((1 <= Z.of_nat (List.length out) <= maxPrimitiveSetSize c)%Z
      \/ (Z.of_nat (List.length ps) <= Z.of_nat (List.length out)
          <= Z.of_nat (List.length ps) + maxMutationIterations c)%Z).
Proof.
  unfold mutate. intros H Hps. binv H as mt Hmt.
  destruct ((mt =? MutationType.NEW)%Z || Nat.eqb (List.length ps) 0).
  - binv H as u Hsay. apply create_members in H. destruct H as [Hlen Hall].
    split; [exact Hall | left; exact Hlen].
  - pose proof H as Hrun.
    apply mutateLoop_members in H; [| exact Hps].
    destruct H as (Hall & Hlo & Hhi & _).
    split; [exact Hall |]. right.
    (* the loop has run, so the bound drawn first was at least 1 *)
    cbn [mutateLoop] in Hrun. binv Hrun as bound Hbound.
    apply uniform_int_inv in Hbound. lia.
Qed.

Lemma mutate_remove fuel ps w w1 out w' :
  discrete (mutationDistribution c) w = Ok MutationType.REMOVE w1 ->
  ps <> [] ->
  mutate c fuel ps w = Ok out w' ->
  out = ps.
Proof.
  intros Hd Hne H. unfold mutate in H. unfold bind at 1 in H.
  rewrite Hd in H.
  destruct ps as [| x ps]; [contradiction |].
  cbn [List.length Nat.eqb orb Z.eqb MutationType.REMOVE MutationType.NEW] in H.
  change ((MutationType.REMOVE =? MutationType.NEW)%Z) with false in H.
  cbn [orb] in H.
  assert (Hnil : Forall (fun _ : Primitive => True) (x :: ps))
    by (apply Forall_forall; auto).
  revert H. generalize (S (Z.to_nat (maxMutationIterations c))).
  generalize 0%Z. generalize (x :: ps). clear.
  intros ps i fuel. revert i ps w1.
  induction fuel as [| fuel IH]; intros i ps w H; cbn [mutateLoop] in H;
    [discriminate |].
  binv H as bound Hbound.
  destruct (i <? bound)%Z.
  - binv H as ps1 Hstep1. unfold mutateStep in Hstep1.
    change ((MutationType.REMOVE =? MutationType.REPLACE)%Z) with false in Hstep1.
    change ((MutationType.REMOVE =? MutationType.MODIFY)%Z) with false in Hstep1.
    change ((MutationType.REMOVE =? MutationType.REMOVE)%Z) with true in Hstep1.
    cbn iota in Hstep1. binv Hstep1 as u Hsay.
    apply ret_inv in Hstep1. destruct Hstep1 as [<- _].
    eapply IH; eassumption.
  - apply ret_inv in H. destruct H as [<- _]. reflexivity.
Qed.


Lemma overwriteFrom_fromEither {A} (src : list A) :
  forall j dst,
    List.length (overwriteFrom j dst src) = List.length dst
    /\ forall k x, nth_error (overwriteFrom j dst src) k = Some x ->
         nth_error dst k = Some x \/ nth_error src k = Some x.
Proof.
  induction src as [| s src IH]; intros j dst.
  - destruct dst; cbn [overwriteFrom]; auto.
  - destruct dst as [| d dst]; cbn [overwriteFrom]; [auto |].
    destruct j as [| j].
    + destruct (IH 0%nat dst) as [Hlen Hnth].
      split; [cbn [List.length]; rewrite Hlen; reflexivity |].
      intros [| k] x Hk; cbn [nth_error] in *; [right; exact Hk |].
      apply Hnth. exact Hk.
    + destruct (IH j dst) as [Hlen Hnth].
      split; [cbn [List.length]; rewrite Hlen; reflexivity |].
      intros [| k] x Hk; cbn [nth_error] in *; [left; exact Hk |].
      apply Hnth. exact Hk.
Qed.

Lemma fromEither_refl {A} (a b : list A) : fromEither a b a.
Proof. split; [reflexivity | auto]. Qed.

Lemma fromEither_overwrite {A} (a b out : list A) j :
  fromEither a b out -> fromEither a b (overwriteFrom j out b).
Proof.
  intros [Hlen Hnth]. destruct (overwriteFrom_fromEither b j out) as [Hl Hn].
  split; [congruence |].
  intros k x Hk. destruct (Hn k x Hk) as [Hout | Hb]; [auto | right; exact Hb].
Qed.

Lemma fromEither_Forall {A} (Q : A -> Prop) (a b out : list A) :
  fromEither a b out -> Forall Q a -> Forall Q b -> Forall Q out.
Proof.
  intros [_ Hnth] Ha Hb. rewrite Forall_forall in *. intros x Hx.
  apply In_nth_error in Hx. destruct Hx as [k Hk].
  destruct (Hnth k x Hk) as [H | H]; apply nth_error_In in H; auto.
Qed.

Lemma crossoverLoop_fromEither ps1 ps2 (fuel : nat) :
  forall i n1 n2 w out w',
    crossoverLoop c fuel ps1 ps2 i n1 n2 w = Ok out w' ->
    fromEither ps1 ps2 n1 -> fromEither ps2 ps1 n2 ->
    exists o1 o2, out = [o1; o2]
                  /\ fromEither ps1 ps2 o1 /\ fromEither ps2 ps1 o2.
Proof.
  induction fuel as [| fuel IH]; intros i n1 n2 w out w' H H1 H2;
    cbn [crossoverLoop] in H; [discriminate |].
  binv H as bound Hbound.
  destruct (i <? bound)%Z.
  - binv H as intra Hintra. destruct intra; [eapply IH; eassumption |].
    destruct (negb (Nat.eqb (List.length ps1) 0)
              && negb (Nat.eqb (List.length ps2) 0));
      [| eapply IH; eassumption].
    binv H as idx1 Hidx1. binv H as idx2 Hidx2.
    destruct (negb (idx1 =? -1)%Z && negb (idx2 =? -1)%Z);
      [| eapply IH; eassumption].
    eapply IH; [exact H | |]; apply fromEither_overwrite; assumption.
  - apply ret_inv in H. destruct H as [<- _]. exists n1, n2. auto.
Qed.

Lemma crossover_fromEither ps1 ps2 w out w' :
  crossover c ps1 ps2 w = Ok out w' ->
  exists o1 o2, out = [o1; o2]
                /\ fromEither ps1 ps2 o1 /\ fromEither ps2 ps1 o2.
Proof.
  unfold crossover. intros H. binv H as u Hsay.
  eapply crossoverLoop_fromEither; [exact H | |]; apply fromEither_refl.
Qed.

End PSSSets.

(* ================================================================== *)
(** * Static primitives *)
(* ================================================================== *)

Section PSSStatics.
Import Random PSS PSSMore.
Open Scope Q_scope.
Context {E : RandomEngine} {K : Kernel}.

Lemma extractStaticManifolds_from_spec (manifolds : ManifoldSet) :
  forall primitives restManifolds w,
  exists new w',
    extractStaticManifolds_from primitives restManifolds manifolds w
    = Ok ((primitives ++ new)%list,
          (restManifolds ++ filter isPlane manifolds)%list) w'
    /\ Forall2 staticOf (filter (fun m => negb (isPlane m)) manifolds) new
    /\ rndEngine w' = rndEngine w
    /\ exists lines, events w' = (events w ++ lines)%list
                     /\ Forall createLine lines.
Proof.
  induction manifolds as [| m rest IH]; intros primitives restManifolds w.
  - exists [], w. cbn. rewrite !app_nil_r.
    repeat split; [constructor |]. exists []. rewrite app_nil_r. auto.
  - cbn [extractStaticManifolds_from filter].
    destruct (type m) eqn:Hty;
      (assert (Hpl : isPlane m = ManifoldType.eqb (type m) ManifoldType.Plane)
         by reflexivity);
      rewrite Hty in Hpl; cbn [ManifoldType.eqb] in Hpl; rewrite !Hpl;
      cbn [negb].
    + destruct (IH primitives (restManifolds ++ [m])%list w)
        as (new & w' & Hrun & Hst & Hrnd & Hev).
      exists new, w'. rewrite Hrun, <- app_assoc. cbn [app]. auto.
    + unfold createCylinderPrimitive. unfold bind at 1 2. cbn [say emit ret].
      match goal with
      | |- context [extractStaticManifolds_from (primitives ++ [?pr])%list _ _ ?w1] =>
        destruct (IH (primitives ++ [pr])%list restManifolds w1)
          as (new & w' & Hrun & Hst & Hrnd & Hev);
        exists (pr :: new), w'
      end.
      rewrite Hrun, <- app_assoc. cbn [app].
      split; [reflexivity |]. split.
      { constructor; [| exact Hst]. unfold staticOf.
        cbn [Primitive_new ms cutout ptype]. auto. }
      split; [exact Hrnd |].
      destruct Hev as (lines & Hev & Hl). cbn [events] in Hev.
      exists (Print "POS: " :: lines). rewrite Hev, <- app_assoc.
      split; [reflexivity | constructor; [reflexivity | exact Hl]].
    + match goal with
      | |- context [extractStaticManifolds_from (primitives ++ [?pr])%list _ _ ?w1] =>
        destruct (IH (primitives ++ [pr])%list restManifolds w1)
          as (new & w' & Hrun & Hst & Hrnd & Hev);
        exists (pr :: new), w'
      end.
      rewrite Hrun, <- app_assoc. cbn [app].
      split; [reflexivity |]. split; [| auto].
      constructor; [| exact Hst]. unfold staticOf, createSpherePrimitive.
      rewrite Hty. cbn [ManifoldType.eqb negb Primitive_new ms cutout ptype].
      auto.
Qed.

(** The geometry part of the rank does not read the cutout flag. *)
Lemma geometryCounts_cutout (b : bool) (pr : Primitive) (cloud : PointCloud) :
  geometryCounts [set_cutout b pr] cloud = geometryCounts [pr] cloud.
Proof.
  unfold geometryCounts. generalize (0%Z, 0%Z).
  induction cloud as [| row cloud IH]; intros acc; [reflexivity |].
  cbn [fold_left]. rewrite IH. reflexivity.
Qed.

Lemma Qltb_irrefl (x : Q) : Qltb x x = false.
Proof. apply Qltb_false. apply Qle_refl. Qed.

Lemma tuneStaticCutouts_spec (ranker : PrimitiveSetRanker)
  (staticPrimitives : PrimitiveSet) :
  (forall pr, In pr staticPrimitives ->
              areaSums [set_cutout true pr] = areaSums [set_cutout false pr]) ->
  forall best,
    fst (tuneStaticCutouts ranker staticPrimitives best)
    = map (set_cutout false) staticPrimitives.
Proof.
  induction staticPrimitives as [| pr rest IH]; intros Harea best;
    [reflexivity |].
  cbn [tuneStaticCutouts map].
  assert (Hscore : forall b1 b2,
            fst (rank ranker [set_cutout true pr] true b1)
            = fst (rank ranker [set_cutout false pr] true b2)).
  { intros b1 b2. unfold rank, rank2.
    rewrite (Harea pr (or_introl eq_refl)).
    rewrite !geometryCounts_cutout.
    destruct (areaSums [set_cutout false pr]) as [spa sa].
    destruct (geometryCounts [pr] (rpc ranker)) as [v ch].
    cbn [List.length].
    destruct (Qltb (bestRank b1) _); destruct (Qltb (bestRank b2) _);
      reflexivity. }
  destruct (rank ranker [set_cutout false pr] true best) as [score best1] eqn:E1.
  destruct (rank ranker [set_cutout true pr] true best1)
    as [score_cutout best2] eqn:E2.
  specialize (Hscore best1 best). rewrite E1, E2 in Hscore. cbn [fst] in Hscore.
  subst score_cutout. rewrite Qltb_irrefl.
  specialize (IH (fun q Hq => Harea q (or_intror Hq)) best2).
  destruct (tuneStaticCutouts ranker rest best2) as [rest' best3].
  cbn [fst] in *. rewrite IH. reflexivity.
Qed.

End PSSStatics.

(* ================================================================== *)
(** * Ghost planes and the filter of close planes *)
(* ================================================================== *)

Section PSSGhosts.
Import Random PSS PSSMore.
Open Scope Q_scope.
Context {E : RandomEngine} {K : Kernel} {G : GhostCollaborators}.
Variables distanceThreshold angleThreshold : Q.


Lemma Subsequence_refl {A} (l : list A) : Subsequence l l.
Proof. induction l; constructor; assumption. Qed.

Lemma Subsequence_app {A} (l1 l1' l2 l2' : list A) :
  Subsequence l1 l1' -> Subsequence l2 l2' ->
  Subsequence (l1 ++ l2) (l1' ++ l2').
Proof.
  intros H1 H2. induction H1; cbn [app]; try constructor; assumption.
Qed.

Lemma apart_snoc (res : ManifoldSet) (m : Manifold) :
  apart distanceThreshold angleThreshold res ->
  (isPlane m = true -> existsb (closeTo distanceThreshold angleThreshold m) res = false) ->
  apart distanceThreshold angleThreshold (res ++ [m]).
Proof.
  intros Hres Hm pre x post Heq Hx e He.
  destruct post as [| y post].
  - apply app_inj_tail in Heq. destruct Heq as [-> ->].
    specialize (Hm Hx).
    destruct (closeTo distanceThreshold angleThreshold x e) eqn:Hc; [| reflexivity].
    assert (existsb (closeTo distanceThreshold angleThreshold x) pre = true)
      by (apply existsb_exists; exists e; auto).
    congruence.
  - assert (Hres' : res = (pre ++ x :: removelast (y :: post))%list).
    { change (pre ++ x :: y :: post)%list
        with (pre ++ (x :: y :: post))%list in Heq.
      apply (f_equal (@removelast _)) in Heq.
      rewrite removelast_last in Heq.
      rewrite removelast_app in Heq by discriminate.
      exact Heq. }
    eapply Hres; eassumption.
Qed.

(** The loop of the filter from any state: what it appends to [res]. *)
Lemma filterClosePlanes_from_spec (l : ManifoldSet) :
  forall res w,
    apart distanceThreshold angleThreshold res ->
    exists out w',
      filterClosePlanes_from res l distanceThreshold angleThreshold w
      = Ok (res ++ out)%list w'
      /\ Subsequence out l
      /\ filter (fun m0 : Manifold => negb (isPlane m0)) out = filter (fun m0 : Manifold => negb (isPlane m0)) l
      /\ apart distanceThreshold angleThreshold (res ++ out)
      /\ (forall m, In m l ->
            In m out
            \/ (isPlane m = true
                /\ exists e, In e (res ++ out)%list /\ closeTo distanceThreshold angleThreshold m e = true))
      /\ rndEngine w' = rndEngine w
      /\ events w'
         = (events w
            ++ repeat (Print "Removed plane. ")
                      (List.length l - List.length out))%list.
Proof.
  induction l as [| m l IH]; intros res w Hres.
  - exists [], w. cbn [filterClosePlanes_from ret filter List.length Nat.sub repeat].
    rewrite !app_nil_r.
    split; [reflexivity |]. split; [constructor |]. split; [reflexivity |].
    split; [exact Hres |]. split; [intros m [] |].
    split; reflexivity.
  - cbn [filterClosePlanes_from].
    change (ManifoldType.eqb (type m) ManifoldType.Plane) with (isPlane m).
    assert (Hkeep :
      (isPlane m = true -> existsb (closeTo distanceThreshold angleThreshold m) res = false) ->
      exists out w',
        filterClosePlanes_from (res ++ [m]) l distanceThreshold
                               angleThreshold w = Ok (res ++ out)%list w'
        /\ Subsequence out (m :: l)
        /\ filter (fun m0 : Manifold => negb (isPlane m0)) out = filter (fun m0 : Manifold => negb (isPlane m0)) (m :: l)
        /\ apart distanceThreshold angleThreshold (res ++ out)
        /\ (forall x, In x (m :: l) ->
              In x out
              \/ (isPlane x = true
                  /\ exists e, In e (res ++ out)%list /\ closeTo distanceThreshold angleThreshold x e = true))
        /\ rndEngine w' = rndEngine w
        /\ events w'
           = (events w
              ++ repeat (Print "Removed plane. ")
                        (List.length (m :: l) - List.length out))%list).
    { intros Hm.
      destruct (IH (res ++ [m])%list w (apart_snoc _ _ Hres Hm))
        as (out & w' & Hrun & Hsub & Hnp & Hap & Hcov & Hrnd & Hev).
      exists (m :: out), w'. rewrite <- app_assoc in Hrun, Hap, Hcov.
      cbn [app] in Hrun, Hap, Hcov.
      split; [exact Hrun |]. split; [constructor; exact Hsub |].
      split; [cbn [filter]; rewrite Hnp; reflexivity |].
      split; [exact Hap |]. split; [| split; [exact Hrnd | exact Hev]].
      intros x [<- | Hx]; [left; left; reflexivity |].
      destruct (Hcov x Hx) as [Hin | Hcl]; [left; right; exact Hin |].
      right. exact Hcl. }
    destruct (isPlane m) eqn:Hpl; cbn [negb].
    + destruct (existsb (closeTo distanceThreshold angleThreshold m) res) eqn:Hex.
      * unfold bind at 1. cbn [say emit].
        match goal with
        | |- context [filterClosePlanes_from res l _ _ ?w1] =>
          destruct (IH res w1 Hres)
            as (out & w' & Hrun & Hsub & Hnp & Hap & Hcov & Hrnd & Hev)
        end.
        exists out, w'. split; [exact Hrun |].
        split; [constructor; exact Hsub |].
        split; [cbn [filter]; rewrite Hpl; exact Hnp |].
        split; [exact Hap |]. split; [| split; [exact Hrnd |]].
        -- intros x [<- | Hx]; [| apply Hcov; exact Hx].
           right. split; [exact Hpl |].
           apply existsb_exists in Hex. destruct Hex as (e & He & Hc).
           exists e. split; [apply in_or_app; left; exact He | exact Hc].
        -- rewrite Hev. cbn [events]. rewrite <- app_assoc.
           assert (Hle : (List.length out <= List.length l)%nat).
           { clear -Hsub. induction Hsub; cbn [List.length]; lia. }
           cbn [List.length].
           replace (S (List.length l) - List.length out)%nat
             with (S (List.length l - List.length out)) by lia.
           reflexivity.
      * apply Hkeep. intros _. reflexivity.
    + apply Hkeep. discriminate.
Qed.

Lemma apart_nil : apart distanceThreshold angleThreshold [].
Proof. intros [| ? ?] ? ? Heq; discriminate. Qed.

(** On a list that is apart the filter changes nothing and removes nothing. *)
Lemma filterClosePlanes_from_fixed (l : ManifoldSet) :
  forall res w,
    apart distanceThreshold angleThreshold (res ++ l) ->
    filterClosePlanes_from res l distanceThreshold angleThreshold w
    = Ok (res ++ l)%list w.
Proof.
  induction l as [| m l IH]; intros res w Hap.
  - cbn. rewrite app_nil_r. reflexivity.
  - cbn [filterClosePlanes_from].
    change (ManifoldType.eqb (type m) ManifoldType.Plane) with (isPlane m).
    assert (Hnext : filterClosePlanes_from (res ++ [m]) l distanceThreshold
                      angleThreshold w = Ok (res ++ m :: l)%list w).
    { rewrite IH; rewrite <- app_assoc; [reflexivity | exact Hap]. }
    destruct (isPlane m) eqn:Hpl; cbn [negb]; [| exact Hnext].
    destruct (existsb (closeTo distanceThreshold angleThreshold m) res) eqn:Hex; [| exact Hnext].
    apply existsb_exists in Hex. destruct Hex as (e & He & Hc).
    rewrite (Hap res m l eq_refl Hpl e He) in Hc. discriminate.
Qed.

Lemma generateGhostPlanesForSinglePlane_spec (plane : Manifold) (w : World) :
  exists ghosts w',
    generateGhostPlanesForSinglePlane plane w = Ok ghosts w'
    /\ (ghosts = [] \/ List.length ghosts = 4%nat)
    /\ Forall (ghostOf plane) ghosts
    /\ rndEngine w' = rndEngine w.
Proof.
  unfold generateGhostPlanesForSinglePlane.
  destruct (minRectangleCorners plane)
    as [| r0 [| r1 [| r2 [| r3 [| r4 rest]]]]] eqn:Hrect;
    try (eexists; eexists; split; [reflexivity |];
         split; [left; reflexivity | split; [constructor | reflexivity]]).
  eexists; eexists. split; [reflexivity |].
  split; [right; reflexivity |]. split; [| reflexivity].
  assert (Hmid : forall a b,
            veq (vscale 2 (vsub a (vscale (1 # 2) (vsub a b)))) (vadd a b)).
  { intros a b. unfold veq, vscale, vsub, vadd. cbn [vx vy vz].
    repeat split; ring. }
  repeat (apply Forall_cons || apply Forall_nil);
    (split; [reflexivity |]; split; [reflexivity |];
     exists r0, r1, r2, r3; split; [exact Hrect |]).
  - exists r0, r1. split; [cbn; tauto | split; [apply Hmid | reflexivity]].
  - exists r1, r2. split; [cbn; tauto | split; [apply Hmid | reflexivity]].
  - exists r2, r3. split; [cbn; tauto | split; [apply Hmid | reflexivity]].
  - exists r3, r0. split; [cbn; tauto | split; [apply Hmid | reflexivity]].
Qed.

Lemma ghostsOf_spec (l : ManifoldSet) :
  forall w, exists ghosts w',
    ghostsOf l w = Ok ghosts w'
    /\ Forall (fun g => exists plane, In plane l /\ isPlane plane = true
                                      /\ ghostOf plane g) ghosts
    /\ (List.length ghosts <= 4 * List.length (filter isPlane l))%nat
    /\ rndEngine w' = rndEngine w.
Proof.
  induction l as [| m l IH]; intros w.
  - exists [], w. cbn. repeat split; [constructor | lia].
  - cbn [ghostsOf filter].
    change (ManifoldType.eqb (type m) ManifoldType.Plane) with (isPlane m).
    destruct (isPlane m) eqn:Hpl.
    + destruct (generateGhostPlanesForSinglePlane_spec m w)
        as (g1 & w1 & Hg1 & Hlen1 & Hall1 & Hrnd1).
      destruct (IH w1) as (g2 & w2 & Hg2 & Hall2 & Hlen2 & Hrnd2).
      exists (g1 ++ g2)%list, w2. unfold bind. rewrite Hg1, Hg2.
      split; [reflexivity |]. split; [| split; [| congruence]].
      * apply Forall_app. split.
        -- eapply Forall_impl; [| exact Hall1]. intros g Hg.
           exists m. split; [left; reflexivity | auto].
        -- eapply Forall_impl; [| exact Hall2].
           intros g (plane & Hin & Hp & Hg). exists plane.
           split; [right; exact Hin | auto].
      * rewrite length_app. cbn [List.length].
        destruct Hlen1 as [-> | ->]; cbn [List.length]; lia.
    + destruct (IH w) as (g2 & w2 & Hg2 & Hall2 & Hlen2 & Hrnd2).
      exists g2, w2. split; [exact Hg2 |]. split; [| auto].
      eapply Forall_impl; [| exact Hall2].
      intros g (plane & Hin & Hp & Hg). exists plane.
      split; [right; exact Hin | auto].
Qed.

End PSSGhosts.

(* ================================================================== *)
(** * The pipeline: exit codes and failures *)
(* ================================================================== *)

Section PipelineRun.
Import Random CSG Pipeline.
Open Scope string_scope.
Context {X : Collaborators}.
Variable output_folder : string.
Variable params : ParameterSet.

Lemma pbind_inv {A B} (m : P A) (k : A -> P B) tr b tr' :
  pbind m k tr = (Returned b, tr') ->
  exists a tr1, m tr = (Returned a, tr1) /\ k a tr1 = (Returned b, tr').
Proof.
  unfold pbind. destruct (m tr) as [[a | what] tr1]; [| discriminate].
  intros H. exists a, tr1. split; [reflexivity | exact H].
Qed.

Lemma call_inv {A} what (r : Except A) tr a tr' :
  call what r tr = (Returned a, tr') ->
  r = Returned a /\ tr' = (tr ++ [Call what])%list.
Proof. unfold call. intros H. inversion H. split; reflexivity. Qed.

Lemma cout_inv s tr u tr' :
  cout s tr = (Returned u, tr') -> tr' = (tr ++ [Print s])%list.
Proof. unfold cout. intros H. inversion H. reflexivity. Qed.

Lemma save_mesh_step_inv pp node label file tr u tr' :
  save_mesh_step output_folder pp node label file tr = (Returned u, tr') ->
  tr' = (tr ++ (if save_meshes pp
                then [Print label; Call "save_as_obj_mesh"; Print "Done."]
                else []))%list.
Proof.
  unfold save_mesh_step. destruct (save_meshes pp).
  - intros H. apply pbind_inv in H. destruct H as (u1 & tr1 & H1 & H).
    apply pbind_inv in H. destruct H as (u2 & tr2 & H2 & H).
    apply cout_inv in H1, H. apply call_inv in H2. destruct H2 as [_ H2].
    subst. rewrite <- !app_assoc. reflexivity.
  - intros H. inversion H. rewrite app_nil_r. reflexivity.
Qed.

Ltac pstep H :=
  let a := fresh "a" in
  let t := fresh "t" in
  let Hs := fresh "Hs" in
  apply pbind_inv in H; destruct H as (a & t & Hs & H).

Ltac prun H :=
  repeat match type of H with
         | pbind _ _ _ = (Returned _, _) => pstep H
         | (if ?b then _ else _) _ = _ => destruct b eqn:?
         | (let '(_, _) := ?x in _) _ = _ => destruct x
         | match ?o with Some _ => _ | None => _ end _ = _ => destruct o
         end.

Lemma run_exit_code_inv (tr : list Event) (code : Z) (tr' : list Event) :
  run output_folder params tr = (Returned code, tr') ->
  code = 1%Z
  \/ (code = 0%Z
      /\ exists pre,
           tr' = (pre ++ Call "writeNode"
                      :: outputMeshEvents (read_pipeline_params params))%list).
Proof.
  unfold run. intros H. prun H;
    try (inversion H; left; reflexivity).
  inversion H; subst. right. split; [reflexivity |].
  match goal with
  | Hs : save_mesh_step _ _ _ "Save output mesh..." _ ?t4 = (_, _),
    Hw : call "writeNode" _ ?t3 = (_, ?t4) |- _ =>
    apply save_mesh_step_inv in Hs; apply call_inv in Hw;
    destruct Hw as [_ Hw]; exists t3; rewrite Hs, Hw
  end.
  rewrite <- app_assoc. reflexivity.
Qed.


Lemma load_binarisation_throws_trace (pp : PipelineParams) (t : CSGNode)
  (what : string) (tr : list Event) :
  fromJSONFile (tree_file pp) = Returned t ->
  to_binary_tree t = Threw what ->
  load output_folder pp tr
  = (Returned t,
     (tr ++ [Print ("Load CSG tree from '" ++ tree_file pp ++ "'...");
             Call "fromJSONFile"; Call "to_binary_tree";
             cannotLoad pp what])%list).
Proof.
  intros Hread Hbin.
  unfold load, pbind, try_catch, call, cout, pret, cannotLoad.
  rewrite Hread, Hbin. cbn [negb]. rewrite <- !app_assoc. reflexivity.
Qed.

Lemma addsOnly_throw (allowed : Event -> Prop) {A} what :
  addsOnly allowed (@throw A what).
Proof. intros tr. exists []. rewrite app_nil_r. split; [reflexivity | auto]. Qed.

Lemma knownOptimizer_false name :
  knownOptimizer name = false ->
  String.eqb name "GA" = false
  /\ String.eqb name "Sampling.SetCover" = false
  /\ String.eqb name "Sampling.QuineMcCluskey" = false
  /\ String.eqb name "Sampling.Espresso" = false.
Proof.
  unfold knownOptimizer. intros H.
  apply orb_false_iff in H. destruct H as [H H4].
  apply orb_false_iff in H. destruct H as [H H3].
  apply orb_false_iff in H. destruct H as [H1 H2]. auto.
Qed.

Lemma optimize_unknown node prims pp tr :
  knownOptimizer (optimizer pp) = false ->
  optimize params node prims pp tr
  = (Threw ("Optimizer with name '" ++ optimizer pp ++ "' does not exist."),
     (tr ++ [Print "Optimize..."])%list).
Proof.
  intros H. apply knownOptimizer_false in H.
  destruct H as (H1 & H2 & H3 & H4).
  unfold optimize. rewrite H1, H2, H3, H4. reflexivity.
Qed.

Ltac no_optimizer :=
  let H := fresh in
  intros [H | [H | [H | H]]]; discriminate H.

Lemma run_unknown_optimizer_trace :
  knownOptimizer (optimizer (read_pipeline_params params)) = false ->
  use_decomposition (read_pipeline_params params) = false ->
  addsOnly (fun e => ~ optimizerCall e) (run output_folder params).
Proof.
  intros Hname Hdec.
  assert (Hload : addsOnly (fun e => ~ optimizerCall e)
                    (load output_folder (read_pipeline_params params))).
  { intros tr.
    destruct (load_events output_folder (read_pipeline_params params) tr)
      as (l & Hl & Hall).
    exists l. split; [exact Hl |].
    eapply Forall_impl; [| exact Hall]. intros e. apply loadEvent_not_optimizer. }
  assert (Hopt : forall node prims,
            addsOnly (fun e => ~ optimizerCall e)
              (optimize params node prims (read_pipeline_params params))).
  { intros node prims tr. rewrite optimize_unknown by exact Hname.
    exists [Print "Optimize..."]. split; [reflexivity |].
    constructor; [no_optimizer | constructor]. }
  unfold run, remove_redundancies_step, save_mesh_step, sample_if_empty.
  rewrite Hdec.
  repeat first
    [ apply addsOnly_pret
    | exact Hload
    | apply Hopt
    | apply addsOnly_cout; no_optimizer
    | apply addsOnly_call; no_optimizer
    | apply addsOnly_pbind; [| intros ?]
    | apply addsOnly_try_catch; [| intros ?]
    | match goal with
      | |- addsOnly _ (let '(_, _) := ?x in _) => destruct x
      | |- addsOnly _ (if ?b then _ else _) => destruct b
      | |- addsOnly _ (match ?o with Some _ => _ | None => _ end) => destruct o
      end ].
Qed.

Lemma run_unknown_optimizer_code (tr : list Event) :
  knownOptimizer (optimizer (read_pipeline_params params)) = false ->
  use_decomposition (read_pipeline_params params) = false ->
  fst (run output_folder params tr) <> Returned 0%Z
  /\ forall code tr',
       run output_folder params tr = (Returned code, tr') ->
       code = 1%Z
       /\ (forall node trl,
             load output_folder (read_pipeline_params params) tr
             = (Returned node, trl) ->
             operationType node <> Noop ->
             exists pre,
               tr' = (pre ++ [Print "Optimize...";
                              unknownOptimizerLine
                                (read_pipeline_params params)])%list).
Proof.
  intros Hname Hdec.
  assert (Hmain : forall code tr',
            run output_folder params tr = (Returned code, tr') ->
            code = 1%Z
            /\ (forall node trl,
                  load output_folder (read_pipeline_params params) tr
                  = (Returned node, trl) ->
                  operationType node <> Noop ->
                  exists pre,
                    tr' = (pre ++ [Print "Optimize...";
                                   unknownOptimizerLine
                                     (read_pipeline_params params)])%list)).
  { intros code tr' H. unfold run in H. rewrite Hdec in H.
    apply pbind_inv in H. destruct H as (node0 & trl0 & Hl & H).
    destruct (isNoop (operationType node0)) eqn:Hnoop.
    { inversion H; subst. split; [reflexivity |].
      intros node trl Hl' Hn. rewrite Hl in Hl'. inversion Hl'; subst.
      destruct (operationType node); try discriminate. contradiction. }
    do 9 pstep H. destruct a7 as [node1 cit1].
    do 4 pstep H.
    (* the guarded block *)
    pstep H.
    unfold try_catch, pbind in Hs12.
    rewrite optimize_unknown in Hs12 by exact Hname.
    unfold cout, pret in Hs12. inversion Hs12; subst.
    inversion H; subst. split; [reflexivity |].
    intros _ _ _ _. unfold unknownOptimizerLine.
    match goal with
    | |- exists pre, ((?a ++ [_]) ++ [_])%list = _ => exists a
    end.
    rewrite <- app_assoc. reflexivity. }
  split; [| exact Hmain].
  destruct (run output_folder params tr) as [[code | what] tr'] eqn:Hrun;
    cbn [fst]; [| discriminate].
  destruct (Hmain code tr' eq_refl) as [-> _]. discriminate.
Qed.

End PipelineRun.

(* ================================================================== *)
(** * The creator of primitive sets: what it builds and keeps *)
(* ================================================================== *)

Section PSSCreatorResults.
Import Random PSS PSSMore.
Open Scope Q_scope.
Context {E : RandomEngine} {K : Kernel}.
Variable c : PrimitiveSetCreator.

(** X10.  Whatever [createPrimitive] returns is no sphere, although it has
    a case for spheres: [getRandomPrimitiveType] maps a sphere manifold to
    the kind None.  The manifold list of the result fits its kind: six
    planes for a box, the cylinder first for a cylinder. *)
Theorem createPrimitive_never_builds_a_sphere (w : World) (pr : Primitive)
  (w' : World) :
  createPrimitive c w = Ok pr w' ->
  ptype pr <> PrimitiveType.Sphere /\ wellFormed pr.
Proof.
  intros H. apply createPrimitive_shape in H.
  destruct H as (Hwf & Hns & _). split; assumption.
Qed.

(** X11.  A box that [createPrimitive] returns is what [createBoxPrimitive]
    makes of six planes of the creator, none equal to one selected before
    it, which form three pairs: the second plane of a pair passed the
    filter of [getParallelPlane] against the first (normals within the
    angle epsilon up to sign, points further apart than the minimum
    distance), and the first plane of the second and of the third pair
    passed the filter of [getPerpendicularPlane] against all planes before
    it.  The cutout flag is drawn afterwards. *)
Theorem createPrimitive_box_from_three_parallel_pairs (w : World)
  (pr : Primitive) (w' : World) :
  createPrimitive c w = Ok pr w' ->
  ptype pr = PrimitiveType.Box ->
  exists planes cut,
    boxSelection c planes
    /\ pr = set_cutout cut (createBoxPrimitive planes).
Proof.
  intros H Hbox. apply createPrimitive_shape in H.
  destruct H as (_ & _ & Hsel & _). destruct (Hsel Hbox) as [_ Hex].
  exact Hex.
Qed.

(** X12.  A set that [create] returns has between 1 and
    [maxPrimitiveSetSize] members; none is of kind None, none is a sphere,
    and the manifold list of each fits its kind. *)
Theorem create_set_size_and_members (fuel : nat) (w : World)
  (ps : PrimitiveSet) (w' : World) :
  create c fuel w = Ok ps w' ->
  (1 <= Z.of_nat (List.length ps) <= maxPrimitiveSetSize c)%Z
  /\ Forall evolved ps.
Proof. apply create_members. Qed.

(** X13.  Over manifolds without a plane and without a cylinder (spheres
    only, or none at all) [create] never returns a set, whatever the number
    of turns of its loop: every primitive it builds is None and is thrown
    away, so the set never reaches its size. *)
Theorem create_never_returns_without_planes_and_cylinders (fuel : nat)
  (w : World) (ps : PrimitiveSet) (w' : World) :
  nothingToBuildFrom c ->
  create c fuel w <> Ok ps w'.
Proof. intros Hno. apply create_nothing. exact Hno. Qed.

(** X14.  [mutatePrimitive] keeps the manifold list fitting the kind: the
    result of mutating a primitive with a fitting list has a fitting list,
    and is a sphere only if the primitive was one. *)
Theorem mutatePrimitive_keeps_manifolds_fitting (p0 : Primitive) (eps : Q)
  (w : World) (pr : Primitive) (w' : World) :
  wellFormed p0 ->
  mutatePrimitive c p0 eps w = Ok pr w' ->
  wellFormed pr
  /\ (ptype p0 <> PrimitiveType.Sphere -> ptype pr <> PrimitiveType.Sphere).
Proof. apply mutatePrimitive_wellFormed. Qed.

(** X15.  [mutate] keeps the members sound: from a set without None
    members and spheres, with fitting manifold lists, it returns such a set.
    The result is a new set of 1 to [maxPrimitiveSetSize] members, or it
    has at least the members of the input and at most
    [maxMutationIterations] more: no mutation shrinks a set, and the size
    limit does not bound the growth by ADD. *)
Theorem mutate_keeps_members_sound (fuel : nat) (ps : PrimitiveSet)
  (w : World) (out : PrimitiveSet) (w' : World) :
  mutate c fuel ps w = Ok out w' ->
  Forall evolved ps ->
  Forall evolved out
  /\ ((1 <= Z.of_nat (List.length out) <= maxPrimitiveSetSize c)%Z
      \/ (Z.of_nat (List.length ps) <= Z.of_nat (List.length out)
          <= Z.of_nat (List.length ps) + maxMutationIterations c)%Z).
Proof. apply mutate_members. Qed.

(** X16.  The mutation REMOVE removes nothing: when that kind is drawn for
    a non-empty set, [mutate] returns the set as it was. *)
Theorem mutate_remove_returns_the_input (fuel : nat) (ps : PrimitiveSet)
  (w w1 : World) (out : PrimitiveSet) (w' : World) :
  discrete (mutationDistribution c) w = Ok MutationType.REMOVE w1 ->
  ps <> [] ->
  mutate c fuel ps w = Ok out w' ->
  out = ps.
Proof. apply mutate_remove. Qed.

(** X17.  [crossover] returns two sets, the first of the size of its first
    input and the second of the size of its second input; every member of
    a result stands at the same position in one of the two inputs.  So any
    property of all members of both inputs holds of all members of both
    results. *)
Theorem crossover_exchanges_members_in_place (ps1 ps2 : PrimitiveSet)
  (w : World) (out : list PrimitiveSet) (w' : World) :
  crossover c ps1 ps2 w = Ok out w' ->
  exists o1 o2,
    out = [o1; o2]
    /\ fromEither ps1 ps2 o1 /\ fromEither ps2 ps1 o2
    /\ forall Q : Primitive -> Prop,
         Forall Q ps1 -> Forall Q ps2 -> Forall Q o1 /\ Forall Q o2.
Proof.
  intros H. apply crossover_fromEither in H.
  destruct H as (o1 & o2 & -> & H1 & H2). exists o1, o2.
  split; [reflexivity |]. split; [exact H1 |]. split; [exact H2 |].
  intros Q Hq1 Hq2. split; eapply fromEither_Forall; eassumption.
Qed.

End PSSCreatorResults.

(* ================================================================== *)
(** * Static primitives, ghost planes *)
(* ================================================================== *)

Section PSSStaticResults.
Import Random PSS PSSMore.
Open Scope Q_scope.
Context {E : RandomEngine} {K : Kernel}.

(** X18.  [extractStaticManifolds] always returns, and splits the
    manifolds: the planes are left to the creator, in their order; every
    sphere and every cylinder becomes a static primitive of its kind, built
    of that manifold alone and no cutout, in their order.  It draws no
    random number and writes only the line of the cylinder builder. *)
Theorem extractStaticManifolds_splits_planes_from_the_rest
  (manifolds : ManifoldSet) (w : World) :
  exists primitives w',
    extractStaticManifolds manifolds w
    = Ok (primitives, filter isPlane manifolds) w'
    /\ Forall2 staticOf (filter (fun m => negb (isPlane m)) manifolds)
               primitives
    /\ rndEngine w' = rndEngine w
    /\ exists lines, events w' = (events w ++ lines)%list
                     /\ Forall createLine lines.
Proof.
  destruct (extractStaticManifolds_from_spec manifolds [] [] w)
    as (new & w' & Hrun & Hrest).
  exists new, w'. split; [exact Hrun | exact Hrest].
Qed.

(** X19.  The loop of [extractPrimitivesWithGA] that tries both cutout
    flags of every static primitive never makes one a cutout: the rank does
    not read the flag, so the two scores are equal and every static
    primitive ends as no cutout, whatever it was before.  (The area part of
    the rank is a collaborator here; that it does not read the flag, as in
    the source, is the hypothesis.) *)
Theorem tuneStaticCutouts_clears_every_cutout (ranker : PrimitiveSetRanker)
  (staticPrimitives : PrimitiveSet) (best : RankerBest) :
  (forall pr, In pr staticPrimitives ->
              areaSums [set_cutout true pr] = areaSums [set_cutout false pr]) ->
  fst (tuneStaticCutouts ranker staticPrimitives best)
  = map (set_cutout false) staticPrimitives.
Proof. intros H. apply tuneStaticCutouts_spec. exact H. Qed.

Context {G : GhostCollaborators}.

(** X20.  [filterClosePlanes] always returns.  Its result is the input with
    some planes left out: every manifold that is no plane is kept; no plane
    of the result is close to a manifold before it in the result; every
    manifold left out is a plane close to a manifold of the result; and one
    line is written per plane left out. *)
Theorem filterClosePlanes_keeps_a_separated_subsequence (l : ManifoldSet)
  (distanceThreshold angleThreshold : Q) (w : World) :
  exists out w',
    filterClosePlanes l distanceThreshold angleThreshold w = Ok out w'
    /\ Subsequence out l
    /\ filter (fun m => negb (isPlane m)) out
       = filter (fun m => negb (isPlane m)) l
    /\ apart distanceThreshold angleThreshold out
    /\ (forall m, In m l ->
          In m out
          \/ (isPlane m = true
              /\ exists e, In e out
                           /\ closeTo distanceThreshold angleThreshold m e
                              = true))
    /\ rndEngine w' = rndEngine w
    /\ events w'
       = (events w ++ repeat (Print "Removed plane. ")
                             (List.length l - List.length out))%list.
Proof.
  destruct (filterClosePlanes_from_spec distanceThreshold angleThreshold l
              [] w (apart_nil distanceThreshold angleThreshold))
    as (out & w' & Hrun & Hrest).
  exists out, w'. split; [exact Hrun | exact Hrest].
Qed.

(** X21.  [filterClosePlanes] is idempotent: run on its own result it
    returns that result and writes nothing. *)
Theorem filterClosePlanes_is_idempotent (l : ManifoldSet)
  (distanceThreshold angleThreshold : Q) (w : World) :
  exists out w',
    filterClosePlanes l distanceThreshold angleThreshold w = Ok out w'
    /\ forall w2,
         filterClosePlanes out distanceThreshold angleThreshold w2 = Ok out w2.
Proof.
  destruct (filterClosePlanes_from_spec distanceThreshold angleThreshold l
              [] w (apart_nil distanceThreshold angleThreshold))
    as (out & w' & Hrun & _ & _ & Hap & _).
  exists out, w'. split; [exact Hrun |]. intros w2.
  apply (filterClosePlanes_from_fixed distanceThreshold angleThreshold out []).
  exact Hap.
Qed.

(** X22.  [generateGhostPlanesForSinglePlane] always returns, with four
    planes or none (none when CGAL gives no rectangle of four corners).
    Each of the four is a plane without points that passes through the
    middle of one side of the rectangle, with the normal of the cross
    product of that side and the normal of the given plane. *)
Theorem generateGhostPlanesForSinglePlane_four_or_none (plane : Manifold)
  (w : World) :
  exists ghosts w',
    generateGhostPlanesForSinglePlane plane w = Ok ghosts w'
    /\ (ghosts = [] \/ List.length ghosts = 4%nat)
    /\ Forall (ghostOf plane) ghosts
    /\ rndEngine w' = rndEngine w.
Proof. apply generateGhostPlanesForSinglePlane_spec. Qed.

(** X23.  [generateGhostPlanes] always returns.  Its result is a
    subsequence of the given manifolds followed by ghost planes of their
    planes, at most four per plane; its manifolds that are no planes are
    the given ones, in their order; and no plane of it is close to a
    manifold before it, for the distance threshold scaled by the length of
    the bounding box of the point cloud. *)
Theorem generateGhostPlanes_adds_separated_ghosts (cloud : PointCloud)
  (l : ManifoldSet) (distanceThreshold angleThreshold : Q) (w : World) :
  exists ghosts out w',
    generateGhostPlanes cloud l distanceThreshold angleThreshold w = Ok out w'
    /\ Forall (fun g => exists plane, In plane l /\ isPlane plane = true
                                      /\ ghostOf plane g) ghosts
    /\ (List.length ghosts <= 4 * List.length (filter isPlane l))%nat
    /\ Subsequence out (l ++ ghosts)
    /\ filter (fun m => negb (isPlane m)) out
       = filter (fun m => negb (isPlane m)) l
    /\ apart (distanceThreshold * computeAABBLength cloud) angleThreshold out
    /\ rndEngine w' = rndEngine w.
Proof.
  destruct (ghostsOf_spec l w) as (ghosts & w1 & Hg & Hall & Hlen & Hrnd1).
  destruct (filterClosePlanes_from_spec
              (distanceThreshold * computeAABBLength cloud) angleThreshold
              (l ++ ghosts) [] w1
              (apart_nil (distanceThreshold * computeAABBLength cloud)
                         angleThreshold))
    as (out & w' & Hrun & Hsub & Hnp & Hap & _ & Hrnd & _).
  exists ghosts, out, w'. unfold generateGhostPlanes, bind. rewrite Hg.
  split; [exact Hrun |]. split; [exact Hall |]. split; [exact Hlen |].
  split; [exact Hsub |]. split; [| split; [exact Hap | congruence]].
  rewrite Hnp, filter_app.
  assert (Hnone : filter (fun m => negb (isPlane m)) ghosts = []).
  { clear -Hall. induction Hall as [| g gs Hg _ IH]; [reflexivity |].
    cbn [filter]. destruct Hg as (plane & _ & _ & Hty & _).
    unfold isPlane at 1. rewrite Hty. cbn. exact IH. }
  rewrite Hnone, app_nil_r. reflexivity.
Qed.

End PSSStaticResults.

(* ================================================================== *)
(** * The pipeline: what the exit code tells *)
(* ================================================================== *)

Section PipelineResults.
Import Random CSG Pipeline.
Open Scope string_scope.
Context {X : Collaborators}.
Variable output_folder : string.
Variable params : ParameterSet.

(** X24.  When [run] returns, its exit code is 0 or 1, and with exit code
    0 the last things it did were to write the output tree and, if meshes
    are saved, the output mesh. *)
Theorem run_exit_code_0_means_output_written (tr : list Event) (code : Z)
  (tr' : list Event) :
  run output_folder params tr = (Returned code, tr') ->
  code = 1%Z
  \/ (code = 0%Z
      /\ exists pre,
           tr' = (pre ++ Call "writeNode"
                      :: outputMeshEvents (read_pipeline_params params))%list).
Proof. apply run_exit_code_inv. Qed.

(** X25.  When the tree file is read and the binarisation of the tree
    throws, [load] reports that it cannot load the tree and yet returns the
    tree as read, not the Noop node: the guard of [run] then lets a tree
    pass that is not binarised.  Neither the input mesh nor input.gv is
    written. *)
Theorem load_keeps_read_tree_when_binarisation_throws (pp : PipelineParams)
  (t : CSGNode) (what : string) (tr : list Event) :
  fromJSONFile (tree_file pp) = Returned t ->
  to_binary_tree t = Threw what ->
  load output_folder pp tr
  = (Returned t,
     (tr ++ [Print ("Load CSG tree from '" ++ tree_file pp ++ "'...");
             Call "fromJSONFile"; Call "to_binary_tree";
             cannotLoad pp what])%list).
Proof. apply load_binarisation_throws_trace. Qed.

(** X26.  With an optimiser name that [optimize] does not know and the
    decomposition switched off, [run] never returns exit code 0 and calls
    no optimiser; when it returns, the exit code is 1, and if the input
    tree got past the guard, its last two lines are that of [optimize] and
    the report that the optimiser does not exist. *)
Theorem run_unknown_optimizer_exits_1 (tr : list Event) :
  knownOptimizer (optimizer (read_pipeline_params params)) = false ->
  use_decomposition (read_pipeline_params params) = false ->
  fst (run output_folder params tr) <> Returned 0%Z
  /\ (exists l, snd (run output_folder params tr) = (tr ++ l)%list
                /\ Forall (fun e => ~ optimizerCall e) l)
  /\ forall code tr',
       run output_folder params tr = (Returned code, tr') ->
       code = 1%Z
       /\ (forall node trl,
             load output_folder (read_pipeline_params params) tr
             = (Returned node, trl) ->
             operationType node <> Noop ->
             exists pre,
               tr' = (pre ++ [Print "Optimize...";
                              unknownOptimizerLine
                                (read_pipeline_params params)])%list).
Proof.
  intros Hname Hdec.
  destruct (run_unknown_optimizer_code output_folder params tr Hname Hdec)
    as [H0 Hcode].
  split; [exact H0 |]. split; [| exact Hcode].
  apply (run_unknown_optimizer_trace output_folder params Hname Hdec).
Qed.

End PipelineResults.

(* ================================================================== *)
(** * The affinity matrix over a mesh *)
(* ================================================================== *)

Section VisAffinity.
Import Random PSS Vis.
Open Scope Q_scope.
Context {X : Collaborators}.
Variable cloud : PointCloud.
Variable surface_mesh : Mesh.


Lemma pairAffinity_range i j : 0 < pairAffinity cloud surface_mesh i j <= 1.
Proof.
  unfold pairAffinity.
  destruct (Z.eqb_spec (facesBetween cloud surface_mesh i j) 0) as [_ | Hne];
    [split; [reflexivity | apply Qle_refl] |].
  assert (Hpos : (0 < facesBetween cloud surface_mesh i j)%Z)
    by (unfold facesBetween in *; lia).
  assert (Hq : 0 < inject_Z (facesBetween cloud surface_mesh i j))
    by (rewrite <- (Zlt_Qlt 0); exact Hpos).
  set (f := inject_Z (facesBetween cloud surface_mesh i j)) in *.
  split.
  - apply Qlt_shift_div_l; lra.
  - apply Qle_shift_div_r; lra.
Qed.

Lemma pairAffinity_one i j :
  pairAffinity cloud surface_mesh i j == 1 <-> (facesBetween cloud surface_mesh i j = 0)%Z.
Proof.
  unfold pairAffinity.
  destruct (Z.eqb_spec (facesBetween cloud surface_mesh i j) 0) as [He | Hne].
  - split; [intros _; exact He | intros _; reflexivity].
  - split; [| intros; contradiction].
    assert (Hpos : (0 < facesBetween cloud surface_mesh i j)%Z)
      by (unfold facesBetween in *; lia).
    assert (Hq : 0 < inject_Z (facesBetween cloud surface_mesh i j))
      by (rewrite <- (Zlt_Qlt 0); exact Hpos).
    set (f := inject_Z (facesBetween cloud surface_mesh i j)) in *.
    intros H. exfalso.
    assert (H1 : 1 / (1 + f) < 1) by (apply Qlt_shift_div_r; lra).
    lra.
Qed.

Lemma pairBody_coeff i st j :
  let st' := pairBody cloud surface_mesh (signed_distance_pseudonormal surface_mesh cloud) i st j in
  rows (fst (fst st')) = rows (fst (fst st))
  /\ cols (fst (fst st')) = cols (fst (fst st))
  /\ forall a b,
       coeff (fst (fst st')) a b
       = if writes i a b j then pairAffinity cloud surface_mesh i j else coeff (fst (fst st)) a b.
Proof.
  destruct st as [[am c] out]. cbn [pairBody fst assignCoeff rows cols coeff].
  split; [reflexivity |]. split; [reflexivity |].
  intros a b. unfold writes.
  destruct (Nat.eqb a j && Nat.eqb b i) eqn:H2;
    destruct (Nat.eqb a i && Nat.eqb b j) eqn:H1; reflexivity.
Qed.

Lemma writes_value i a b j :
  (i < j)%nat -> writes i a b j = true -> pairAffinity cloud surface_mesh i j = affinity cloud surface_mesh a b.
Proof.
  intros Hij H. unfold writes in H. unfold affinity.
  apply orb_true_iff in H. destruct H as [H | H];
    apply andb_true_iff in H; destruct H as [Ha Hb];
    apply Nat.eqb_eq in Ha, Hb; subst.
  - rewrite Nat.min_l, Nat.max_r by lia. reflexivity.
  - rewrite Nat.min_r, Nat.max_l by lia. reflexivity.
Qed.

Lemma inner_coeff i (js : list nat) :
  forall st,
    Forall (fun j => (i < j)%nat) js ->
    let st' := fold_left (pairBody cloud surface_mesh (signed_distance_pseudonormal surface_mesh cloud) i) js st in
    rows (fst (fst st')) = rows (fst (fst st))
    /\ cols (fst (fst st')) = cols (fst (fst st))
    /\ forall a b,
         coeff (fst (fst st')) a b
         = if existsb (writes i a b) js then affinity cloud surface_mesh a b
           else coeff (fst (fst st)) a b.
Proof.
  induction js as [| j js IH]; intros st Hjs; cbn [fold_left existsb].
  - repeat split; reflexivity.
  - inversion Hjs as [| ? ? Hj Hrest]; subst.
    destruct (IH (pairBody cloud surface_mesh (signed_distance_pseudonormal surface_mesh cloud) i st j) Hrest)
      as (Hr & Hc & Hco).
    destruct (pairBody_coeff i st j) as (Hr1 & Hc1 & Hco1).
    cbn zeta in *. split; [congruence |]. split; [congruence |].
    intros a b. rewrite Hco, Hco1.
    destruct (writes i a b j) eqn:Hh; cbn [orb].
    + destruct (existsb (writes i a b) js); [reflexivity |].
      apply writes_value; assumption.
    + reflexivity.
Qed.

Lemma seq_above i len : Forall (fun j => (i < j)%nat) (seq (S i) len).
Proof. apply Forall_forall. intros j Hj. apply in_seq in Hj. lia. Qed.

Lemma outer_coeff (size : nat) (idxs : list nat) :
  forall st,
    let st' :=
      fold_left (fun st i =>
                   fold_left (pairBody cloud surface_mesh (signed_distance_pseudonormal surface_mesh cloud) i)
                             (seq (S i) (size - S i)) st) idxs st in
    rows (fst (fst st')) = rows (fst (fst st))
    /\ cols (fst (fst st')) = cols (fst (fst st))
    /\ forall a b,
         coeff (fst (fst st')) a b
         = if existsb (fun i => existsb (writes i a b) (seq (S i) (size - S i))) idxs
           then affinity cloud surface_mesh a b else coeff (fst (fst st)) a b.
Proof.
  induction idxs as [| i idxs IH]; intros st; cbn [fold_left existsb].
  - repeat split; reflexivity.
  - destruct (IH (fold_left (pairBody cloud surface_mesh (signed_distance_pseudonormal surface_mesh cloud) i)
                            (seq (S i) (size - S i)) st)) as (Hr & Hc & Hco).
    destruct (inner_coeff i (seq (S i) (size - S i)) st (seq_above i _))
      as (Hr1 & Hc1 & Hco1).
    cbn zeta in *. split; [congruence |]. split; [congruence |].
    intros a b. rewrite Hco, Hco1.
    destruct (existsb (writes i a b) (seq (S i) (size - S i))); cbn [orb];
      [| reflexivity].
    destruct (existsb _ idxs); reflexivity.
Qed.

Lemma visited_iff (size a b : nat) :
  existsb (fun i => existsb (writes i a b) (seq (S i) (size - S i))) (seq 0 size)
  = true
  <-> ((a < b < size)%nat \/ (b < a < size)%nat).
Proof.
  rewrite existsb_exists. split.
  - intros (i & Hi & Hex). apply in_seq in Hi.
    apply existsb_exists in Hex. destruct Hex as (j & Hj & Hh).
    apply in_seq in Hj. unfold writes in Hh.
    apply orb_true_iff in Hh. destruct Hh as [H | H];
      apply andb_true_iff in H; destruct H as [Ha Hb];
      apply Nat.eqb_eq in Ha, Hb; subst; lia.
  - intros [H | H].
    + exists a. split; [apply in_seq; lia |].
      apply existsb_exists. exists b. split; [apply in_seq; lia |].
      unfold writes. rewrite !Nat.eqb_refl. reflexivity.
    + exists b. split; [apply in_seq; lia |].
      apply existsb_exists. exists a. split; [apply in_seq; lia |].
      unfold writes. rewrite !Nat.eqb_refl. apply orb_true_r.
Qed.

Lemma affinity_comm a b : affinity cloud surface_mesh a b = affinity cloud surface_mesh b a.
Proof. unfold affinity. rewrite Nat.min_comm, Nat.max_comm. reflexivity. Qed.

Lemma maxCoeff_zeros (k : nat) : maxCoeff (repeat 0 (S k)) = Some 0.
Proof.
  cbn [repeat maxCoeff]. f_equal.
  induction k as [| k IH]; [reflexivity |]. cbn [repeat fold_left]. exact IH.
Qed.

Lemma debug_rows (l : list Vector3d) :
  forall k, k = List.length l ->
    map fst (combine l (map (fun h : Double => (h, h, h))
                            (map (fun h => divide h 0) (repeat 0 k)))) = l
    /\ Forall (fun row : Vector3d * (Double * Double * Double) =>
                 snd row = (NaN, NaN, NaN))
              (combine l (map (fun h : Double => (h, h, h))
                              (map (fun h => divide h 0) (repeat 0 k)))).
Proof.
  induction l as [| x l IH]; intros k Hk; subst k.
  - split; [reflexivity | constructor].
  - cbn [List.length repeat map combine].
    destruct (IH _ eq_refl) as [H1 H2].
    split; [cbn [fst]; rewrite H1; reflexivity |].
    constructor; [reflexivity | exact H2].
Qed.

Lemma get_affinity_matrix_result :
  cloud <> [] ->
  exists am debug out,
    get_affinity_matrix cloud surface_mesh = (Some (am, debug), out)
    /\ rows am = List.length cloud /\ cols am = List.length cloud
    /\ (forall i j, (i < List.length cloud)%nat -> (j < List.length cloud)%nat ->
          coeff am i j = coeff am j i
          /\ (i = j -> coeff am i j = 0)
          /\ (i <> j ->
              coeff am i j = affinity cloud surface_mesh i j
              /\ 0 < coeff am i j <= 1
              /\ (coeff am i j == 1
                  <-> facesBetween cloud surface_mesh
                                   (Nat.min i j) (Nat.max i j) = 0%Z)))
    /\ map fst debug = map fst cloud
    /\ Forall (fun row => snd row = (NaN, NaN, NaN)) debug.
Proof.
  intros Hne. unfold get_affinity_matrix, get_signed_distances.
  cbv beta iota zeta.
  match goal with
  | |- context [fold_left ?f ?l ?s] =>
    match type of s with
    | (MatrixXd * Z * list Event)%type =>
      pose proof (outer_coeff (List.length cloud) l s) as Hout;
      cbv zeta in Hout;
      set (res := fold_left f l s) in *;
      change (fold_left
                (fun st i =>
                   fold_left
                     (pairBody cloud surface_mesh
                        (signed_distance_pseudonormal surface_mesh cloud) i)
                     (seq (S i) (List.length cloud - S i)) st) l s)
        with res in Hout
    end
  end.
  clearbody res. destruct res as [[am c] out].
  cbn [fst setZero rows cols coeff] in Hout.
  destruct Hout as (Hr & Hc & Hco).
  assert (Hmax : maxCoeff (repeat 0 (List.length cloud)) = Some 0).
  { destruct (List.length cloud) as [| k] eqn:Hlen;
      [apply length_zero_iff_nil in Hlen; contradiction |].
    apply maxCoeff_zeros. }
  rewrite Hmax.
  eexists; eexists; eexists. split; [reflexivity |].
  split; [exact Hr |]. split; [exact Hc |]. split.
  - intros i j Hi Hj.
    pose proof (visited_iff (List.length cloud) i j) as Hij.
    pose proof (visited_iff (List.length cloud) j i) as Hji.
    rewrite !Hco.
    destruct (existsb _ (seq 0 (List.length cloud))) eqn:E1 in |- *.
    + assert (E2 : existsb
                (fun i0 => existsb (writes i0 j i)
                             (seq (S i0) (List.length cloud - S i0)))
                (seq 0 (List.length cloud)) = true).
      { apply Hji. apply Hij in E1. lia. }
      rewrite E2. split; [apply affinity_comm |]. split.
      * intros ->. apply Hij in E1. lia.
      * intros _. split; [reflexivity |]. unfold affinity.
        split; [apply pairAffinity_range | apply pairAffinity_one].
    + assert (E2 : existsb
                (fun i0 => existsb (writes i0 j i)
                             (seq (S i0) (List.length cloud - S i0)))
                (seq 0 (List.length cloud)) = false).
      { destruct (existsb _ (seq 0 (List.length cloud))) eqn:E2 in |- *;
          [| reflexivity].
        apply Hji in E2. assert (Hc' : true = false); [| discriminate].
        rewrite <- E1. symmetry. apply Hij. lia. }
      rewrite E2. split; [reflexivity |]. split; [reflexivity |].
      intros Hneq. exfalso.
      assert (Hc' : true = false); [| discriminate].
      rewrite <- E1. symmetry. apply Hij. lia.
  - apply debug_rows. rewrite length_map. reflexivity.
Qed.

End VisAffinity.

(* ================================================================== *)
(** * The affinity matrix over planes *)
(* ================================================================== *)

Section VisPlaneAffinity.
Import Random PSS Vis.
Open Scope Q_scope.
Context {K : Kernel} {Y : PlaneCollaborators}.
Variable cloud : PointCloud.
Variable planes : ManifoldSet.
Variable max_dist : Q.

Lemma planePairBody_coeff i st j :
  let st' := planePairBody cloud planes max_dist i st j in
  rows (fst (fst (fst st'))) = rows (fst (fst (fst st)))
  /\ cols (fst (fst (fst st'))) = cols (fst (fst (fst st)))
  /\ forall a b,
       coeff (fst (fst (fst st'))) a b
       = if planeWrites cloud i a b j
         then (if blocked cloud planes max_dist (row3 cloud i) (row3 cloud j)
               then 0 else 1)
         else coeff (fst (fst (fst st))) a b.
Proof.
  destruct st as [[[am c] wrong] out]. unfold planePairBody, planeWrites.
  cbv zeta. fold (wrongSide cloud i j).
  destruct (wrongSide cloud i j); cbn [fst negb].
  - split; [reflexivity |]. split; [reflexivity |].
    intros a b. rewrite andb_false_r. reflexivity.
  - cbn [assignCoeff rows cols coeff].
    split; [reflexivity |]. split; [reflexivity |].
    intros a b. rewrite andb_true_r. unfold writes.
    destruct (Nat.eqb a j && Nat.eqb b i) eqn:H2;
      destruct (Nat.eqb a i && Nat.eqb b j) eqn:H1; reflexivity.
Qed.

(** The value written for the coefficient (a, b), for either order. *)
Lemma planeWrites_rows i a b j :
  (i < j)%nat -> planeWrites cloud i a b j = true ->
  i = Nat.min a b /\ j = Nat.max a b.
Proof.
  intros Hij H. unfold planeWrites, writes in H.
  apply andb_true_iff in H. destruct H as [H _].
  apply orb_true_iff in H. destruct H as [H | H];
    apply andb_true_iff in H; destruct H as [Ha Hb];
    apply Nat.eqb_eq in Ha, Hb; subst; lia.
Qed.

Lemma plane_inner_coeff i (js : list nat) :
  forall st,
    Forall (fun j => (i < j)%nat) js ->
    let st' := fold_left (planePairBody cloud planes max_dist i) js st in
    rows (fst (fst (fst st'))) = rows (fst (fst (fst st)))
    /\ cols (fst (fst (fst st'))) = cols (fst (fst (fst st)))
    /\ forall a b,
         coeff (fst (fst (fst st'))) a b
         = if existsb (planeWrites cloud i a b) js
           then (if blocked cloud planes max_dist
                            (row3 cloud (Nat.min a b))
                            (row3 cloud (Nat.max a b))
                 then 0 else 1)
           else coeff (fst (fst (fst st))) a b.
Proof.
  induction js as [| j js IH]; intros st Hjs; cbn [fold_left existsb].
  - repeat split; reflexivity.
  - inversion Hjs as [| ? ? Hj Hrest]; subst.
    destruct (IH (planePairBody cloud planes max_dist i st j) Hrest)
      as (Hr & Hc & Hco).
    destruct (planePairBody_coeff i st j) as (Hr1 & Hc1 & Hco1).
    cbv zeta in *. split; [congruence |]. split; [congruence |].
    intros a b. rewrite Hco, Hco1.
    destruct (planeWrites cloud i a b j) eqn:Hh; cbn [orb]; [| reflexivity].
    destruct (existsb (planeWrites cloud i a b) js); [reflexivity |].
    destruct (planeWrites_rows i a b j Hj Hh) as [<- <-]. reflexivity.
Qed.

Lemma plane_outer_coeff (size : nat) (idxs : list nat) :
  forall st,
    let st' :=
      fold_left (fun st i =>
                   fold_left (planePairBody cloud planes max_dist i)
                             (seq (S i) (size - S i)) st) idxs st in
    rows (fst (fst (fst st'))) = rows (fst (fst (fst st)))
    /\ cols (fst (fst (fst st'))) = cols (fst (fst (fst st)))
    /\ forall a b,
         coeff (fst (fst (fst st'))) a b
         = if existsb (fun i => existsb (planeWrites cloud i a b)
                                        (seq (S i) (size - S i))) idxs
           then (if blocked cloud planes max_dist
                            (row3 cloud (Nat.min a b))
                            (row3 cloud (Nat.max a b))
                 then 0 else 1)
           else coeff (fst (fst (fst st))) a b.
Proof.
  induction idxs as [| i idxs IH]; intros st; cbn [fold_left existsb].
  - repeat split; reflexivity.
  - destruct (IH (fold_left (planePairBody cloud planes max_dist i)
                            (seq (S i) (size - S i)) st)) as (Hr & Hc & Hco).
    destruct (plane_inner_coeff i (seq (S i) (size - S i)) st (seq_above i _))
      as (Hr1 & Hc1 & Hco1).
    cbv zeta in *. split; [congruence |]. split; [congruence |].
    intros a b. rewrite Hco, Hco1.
    destruct (existsb (planeWrites cloud i a b) (seq (S i) (size - S i)));
      cbn [orb]; [| reflexivity].
    destruct (existsb _ idxs); reflexivity.
Qed.

Lemma plane_visited_iff (size a b : nat) :
  existsb (fun i => existsb (planeWrites cloud i a b) (seq (S i) (size - S i)))
          (seq 0 size) = true
  <-> (((a < b < size)%nat /\ wrongSide cloud a b = false)
       \/ ((b < a < size)%nat /\ wrongSide cloud b a = false)).
Proof.
  rewrite existsb_exists. split.
  - intros (i & Hi & Hex). apply in_seq in Hi.
    apply existsb_exists in Hex. destruct Hex as (j & Hj & Hh).
    apply in_seq in Hj. unfold planeWrites, writes in Hh.
    apply andb_true_iff in Hh. destruct Hh as [Hh Hside].
    apply negb_true_iff in Hside.
    apply orb_true_iff in Hh. destruct Hh as [H | H];
      apply andb_true_iff in H; destruct H as [Ha Hb];
      apply Nat.eqb_eq in Ha, Hb; subst; [left | right];
      (split; [lia | exact Hside]).
  - intros [[H Hside] | [H Hside]].
    + exists a. split; [apply in_seq; lia |].
      apply existsb_exists. exists b. split; [apply in_seq; lia |].
      unfold planeWrites, writes. rewrite !Nat.eqb_refl, Hside. reflexivity.
    + exists b. split; [apply in_seq; lia |].
      apply existsb_exists. exists a. split; [apply in_seq; lia |].
      unfold planeWrites, writes. rewrite !Nat.eqb_refl, Hside.
      cbn [negb andb]. rewrite orb_true_r. reflexivity.
Qed.


Lemma get_affinity_matrix_planes_result (p : ManifoldSet) :
  planes = to_cgal_planes p ->
  let am := fst (get_affinity_matrix_planes cloud p max_dist) in
  rows am = List.length cloud /\ cols am = List.length cloud
  /\ forall i j, (i < List.length cloud)%nat -> (j < List.length cloud)%nat ->
       coeff am i j = coeff am j i
       /\ (coeff am i j = 0 \/ coeff am i j = 1)
       /\ (i = j -> coeff am i j = 0)
       /\ ((i < j)%nat -> wrongSide cloud i j = true -> coeff am i j = 0)
       /\ ((i < j)%nat -> wrongSide cloud i j = false ->
           coeff am i j
           = if blocked cloud planes max_dist (row3 cloud i) (row3 cloud j)
             then 0 else 1).
Proof.
  intros Hplanes. unfold get_affinity_matrix_planes. rewrite <- Hplanes.
  cbv zeta.
  match goal with
  | |- context [fold_left ?f ?l ?s] =>
    match type of s with
    | (MatrixXd * Z * Z * list Event)%type =>
      pose proof (plane_outer_coeff (List.length cloud) l s) as Hout;
      cbv zeta in Hout;
      set (res := fold_left f l s) in *;
      change (fold_left
                (fun st i =>
                   fold_left (planePairBody cloud planes max_dist i)
                             (seq (S i) (List.length cloud - S i)) st) l s)
        with res in Hout
    end
  end.
  clearbody res. destruct res as [[[am c] wrong] out].
  cbn [fst setZero rows cols coeff] in *.
  destruct Hout as (Hr & Hc & Hco).
  split; [exact Hr |]. split; [exact Hc |].
  intros i j Hi Hj.
  pose proof (plane_visited_iff (List.length cloud) i j) as Hij.
  pose proof (plane_visited_iff (List.length cloud) j i) as Hji.
  rewrite !Hco.
  destruct (existsb
              (fun i0 => existsb (planeWrites cloud i0 i j)
                                 (seq (S i0) (List.length cloud - S i0)))
              (seq 0 (List.length cloud))) eqn:E1;
    destruct (existsb
                (fun i0 => existsb (planeWrites cloud i0 j i)
                                   (seq (S i0) (List.length cloud - S i0)))
                (seq 0 (List.length cloud))) eqn:E2.
  - pose proof (proj1 Hij eq_refl) as V1.
    rewrite (Nat.min_comm j i), (Nat.max_comm j i).
    split; [reflexivity |].
    split; [destruct (blocked cloud planes max_dist _ _); auto |].
    split; [intros ->; lia |].
    split.
    + intros Hlt Hw. destruct V1 as [[_ V1] | [V1 _]]; [congruence | lia].
    + intros Hlt _. rewrite Nat.min_l, Nat.max_r by lia. reflexivity.
  - exfalso. pose proof (proj1 Hij eq_refl) as V1.
    assert (Hc' : false = true) by (apply Hji; tauto). discriminate.
  - exfalso. pose proof (proj1 Hji eq_refl) as V2.
    assert (Hc' : false = true) by (apply Hij; tauto). discriminate.
  - split; [reflexivity |]. split; [left; reflexivity |].
    split; [reflexivity |]. split; [reflexivity |].
    intros Hlt Hw. exfalso.
    assert (Hc' : false = true)
      by (apply Hij; left; split; [lia | exact Hw]).
    discriminate.
Qed.

End VisPlaneAffinity.

Section VisResults.
Import Random PSS Vis.
Open Scope Q_scope.

(** X27.  For a cloud with at least one row, [get_affinity_matrix] over a
    mesh returns a square matrix of the size of the cloud that is
    symmetric with a zero diagonal.  The coefficient of two different rows
    is their affinity: 1 when no face of the mesh lies between the two
    points, 1 / (1 + n) for n faces between them, so that it lies in (0, 1]
    and is 1 exactly when no face lies between them.  The debug cloud keeps
    the positions, and its three normal columns are all NaN: the vector of
    hits stays zero and is divided by its largest coefficient. *)
Theorem get_affinity_matrix_is_symmetric_affinity {X : Collaborators}
  (cloud : PointCloud) (surface_mesh : Mesh) :
  cloud <> [] ->
  exists am debug out,
    get_affinity_matrix cloud surface_mesh = (Some (am, debug), out)
    /\ rows am = List.length cloud /\ cols am = List.length cloud
    /\ (forall i j, (i < List.length cloud)%nat -> (j < List.length cloud)%nat ->
          coeff am i j = coeff am j i
          /\ (i = j -> coeff am i j = 0)
          /\ (i <> j ->
              coeff am i j = affinity cloud surface_mesh i j
              /\ 0 < coeff am i j <= 1
              /\ (coeff am i j == 1
                  <-> facesBetween cloud surface_mesh
                                   (Nat.min i j) (Nat.max i j) = 0%Z)))
    /\ map fst debug = map fst cloud
    /\ Forall (fun row => snd row = (NaN, NaN, NaN)) debug.
Proof. apply get_affinity_matrix_result. Qed.

(** X28.  [get_affinity_matrix] over planes returns a square matrix of the
    size of the cloud whose coefficients are 0 or 1; it is symmetric with a
    zero diagonal, although the side test reads the normal of the row with
    the lower index only.  For rows i < j the coefficient is 0 when j lies
    on the wrong side of i; otherwise it is 0 or 1 as the loop over the
    planes finds the segment between the two points blocked or not. *)
Theorem get_affinity_matrix_planes_is_symmetric_01 {K : Kernel}
  {Y : PlaneCollaborators} (cloud : PointCloud) (p : ManifoldSet)
  (max_dist : Q) :
  let am := fst (get_affinity_matrix_planes cloud p max_dist) in
  rows am = List.length cloud /\ cols am = List.length cloud
  /\ forall i j, (i < List.length cloud)%nat -> (j < List.length cloud)%nat ->
       coeff am i j = coeff am j i
       /\ (coeff am i j = 0 \/ coeff am i j = 1)
       /\ (i = j -> coeff am i j = 0)
       /\ ((i < j)%nat -> wrongSide cloud i j = true -> coeff am i j = 0)
       /\ ((i < j)%nat -> wrongSide cloud i j = false ->
           coeff am i j
           = if blocked cloud (to_cgal_planes p) max_dist
                        (row3 cloud i) (row3 cloud j)
             then 0 else 1).
Proof.
  apply (get_affinity_matrix_planes_result cloud (to_cgal_planes p) max_dist).
  reflexivity.
Qed.

End VisResults.

Section VisExamples.
Import Random PSS Vis VisExamples Examples.PSSEx.
Open Scope Q_scope.

(** Two points and one face between them. *)
Lemma get_affinity_matrix_is_symmetric_affinity_witness :
  exists am debug out,
    get_affinity_matrix (X := oneWall) [pointAbove; pointOnTop] tt
    = (Some (am, debug), out)
    /\ rows am = List.length [pointAbove; pointOnTop]
    /\ cols am = List.length [pointAbove; pointOnTop]
    /\ (forall i j, (i < List.length [pointAbove; pointOnTop])%nat ->
                    (j < List.length [pointAbove; pointOnTop])%nat ->
          coeff am i j = coeff am j i
          /\ (i = j -> coeff am i j = 0)
          /\ (i <> j ->
              coeff am i j
              = affinity (X := oneWall) [pointAbove; pointOnTop] tt i j
              /\ 0 < coeff am i j <= 1
              /\ (coeff am i j == 1
                  <-> facesBetween (X := oneWall) [pointAbove; pointOnTop] tt
                                   (Nat.min i j) (Nat.max i j) = 0%Z)))
    /\ map fst debug = map fst [pointAbove; pointOnTop]
    /\ Forall (fun row => snd row = (NaN, NaN, NaN)) debug.
Proof.
  apply (@get_affinity_matrix_is_symmetric_affinity oneWall
           [pointAbove; pointOnTop] tt).
  discriminate.
Defined.

End VisExamples.

(* ================================================================== *)
(** * The creator of primitive sets: freedom from undefined behaviour *)
(* ================================================================== *)

Section PSSDefined.
Import Random PSS.
Open Scope Q_scope.
Context {E : RandomEngine} {K : Kernel}.
Variable c : PrimitiveSetCreator.

Lemma bind_ok {A B} (m : M A) (k : A -> M B) (w : World) (a : A)
  (w1 : World) :
  m w = Ok a w1 -> bind m k w = k a w1.
Proof. intros H. unfold bind. rewrite H. reflexivity. Qed.

Lemma pickCandidate_returns candidates w :
  exists r w', pickCandidate candidates w = Ok r w'.
Proof.
  destruct candidates as [| x rest]; [eexists; eexists; reflexivity |].
  cbn [pickCandidate].
  destruct (@uniform_int_ok _ 0 (Z.of_nat (List.length (x :: rest)) - 1) w)
    as (i & w1 & Hi & Hrange & _); [cbn [List.length]; lia |].
  rewrite (bind_ok _ _ _ _ _ Hi).
  destruct (@index_ok _ _ (x :: rest) i w1) as (m & Hm & _); [lia |].
  rewrite (bind_ok _ _ _ _ _ Hm). eexists; eexists; reflexivity.
Qed.

Lemma createBoxCase_returns w : exists pr w', createBoxCase c w = Ok pr w'.
Proof.
  unfold createBoxCase, getParallelPlane, getPerpendicularPlane, getManifold.
  repeat match goal with
         | |- exists pr w', bind (pickCandidate ?l) _ ?w0 = Ok pr w' =>
           let r := fresh "r" in
           let w1 := fresh "w" in
           let H := fresh "H" in
           destruct (pickCandidate_returns l w0) as (r & w1 & H);
           rewrite (bind_ok _ _ _ _ _ H); destruct r;
           [| eexists; eexists; reflexivity]
         end.
  eexists; eexists; reflexivity.
Qed.

Lemma selectCaps_returns (k : nat) cyl eps :
  forall planes w, exists out w', selectCaps c k cyl eps planes w = Ok out w'.
Proof.
  induction k as [| k IH]; intros planes w; cbn [selectCaps];
    [eexists; eexists; reflexivity |].
  unfold getManifold.
  destruct (pickCandidate_returns
              (filter (manifoldCandidate ManifoldType.Plane (n cyl) planes
                         (cos eps) default_ignoreDirection default_point
                         default_minimumPointDistance) (cms c)) w)
    as (r & w1 & H).
  rewrite (bind_ok _ _ _ _ _ H). destruct r; apply IH.
Qed.

Lemma colwise_some pick (cloud : PointCloud) :
  cloud <> [] -> exists v, colwise pick cloud = Some v.
Proof.
  destruct cloud as [| [x nx] rest]; [contradiction |].
  intros _. cbn [colwise]. eexists; reflexivity.
Qed.

Lemma createCylinderPrimitive_returns m planes w :
  pc m <> [] ->
  exists pr w', createCylinderPrimitive m planes w = Ok pr w'.
Proof.
  intros Hpc. unfold createCylinderPrimitive.
  destruct planes as [| plane0 [| plane1 [| plane2 rest]]];
    try (eexists; eexists; reflexivity).
  unfold estimateSecondCylinderPlaneFromPointCloud.
  destruct (colwise_some Qmin (pc m) Hpc) as (lo & ->).
  destruct (colwise_some Qmax (pc m) Hpc) as (hi & ->).
  eexists; eexists; reflexivity.
Qed.

Lemma distinctTypes_grows ms0 :
  forall seen, (List.length seen <= List.length (distinctTypes ms0 seen))%nat.
Proof.
  induction ms0 as [| m rest IH]; intros seen; cbn [distinctTypes]; [lia |].
  destruct (existsb _ seen); [apply IH |].
  specialize (IH (seen ++ [type m])%list). rewrite length_app in IH.
  cbn [List.length] in IH. lia.
Qed.

Lemma available_nonempty :
  cms c <> [] -> (1 <= List.length (availableManifoldTypes c))%nat.
Proof.
  unfold availableManifoldTypes. destruct (cms c) as [| m rest];
    [contradiction |].
  intros _. cbn [distinctTypes existsb].
  pose proof (distinctTypes_grows rest ([] ++ [type m])%list) as H.
  cbn [app List.length] in H. exact H.
Qed.

Lemma createPrimitive_returns w :
  cms c <> [] ->
  (forall m, In m (cms c) -> type m = ManifoldType.Cylinder -> pc m <> []) ->
  exists pr w', createPrimitive c w = Ok pr w'.
Proof.
  intros Hne Hcyl. unfold createPrimitive.
  assert (Hty : exists ty w1, getRandomPrimitiveType c w = Ok ty w1
                              /\ ty <> PrimitiveType.Sphere).
  { unfold getRandomPrimitiveType. pose proof (available_nonempty Hne) as Hav.
    destruct (@uniform_int_ok _ 0
                (Z.of_nat (List.length (availableManifoldTypes c)) - 1) w)
      as (k & w1 & Hk & Hrange & _); [lia |].
    rewrite (bind_ok _ _ _ _ _ Hk).
    destruct (@index_ok _ _ (availableManifoldTypes c) k w1) as (ty & Hidx & _);
      [lia |].
    rewrite (bind_ok _ _ _ _ _ Hidx).
    eexists; eexists. split; [reflexivity |]. destruct ty; discriminate. }
  destruct Hty as (ty & w1 & Hty & Hns). rewrite (bind_ok _ _ _ _ _ Hty).
  assert (Hpr : exists pr0 w2,
            match ty with
            | PrimitiveType.Box => createBoxCase c
            | PrimitiveType.Cylinder =>
              bind (getManifold c ManifoldType.Cylinder zero3 [] 0 true
                                default_point default_minimumPointDistance)
                   (fun cyl =>
                      match cyl with
                      | Some cyl =>
                        bind (uniform_int 0 2)
                             (fun numPlanesToSelect =>
                                bind (selectCaps c (Z.to_nat numPlanesToSelect)
                                                 cyl (angleEpsilon c) [])
                                     (fun planes =>
                                        createCylinderPrimitive cyl planes))
                      | None => ret Primitive_None
                      end)
            | PrimitiveType.Sphere =>
              bind (getManifold c ManifoldType.Sphere zero3 [] 0 true
                                default_point default_minimumPointDistance)
                   (fun sphere =>
                      match sphere with
                      | Some sphere => ret (createSpherePrimitive (Some sphere))
                      | None => ret Primitive_None
                      end)
            | PrimitiveType.None => ret Primitive_None
            end w1 = Ok pr0 w2).
  { destruct ty; [eexists; eexists; reflexivity | apply createBoxCase_returns
                  | | contradiction].
    destruct (getManifold c ManifoldType.Cylinder zero3 [] 0 true
                          default_point default_minimumPointDistance w1)
      as [[cyl |] w2 | |] eqn:Hg.
    - rewrite (bind_ok _ _ _ _ _ Hg).
      apply getManifold_inv in Hg. destruct Hg as (Hin & Htype & _).
      destruct (@uniform_int_ok _ 0 2 w2) as (k & w3 & Hk & _); [lia |].
      rewrite (bind_ok _ _ _ _ _ Hk).
      destruct (selectCaps_returns (Z.to_nat k) cyl (angleEpsilon c) [] w3)
        as (planes & w4 & Hcaps).
      rewrite (bind_ok _ _ _ _ _ Hcaps).
      apply createCylinderPrimitive_returns. apply Hcyl; assumption.
    - rewrite (bind_ok _ _ _ _ _ Hg). eexists; eexists; reflexivity.
    - exfalso. unfold getManifold in Hg.
      destruct (pickCandidate_returns
                  (filter (manifoldCandidate ManifoldType.Cylinder zero3 []
                             (cos 0) true default_point
                             default_minimumPointDistance) (cms c)) w1)
        as (r & w' & Hr).
      rewrite Hr in Hg. discriminate.
    - exfalso. unfold getManifold in Hg.
      destruct (pickCandidate_returns
                  (filter (manifoldCandidate ManifoldType.Cylinder zero3 []
                             (cos 0) true default_point
                             default_minimumPointDistance) (cms c)) w1)
        as (r & w' & Hr).
      rewrite Hr in Hg. discriminate. }
  destruct Hpr as (pr0 & w2 & Hpr). rewrite (bind_ok _ _ _ _ _ Hpr).
  destruct (bernoulli_ok (1 # 2) w2) as (cut & w3 & Hcut & _).
  rewrite (bind_ok _ _ _ _ _ Hcut). eexists; eexists; reflexivity.
Qed.

Lemma assign_returns {A} (v : list A) (i : Z) (a : A) w :
  (0 <= i < Z.of_nat (List.length v))%Z ->
  exists v', assign v i a w = Ok v' w.
Proof.
  intros Hi. unfold assign. destruct (Z.ltb_spec i 0) as [Hlt | _]; [lia |].
  assert (Hn : (Z.to_nat i < List.length v)%nat) by lia.
  clear Hi. revert Hn. generalize (Z.to_nat i). clear i.
  induction v as [| x v IH]; intros i Hn; [cbn in Hn; lia |].
  destruct i as [| i]; cbn [assign_nat]; [eexists; reflexivity |].
  cbn [List.length] in Hn.
  destruct (IH i ltac:(lia)) as (v' & Hv).
  destruct (assign_nat v i a) as [v0 |]; [| discriminate].
  cbn [option_map]. eexists; reflexivity.
Qed.

Lemma mutatePrimitive_returns p0 eps w :
  wellFormed p0 ->
  (ptype p0 = PrimitiveType.Cylinder ->
   forall cyl rest, ms p0 = cyl :: rest -> pc cyl <> []) ->
  exists pr w', mutatePrimitive c p0 eps w = Ok pr w'.
Proof.
  intros Hwf Hpc. unfold mutatePrimitive.
  assert (Hpr : exists pr0 w2,
            match ptype p0 with
            | PrimitiveType.Box =>
              bind (uniform_int 0 2)
                   (fun k =>
                      bind (index (ms p0) (k * 2)%Z)
                           (fun plane =>
                              bind (getParallelPlane c plane (ms p0) eps
                                      (minDistanceBetweenParallelPlanes c))
                                   (fun newPlane =>
                                      match newPlane with
                                      | Some newPlane =>
                                        bind (assign (ms p0) (k * 2 + 1)%Z
                                                     newPlane)
                                             (fun newPlanes =>
                                                ret (createBoxPrimitive
                                                       newPlanes))
                                      | None => ret p0
                                      end)))
            | PrimitiveType.Cylinder =>
              bind (uniform_int 0 2)
                   (fun numPlanesToSelect =>
                      bind (index (ms p0) 0)
                           (fun cyl =>
                              bind (selectCaps c (Z.to_nat numPlanesToSelect)
                                               cyl eps [])
                                   (fun planes =>
                                      createCylinderPrimitive cyl planes)))
            | _ => ret p0
            end w = Ok pr0 w2).
  { unfold wellFormed in Hwf. destruct (ptype p0) eqn:Hty;
      try (eexists; eexists; reflexivity).
    - destruct (@uniform_int_ok _ 0 2 w) as (k & w1 & Hk & Hrange & _); [lia |].
      rewrite (bind_ok _ _ _ _ _ Hk).
      destruct (@index_ok _ _ (ms p0) (k * 2)%Z w1) as (plane & Hidx & _);
        [rewrite Hwf; lia |].
      rewrite (bind_ok _ _ _ _ _ Hidx).
      unfold getParallelPlane, getManifold.
      match goal with
      | |- context [pickCandidate ?l] =>
        destruct (pickCandidate_returns l w1) as (r & w2 & Hr)
      end.
      rewrite (bind_ok _ _ _ _ _ Hr). destruct r as [newPlane |];
        [| eexists; eexists; reflexivity].
      destruct (assign_returns (ms p0) (k * 2 + 1)%Z newPlane w2)
        as (newPlanes & Ha); [rewrite Hwf; lia |].
      rewrite (bind_ok _ _ _ _ _ Ha). eexists; eexists; reflexivity.
    - destruct Hwf as (cyl & rest & Hms & Hcyl).
      destruct (@uniform_int_ok _ 0 2 w) as (k & w1 & Hk & _); [lia |].
      rewrite (bind_ok _ _ _ _ _ Hk).
      destruct (@index_ok _ _ (ms p0) 0 w1) as (cyl' & Hidx & _);
        [rewrite Hms; cbn [List.length]; lia |].
      rewrite (bind_ok _ _ _ _ _ Hidx).
      apply index_inv in Hidx. destruct Hidx as (_ & _ & Hn).
      rewrite Hms in Hn. cbn in Hn. inversion Hn; subst cyl'.
      destruct (selectCaps_returns (Z.to_nat k) cyl eps [] w1)
        as (planes & w2 & Hcaps).
      rewrite (bind_ok _ _ _ _ _ Hcaps).
      apply createCylinderPrimitive_returns.
      eapply Hpc; [reflexivity | exact Hms]. }
  destruct Hpr as (pr0 & w2 & Hpr). rewrite (bind_ok _ _ _ _ _ Hpr).
  destruct (bernoulli_ok (1 # 2) w2) as (cut & w3 & Hcut & _).
  rewrite (bind_ok _ _ _ _ _ Hcut). eexists; eexists; reflexivity.
Qed.

(** X29.  [createPrimitive] has defined behaviour, and returns a
    primitive, for every creator that has a manifold and whose cylinders
    all have a point: no draw is over an empty range, no index is out of
    range and no extremum is taken of an empty point cloud. *)
Theorem createPrimitive_has_defined_behaviour (w : World) :
  cms c <> [] ->
  (forall m, In m (cms c) -> type m = ManifoldType.Cylinder -> pc m <> []) ->
  exists pr w', createPrimitive c w = Ok pr w'.
Proof. apply createPrimitive_returns. Qed.

(** X30.  [mutatePrimitive] has defined behaviour, and returns a
    primitive, for every primitive whose manifold list fits its kind (six
    planes for a box, the cylinder first for a cylinder) and, for a
    cylinder, whose cylinder manifold has a point. *)
Theorem mutatePrimitive_has_defined_behaviour (p0 : Primitive) (eps : Q)
  (w : World) :
  wellFormed p0 ->
  (ptype p0 = PrimitiveType.Cylinder ->
   forall cyl rest, ms p0 = cyl :: rest -> pc cyl <> []) ->
  exists pr w', mutatePrimitive c p0 eps w = Ok pr w'.
Proof. apply mutatePrimitive_returns. Qed.

End PSSDefined.

Section CSGExtraExamples.
Import Random CSG CSGMore Examples.CSGEx.

(** The default creator under a script: a tree of its shape. *)
Lemma create_builds_binary_trees_witness :
  exists t w',
    create_depth (E := scripted) defaultCreator 3 (scriptedWorld [7; 3; 9]%N)
    = Ok t w'
    /\ binaryOver (_functions defaultCreator) t
    /\ treeIsInvalid t = false
    /\ events w' = events (scriptedWorld [7; 3; 9]%N)
    /\ (3%Z = 0%Z -> exists f, t = Geometry f)
    /\ (3%Z <> 0%Z -> exists op nm a b, t = Operation op nm [a; b]).
Proof.
  apply (@create_builds_binary_trees scripted defaultCreator).
  discriminate.
Defined.

(** A negative depth limit: an operation over two leaves. *)
Lemma create_depth_bounds_witness :
  exists t w',
    create_depth (E := scripted) defaultCreator (-2) (scriptedWorld [7; 3; 9]%N)
    = Ok t w'
    /\ ((0 <= -2)%Z -> (Z.of_nat (depth t) <= -2)%Z)
    /\ ((-2 < 0)%Z -> depth t = 1%nat).
Proof.
  apply (@create_depth_bounds scripted defaultCreator).
  discriminate.
Defined.

Lemma mutate_keeps_binary_shape_witness :
  exists t' w',
    mutate (E := scripted) defaultCreator deepTree (scriptedWorld [7; 3]%N)
    = Ok t' w'
    /\ binaryOver [fA; fB] t'.
Proof.
  apply (@mutate_keeps_binary_shape scripted defaultCreator).
  - discriminate.
  - apply incl_refl.
  - cbn. unfold binaryOperator. intuition.
Defined.

Lemma crossover_keeps_depth_limit_witness :
  exists r1 r2 w',
    crossover (E := scripted) shallowCreator unionAB deepTree
              (scriptedWorld [0; 1]%N) = Ok [r1; r2] w'
    /\ (Z.of_nat (depth r1) <= _maxTreeDepth shallowCreator)%Z
    /\ (Z.of_nat (depth r2) <= _maxTreeDepth shallowCreator)%Z.
Proof.
  apply (@crossover_keeps_depth_limit scripted shallowCreator).
  vm_compute. discriminate.
Defined.

(** A clique without functions, a clique of one and a clique of two. *)
Lemma computeNodesForCliques_entries_witness :
  exists out w',
    computeNodesForCliques (E := scripted) (X := exampleCollaborators)
      [mkClique []; mkClique [fA]; mkClique [fA; fB]] emptyGraph
      (scriptedWorld []) = Ok out w'
    /\ map fst out = [mkClique [fA]; mkClique [fA; fB]]
    /\ Forall cliqueEntry out.
Proof.
  assert (Hrun : { r : list (Clique * CSGNode) * World |
             computeNodesForCliques (E := scripted) (X := exampleCollaborators)
               [mkClique []; mkClique [fA]; mkClique [fA; fB]] emptyGraph
               (scriptedWorld []) = Ok (fst r) (snd r) }).
  { eexists (_, _). cbn [fst snd]. vm_compute. reflexivity. }
  destruct Hrun as [[out w'] Hrun]. cbn [fst snd] in Hrun.
  exists out, w'. split; [exact Hrun |].
  exact (@computeNodesForCliques_entries scripted exampleCollaborators
           _ _ _ _ _ Hrun).
Defined.

Lemma computeNodesForCliques_small_cliques_witness :
  computeNodesForCliques (E := scripted) (X := exampleCollaborators)
    [mkClique []; mkClique [fB]; mkClique [fA]] emptyGraph (scriptedWorld [])
  = Ok [(mkClique [fB], Geometry fB); (mkClique [fA], Geometry fA)]
       (scriptedWorld []).
Proof.
  apply (@computeNodesForCliques_small_cliques scripted exampleCollaborators
           [mkClique []; mkClique [fB]; mkClique [fA]] emptyGraph
           (scriptedWorld [])).
  repeat constructor.
Defined.

(** Two trees of the same example score: the larger ranks lower. *)
Lemma rank_size_pressure_witness :
  exists s s' w1 w2,
    rank (E := scripted) (X := exampleCollaborators)
         (CSGNodeRanker_new 1 [fA; fB] emptyGraph) deepTree (scriptedWorld [])
    = Ok s w1
    /\ rank (E := scripted) (X := exampleCollaborators)
            (CSGNodeRanker_new 1 [fA; fB] emptyGraph) unionAB (scriptedWorld [])
       = Ok s' w2
    /\ (s < s' <-> (numNodes unionAB < numNodes deepTree)%nat).
Proof.
  apply (@rank_size_pressure scripted exampleCollaborators
           (CSGNodeRanker_new 1 [fA; fB] emptyGraph) deepTree unionAB
           (scriptedWorld [])).
  - reflexivity.
  - reflexivity.
Defined.

End CSGExtraExamples.

Section PSSExtraExamples.
Import Random PSS PSSMore Examples.PSSEx MoreExamples.PSSEx2.
Open Scope Q_scope.

(** The creator over the cube planes builds a box. *)
Lemma createPrimitive_never_builds_a_sphere_witness :
  exists pr w',
    createPrimitive (E := scripted) (K := example_kernel) cubeCreator
                    (scriptedWorld [0; 0; 0; 0; 0; 0; 0; 0]%N) = Ok pr w'
    /\ ptype pr <> PrimitiveType.Sphere /\ wellFormed pr.
Proof.
  assert (Hrun : { r : Primitive * World |
             createPrimitive (E := scripted) (K := example_kernel) cubeCreator
               (scriptedWorld [0; 0; 0; 0; 0; 0; 0; 0]%N)
             = Ok (fst r) (snd r) }).
  { eexists (_, _). cbn [fst snd]. vm_compute. reflexivity. }
  destruct Hrun as [[pr w'] Hrun]. cbn [fst snd] in Hrun.
  exists pr, w'. split; [exact Hrun |].
  exact (@createPrimitive_never_builds_a_sphere scripted example_kernel
           cubeCreator _ _ _ Hrun).
Defined.

Lemma createPrimitive_box_from_three_parallel_pairs_witness :
  exists pr w' planes cut,
    createPrimitive (E := scripted) (K := example_kernel) cubeCreator
                    (scriptedWorld [0; 0; 0; 0; 0; 0; 0; 0]%N) = Ok pr w'
    /\ ptype pr = PrimitiveType.Box
    /\ boxSelection (K := example_kernel) cubeCreator planes
    /\ pr = set_cutout cut (createBoxPrimitive (K := example_kernel) planes).
Proof.
  assert (Hrun : { r : Primitive * World |
             createPrimitive (E := scripted) (K := example_kernel) cubeCreator
               (scriptedWorld [0; 0; 0; 0; 0; 0; 0; 0]%N)
             = Ok (fst r) (snd r)
             /\ ptype (fst r) = PrimitiveType.Box }).
  { eexists (_, _). cbn [fst snd]. split; vm_compute; reflexivity. }
  destruct Hrun as [[pr w'] [Hrun Hbox]]. cbn [fst snd] in Hrun, Hbox.
  destruct (@createPrimitive_box_from_three_parallel_pairs scripted
              example_kernel cubeCreator _ _ _ Hrun Hbox)
    as (planes & cut & Hsel & Heq).
  exists pr, w', planes, cut. auto.
Defined.

Lemma create_set_size_and_members_witness :
  exists ps w',
    create (E := scripted) (K := example_kernel) cubeCreator 3
           (scriptedWorld [0; 0; 0; 0; 0; 0; 0; 0; 0]%N) = Ok ps w'
    /\ (1 <= Z.of_nat (List.length ps) <= maxPrimitiveSetSize cubeCreator)%Z
    /\ Forall evolved ps.
Proof.
  assert (Hrun : { r : PrimitiveSet * World |
             create (E := scripted) (K := example_kernel) cubeCreator 3
               (scriptedWorld [0; 0; 0; 0; 0; 0; 0; 0; 0]%N)
             = Ok (fst r) (snd r) }).
  { eexists (_, _). cbn [fst snd]. vm_compute. reflexivity. }
  destruct Hrun as [[ps w'] Hrun]. cbn [fst snd] in Hrun.
  exists ps, w'. split; [exact Hrun |].
  exact (@create_set_size_and_members scripted example_kernel cubeCreator
           _ _ _ _ Hrun).
Defined.

(** A creator that has a sphere only. *)
Lemma create_never_returns_without_planes_and_cylinders_witness :
  nothingToBuildFrom sphereCreator
  /\ create (E := scripted) (K := example_kernel) sphereCreator 100
            (scriptedWorld [1; 2; 3]%N)
     <> Ok [spherePrimitive] (scriptedWorld []).
Proof.
  assert (Hno : nothingToBuildFrom sphereCreator)
    by (repeat constructor).
  split; [exact Hno |].
  exact (@create_never_returns_without_planes_and_cylinders scripted
           example_kernel sphereCreator 100 (scriptedWorld [1; 2; 3]%N)
           [spherePrimitive] (scriptedWorld []) Hno).
Defined.

(** The unit box under the creator of the cube planes: every plane is in
    use, so the box comes back with its flag drawn anew. *)
Lemma mutatePrimitive_keeps_manifolds_fitting_witness :
  exists pr w',
    mutatePrimitive (E := scripted) (K := example_kernel) cubeCreator unitBox
                    (349 # 1000) (scriptedWorld [1; 0; 0]%N) = Ok pr w'
    /\ wellFormed pr
    /\ (ptype unitBox <> PrimitiveType.Sphere ->
        ptype pr <> PrimitiveType.Sphere).
Proof.
  assert (Hrun : { r : Primitive * World |
             mutatePrimitive (E := scripted) (K := example_kernel) cubeCreator
               unitBox (349 # 1000) (scriptedWorld [1; 0; 0]%N)
             = Ok (fst r) (snd r) }).
  { eexists (_, _). cbn [fst snd]. vm_compute. reflexivity. }
  destruct Hrun as [[pr w'] Hrun]. cbn [fst snd] in Hrun.
  exists pr, w'. split; [exact Hrun |].
  refine (@mutatePrimitive_keeps_manifolds_fitting scripted example_kernel
            cubeCreator unitBox _ _ _ _ _ Hrun).
  vm_compute. reflexivity.
Defined.

Lemma evolved_unitBox : evolved unitBox.
Proof.
  split; [vm_compute; reflexivity |].
  split; [vm_compute; discriminate | vm_compute; reflexivity].
Qed.

(** The mutation ADD on the set of the unit box. *)
Lemma mutate_keeps_members_sound_witness :
  exists out w',
    mutate (E := scripted) (K := example_kernel) cubeCreator 3 [unitBox]
           (scriptedWorld [4294967295; 0; 0; 0; 0; 0; 0; 0; 0; 0; 0]%N)
    = Ok out w'
    /\ Forall evolved out
    /\ ((1 <= Z.of_nat (List.length out) <= maxPrimitiveSetSize cubeCreator)%Z
        \/ (Z.of_nat (List.length [unitBox]) <= Z.of_nat (List.length out)
            <= Z.of_nat (List.length [unitBox])
               + maxMutationIterations cubeCreator)%Z).
Proof.
  assert (Hrun : { r : PrimitiveSet * World |
             mutate (E := scripted) (K := example_kernel) cubeCreator 3
               [unitBox]
               (scriptedWorld [4294967295; 0; 0; 0; 0; 0; 0; 0; 0; 0; 0]%N)
             = Ok (fst r) (snd r) }).
  { eexists (_, _). cbn [fst snd]. vm_compute. reflexivity. }
  destruct Hrun as [[out w'] Hrun]. cbn [fst snd] in Hrun.
  exists out, w'. split; [exact Hrun |].
  refine (@mutate_keeps_members_sound scripted example_kernel cubeCreator
            _ _ _ _ _ Hrun _).
  constructor; [exact evolved_unitBox | constructor].
Defined.

Lemma mutate_remove_returns_the_input_witness :
  exists out w',
    mutate (E := scripted) (K := example_kernel) cubeCreator 3 [unitBox]
           (scriptedWorld [drawRemove; 0; 0]%N) = Ok out w'
    /\ out = [unitBox].
Proof.
  assert (Hrun : { r : PrimitiveSet * World |
             mutate (E := scripted) (K := example_kernel) cubeCreator 3
               [unitBox] (scriptedWorld [drawRemove; 0; 0]%N)
             = Ok (fst r) (snd r) }).
  { eexists (_, _). cbn [fst snd]. vm_compute. reflexivity. }
  destruct Hrun as [[out w'] Hrun]. cbn [fst snd] in Hrun.
  exists out, w'. split; [exact Hrun |].
  refine (@mutate_remove_returns_the_input scripted example_kernel cubeCreator
            3 [unitBox] (scriptedWorld [drawRemove; 0; 0]%N)
            (scriptedWorld [0; 0]%N) _ _ _ _ Hrun).
  - vm_compute. reflexivity.
  - discriminate.
Defined.

Lemma crossover_exchanges_members_in_place_witness :
  exists out w' o1 o2,
    crossover (E := scripted) cubeCreator
              [unitBox; farBox] [farBox]
              (scriptedWorld [0; 4294967295; 1; 0; 0]%N) = Ok out w'
    /\ out = [o1; o2]
    /\ fromEither [unitBox; farBox] [farBox] o1
    /\ fromEither [farBox] [unitBox; farBox] o2
    /\ forall Q : Primitive -> Prop,
         Forall Q [unitBox; farBox] -> Forall Q [farBox] ->
         Forall Q o1 /\ Forall Q o2.
Proof.
  assert (Hrun : { r : list PrimitiveSet * World |
             crossover (E := scripted) cubeCreator
               [unitBox; farBox] [farBox]
               (scriptedWorld [0; 4294967295; 1; 0; 0]%N)
             = Ok (fst r) (snd r) }).
  { eexists (_, _). cbn [fst snd]. vm_compute. reflexivity. }
  destruct Hrun as [[out w'] Hrun]. cbn [fst snd] in Hrun.
  destruct (@crossover_exchanges_members_in_place scripted
              cubeCreator _ _ _ _ _ Hrun) as (o1 & o2 & Hrest).
  exists out, w', o1, o2. split; [exact Hrun | exact Hrest].
Defined.

(** A static sphere that was a cutout is none after the loop. *)
Lemma tuneStaticCutouts_clears_every_cutout_witness :
  fst (tuneStaticCutouts (K := example_kernel) (rankerOver [pointOnTop] [])
         [set_cutout true spherePrimitive] PrimitiveSetRanker_best0)
  = map (set_cutout false) [set_cutout true spherePrimitive].
Proof.
  apply (@tuneStaticCutouts_clears_every_cutout example_kernel).
  intros pr _. reflexivity.
Defined.

End PSSExtraExamples.

Section PipelineExtraExamples.
Import Random CSG Pipeline MoreExamples.PipelineEx2.
Open Scope string_scope.

(** A tree file with a union, the optimiser GA without decomposition. *)
Lemma run_exit_code_0_means_output_written_witness :
  exists code tr',
    run (X := withTree true false "GA") "out" tt [] = (Returned code, tr')
    /\ (code = 1%Z
        \/ (code = 0%Z
            /\ exists pre,
                 tr' = (pre ++ Call "writeNode"
                            :: outputMeshEvents
                                 (read_pipeline_params
                                    (X := withTree true false "GA") tt))%list)).
Proof.
  assert (Hrun : { r : Z * list Event |
             run (X := withTree true false "GA") "out" tt []
             = (Returned (fst r), snd r) }).
  { eexists (_, _). cbn [fst snd]. vm_compute. reflexivity. }
  destruct Hrun as [[code tr'] Hrun]. cbn [fst snd] in Hrun.
  exists code, tr'. split; [exact Hrun |].
  exact (@run_exit_code_0_means_output_written (withTree true false "GA")
           "out" tt [] code tr' Hrun).
Defined.

Lemma load_keeps_read_tree_when_binarisation_throws_witness :
  load (X := withTree false false "GA") "out"
       (read_pipeline_params (X := withTree false false "GA") tt) []
  = (Returned Examples.CSGEx.unionAB,
     ([] ++ [Print "Load CSG tree from 'tree.json'...";
             Call "fromJSONFile"; Call "to_binary_tree";
             cannotLoad (read_pipeline_params
                           (X := withTree false false "GA") tt)
                        "not binarisable"])%list).
Proof.
  apply (@load_keeps_read_tree_when_binarisation_throws
           (withTree false false "GA") "out"
           (read_pipeline_params (X := withTree false false "GA") tt)
           Examples.CSGEx.unionAB "not binarisable" []);
    reflexivity.
Defined.

Lemma run_unknown_optimizer_exits_1_witness :
  fst (run (X := withTree true false "Annealing") "out" tt [])
  <> Returned 0%Z
  /\ (exists l,
        snd (run (X := withTree true false "Annealing") "out" tt [])
        = ([] ++ l)%list
        /\ Forall (fun e => ~ optimizerCall e) l)
  /\ forall code tr',
       run (X := withTree true false "Annealing") "out" tt []
       = (Returned code, tr') ->
       code = 1%Z
       /\ (forall node trl,
             load (X := withTree true false "Annealing") "out"
                  (read_pipeline_params
                     (X := withTree true false "Annealing") tt) []
             = (Returned node, trl) ->
             operationType node <> Noop ->
             exists pre,
               tr' = (pre ++ [Print "Optimize...";
                              unknownOptimizerLine
                                (read_pipeline_params
                                   (X := withTree true false "Annealing")
                                   tt)])%list).
Proof.
  apply (@run_unknown_optimizer_exits_1 (withTree true false "Annealing")
           "out" tt []); reflexivity.
Defined.

End PipelineExtraExamples.

Section PSSDefinedExamples.
Import Random PSS PSSMore Examples.PSSEx MoreExamples.PSSEx2.
Open Scope Q_scope.

(** The creator over a cylinder with two points and two planes. *)
Lemma createPrimitive_has_defined_behaviour_witness :
  exists pr w',
    createPrimitive (E := scripted) (K := example_kernel) capCreator
                    (scriptedWorld [1; 0; 1; 0]%N) = Ok pr w'.
Proof.
  apply (@createPrimitive_has_defined_behaviour scripted example_kernel
           capCreator (scriptedWorld [1; 0; 1; 0]%N)).
  - discriminate.
  - intros m [<- | [<- | [<- | []]]] Hty; discriminate.
Defined.

(** The cylinder primitive of that cylinder. *)
Lemma mutatePrimitive_has_defined_behaviour_witness :
  exists pr w',
    mutatePrimitive (E := scripted) (K := example_kernel) capCreator
      (Primitive_new (IFCylinder (mkAffine Identity3 (p cylinderM)) 1 1)
                     [cylinderM] PrimitiveType.Cylinder)
      (349 # 1000) (scriptedWorld [1; 0]%N) = Ok pr w'.
Proof.
  apply (@mutatePrimitive_has_defined_behaviour scripted example_kernel
           capCreator).
  - exists cylinderM, []. split; reflexivity.
  - intros _ cyl rest Hms. inversion Hms. discriminate.
Defined.

End PSSDefinedExamples.
